(** * AI-Ethica: the fairness and bias metrics engine

    A shallow embedding of [ai_ethica/fairness/metrics.py] and
    [ai_ethica/bias/detector.py], with the parts of the Python runtime, numpy,
    pandas and scikit-learn that the two modules call.

    Conventions of the embedding.
    - A Python [float] is a [pyfloat]: an exact rational ([Fin q], kept in
      lowest terms), the two infinities, or NaN.  [Fin q] stands for the
      binary64 number nearest to [q]; the rounding itself is not modelled,
      so a difference or a quotient is exact here where the code rounds it
      (0.15 - 0.1 is 1/20 here and 0.04999999999999999 in the code).  The
      numbered theorems with quantified inputs therefore state of float
      results only what rounding to nearest keeps: that a result is finite,
      infinite or NaN, its sign, its order with respect to other results
      and to 0, 1 and the thresholds, that it is exactly 0 or 1 where it
      is, and that two results computed in the same way are equal.  None of
      them states a rational identity for a difference or a quotient; the
      auxiliary lemmas, which speak of the embedding only, do.
    - A call that raises is [Err e]; [e] records the exception class and where
      it comes from.  Loops are folds that stop at the first [Err].
    - A [dict] is an association list in insertion order.
    - A numpy array of labels or predictions is a [list Z]; an array of
      probabilities is a [list Q]; an array of group values is a
      [list string].
    - A [DataFrame] column holds strings ([StrCol], dtype object) or integers
      ([IntCol]), without missing values; the detector object is threaded
      through [analyze] as a state.

    Library behaviour relied upon.
    - numpy: [np.unique] sorts; indexing with a boolean mask of another
      length raises IndexError; [mean] of an empty array is NaN; the dtype
      [int64] compares equal to Python's [int].
    - scikit-learn: [confusion_matrix] without [labels] has one row and one
      column per label present in either argument.
    - pandas: [unique] keeps the order of first appearance; [value_counts]
      puts the most frequent value first; [max] and [min] of an empty series
      are NaN; [mean] of a column of strings raises TypeError. *)

From Stdlib Require Import List ZArith QArith Qabs Qminmax String Ascii Bool Lia Lqa.
From Stdlib Require Import DecimalString Sorted Permutation.
Import ListNotations.

Open Scope string_scope.
Open Scope Z_scope.
Open Scope Q_scope.

(* ================================================================== *)
(** * Python runtime *)
(* ================================================================== *)

Module Py.

(** Exception classes that the two modules can let escape. *)
Inductive exn_class : Type :=
| ValueError
| IndexError
| TypeError
| KeyError.

(** An exception, with its origin.
    - [Raise c msg]: a [raise c(msg)] statement written in the repository;
    - [EmptySequence]: builtin [max()] or [min()] on an empty list;
    - [Unpack expected got]: a tuple assignment of [got] values to
      [expected] names;
    - [MaskLength dim mask]: numpy boolean indexing with a mask whose length
      differs from the indexed array's;
    - [NotNumeric]: pandas [Series.mean()] on a column of strings;
    - [MissingColumn name]: [data[name]] for a name that is not a column. *)
Inductive exn : Type :=
| Raise (c : exn_class) (msg : string)
| EmptySequence
| Unpack (expected got : nat)
| MaskLength (dim mask : nat)
| NotNumeric
| MissingColumn (name : string).

Definition class_of (e : exn) : exn_class :=
  match e with
  | Raise c _ => c
  | EmptySequence => ValueError
  | Unpack _ _ => ValueError
  | MaskLength _ _ => IndexError
  | NotNumeric => TypeError
  | MissingColumn _ => KeyError
  end.

Inductive result (A : Type) : Type :=
| Ok (a : A)
| Err (e : exn).
Arguments Ok {A} a.
Arguments Err {A} e.

Definition bind {A B : Type} (c : result A) (k : A -> result B) : result B :=
  match c with
  | Ok a => k a
  | Err e => Err e
  end.

(** [for x in xs: body], threading the loop's variables as a state. *)
Fixpoint for_in {A S : Type} (xs : list A) (body : A -> S -> result S) (s : S)
  : result S :=
  match xs with
  | [] => Ok s
  | x :: rest => bind (body x s) (for_in rest body)
  end.

(** ** Floats *)

Inductive pyfloat : Type :=
| Fin (q : Q)
| PInf
| NInf
| NaN.

Definition float_of_Q (q : Q) : pyfloat := Fin (Qred q).

Definition Qlt_bool (x y : Q) : bool := negb (Qle_bool y x).

(** Python's [a < b] on floats; every comparison with NaN is false. *)
Definition pf_lt (a b : pyfloat) : bool :=
  match a, b with
  | NaN, _ | _, NaN => false
  | Fin x, Fin y => Qlt_bool x y
  | NInf, NInf => false
  | NInf, _ => true
  | _, NInf => false
  | PInf, _ => false
  | Fin _, PInf => true
  end.

Definition pf_gt (a b : pyfloat) : bool := pf_lt b a.

(** Python's [a == b] on floats. *)
Definition pf_eqb (a b : pyfloat) : bool :=
  match a, b with
  | Fin x, Fin y => Qeq_bool x y
  | PInf, PInf => true
  | NInf, NInf => true
  | _, _ => false
  end.

(** Float subtraction, without rounding. *)
Definition pf_sub (a b : pyfloat) : pyfloat :=
  match a, b with
  | NaN, _ | _, NaN => NaN
  | Fin x, Fin y => float_of_Q (x - y)
  | PInf, PInf | NInf, NInf => NaN
  | PInf, _ => PInf
  | NInf, _ => NInf
  | Fin _, PInf => NInf
  | Fin _, NInf => PInf
  end.

(** Float division, without rounding.  Both modules divide only behind a
    [min > 0] test; for a zero divisor the numpy result is given (no
    exception). *)
Definition pf_div (a b : pyfloat) : pyfloat :=
  match a, b with
  | NaN, _ | _, NaN => NaN
  | Fin x, Fin y =>
      if Qeq_bool y 0
      then (if Qlt_bool 0 x then PInf else if Qlt_bool x 0 then NInf else NaN)
      else float_of_Q (x / y)
  | Fin _, _ => Fin 0
  | _, PInf | _, NInf => NaN
  | PInf, Fin y => if Qlt_bool y 0 then NInf else PInf
  | NInf, Fin y => if Qlt_bool y 0 then PInf else NInf
  end.

Definition pf_abs (a : pyfloat) : pyfloat :=
  match a with
  | Fin x => float_of_Q (Qabs x)
  | PInf | NInf => PInf
  | NaN => NaN
  end.

(** Builtin [max(l)]: keeps the first maximal item, raises on []. *)
Definition py_max (l : list pyfloat) : result pyfloat :=
  match l with
  | [] => Err EmptySequence
  | x :: rest => Ok (fold_left (fun m y => if pf_gt y m then y else m) rest x)
  end.

(** Builtin [min(l)]. *)
Definition py_min (l : list pyfloat) : result pyfloat :=
  match l with
  | [] => Err EmptySequence
  | x :: rest => Ok (fold_left (fun m y => if pf_lt y m then y else m) rest x)
  end.

(** [a / b] on integers (true division). *)
Definition int_div (a b : Z) : pyfloat := float_of_Q (inject_Z a / inject_Z b).

(** ** Dictionaries, in insertion order *)

Definition dict (V : Type) : Type := list (string * V).

Fixpoint dict_get {V : Type} (d : dict V) (k : string) : option V :=
  match d with
  | [] => None
  | (k', v) :: rest => if String.eqb k' k then Some v else dict_get rest k
  end.

(** [d[k] = v]: an existing key keeps its place, a new key goes last. *)
Fixpoint dict_set {V : Type} (d : dict V) (k : string) (v : V) : dict V :=
  match d with
  | [] => [(k, v)]
  | (k', v') :: rest =>
      if String.eqb k' k then (k', v) :: rest else (k', v') :: dict_set rest k v
  end.

Definition dict_values {V : Type} (d : dict V) : list V := map snd d.

Definition dict_keys {V : Type} (d : dict V) : list string := map fst d.

(** [str(n)] for an integer. *)
Definition str_of_int (z : Z) : string := NilZero.string_of_int (Z.to_int z).

End Py.

Import Py.

Declare Scope py_scope.
Notation "x <- c ;; k" := (bind c (fun x => k))
  (at level 61, c at next level, right associativity) : py_scope.
Open Scope py_scope.

(* ================================================================== *)
(** * numpy and scikit-learn *)
(* ================================================================== *)

Module Np.

(** Insertion into a strictly increasing list. *)
Fixpoint insert_uniq (x : string) (l : list string) : list string :=
  match l with
  | [] => [x]
  | y :: rest =>
      match String.compare x y with
      | Lt => x :: l
      | Eq => l
      | Gt => y :: insert_uniq x rest
      end
  end.

(** [np.unique(a)]: the distinct values, sorted. *)
Definition unique (a : list string) : list string :=
  fold_right insert_uniq [] a.

(** [a == value], element by element. *)
Definition eq_mask (a : list string) (value : string) : list bool :=
  map (fun x => String.eqb x value) a.

Fixpoint select {A : Type} (a : list A) (mask : list bool) : list A :=
  match a, mask with
  | x :: a', b :: mask' => if b then x :: select a' mask' else select a' mask'
  | _, _ => []
  end.

(** [a[mask]] with a boolean mask: the lengths must agree. *)
Definition index {A : Type} (a : list A) (mask : list bool) : result (list A) :=
  if Nat.eqb (List.length a) (List.length mask)
  then Ok (select a mask)
  else Err (MaskLength (List.length a) (List.length mask)).

Definition Qsum (a : list Q) : Q := fold_right Qplus 0 a.

(** [a.mean()]: NaN on an empty array. *)
Definition mean (a : list Q) : pyfloat :=
  match a with
  | [] => NaN
  | _ => float_of_Q (Qsum a / inject_Z (Z.of_nat (List.length a)))
  end.

Definition mean_int (a : list Z) : pyfloat := mean (map inject_Z a).

End Np.

Module Sklearn.

Fixpoint insert_label (x : Z) (l : list Z) : list Z :=
  match l with
  | [] => [x]
  | y :: rest =>
      match Z.compare x y with
      | Lt => x :: l
      | Eq => l
      | Gt => y :: insert_label x rest
      end
  end.

(** [unique_labels(y_true, y_pred)]: the sorted labels seen in either. *)
Definition unique_labels (y_true y_pred : list Z) : list Z :=
  fold_right insert_label [] (y_true ++ y_pred)%list.

Definition count_pairs (y_true y_pred : list Z) (t p : Z) : Z :=
  Z.of_nat (List.length (filter (fun tp => Z.eqb (fst tp) t && Z.eqb (snd tp) p)
                           (combine y_true y_pred))).

(** [confusion_matrix(y_true, y_pred)] with no [labels] argument: one row and
    one column per label of [unique_labels], rows for the true label. *)
Definition confusion_matrix (y_true y_pred : list Z) : list (list Z) :=
  let labels := unique_labels y_true y_pred in
  map (fun t => map (fun p => count_pairs y_true y_pred t p) labels) labels.

(** [m.ravel()]: row after row. *)
Definition ravel (m : list (list Z)) : list Z := List.concat m.

End Sklearn.

(** [tn, fp, fn, tp = values]. *)
Definition unpack4 (values : list Z) : result (Z * Z * Z * Z) :=
  match values with
  | [a; b; c; d] => Ok (a, b, c, d)
  | _ => Err (Unpack 4 (List.length values))
  end.

(* ================================================================== *)
(** * fairness/metrics.py *)
(* ================================================================== *)

Module FairnessMetrics.

(** The fixed 5% threshold of every verdict. *)
Definition threshold : pyfloat := Fin (1 # 20).

(** [x / y if y > 0 else float('inf')] on floats. *)
Definition ratio_or_inf (x y : pyfloat) : pyfloat :=
  if pf_gt y (Fin 0) then pf_div x y else PInf.

Record dp_result : Type := {
  positive_rates : dict pyfloat;
  parity_ratio : pyfloat;
  dp_violation : pyfloat;
  dp_is_fair : bool
}.

Definition demographic_parity (y_pred : list Z) (protected_attr : list string)
  : result dp_result :=
  let groups := Np.unique protected_attr in
  positive_rates <-
    for_in groups
      (fun group positive_rates =>
         let group_mask := Np.eq_mask protected_attr group in
         sel <- Np.index y_pred group_mask ;;
         Ok (dict_set positive_rates group (Np.mean_int sel)))
      [] ;;
  let rates := dict_values positive_rates in
  max_rate <- py_max rates ;;
  min_rate <- py_min rates ;;
  Ok {| positive_rates := positive_rates;
        parity_ratio := ratio_or_inf max_rate min_rate;
        dp_violation := pf_sub max_rate min_rate;
        dp_is_fair := pf_lt (pf_sub max_rate min_rate) threshold |}.

(** [n / d if d > 0 else 0], then [float(...)]. *)
Definition rate (n d : Z) : pyfloat :=
  if Z.ltb 0 d then int_div n d else Fin 0.

Record group_metric : Type := {
  gm_tpr : pyfloat;
  gm_fpr : pyfloat;
  gm_tn : Z;
  gm_fp : Z;
  gm_fn : Z;
  gm_tp : Z
}.

Record eodds_result : Type := {
  group_metrics : dict group_metric;
  tpr_violation : pyfloat;
  fpr_violation : pyfloat;
  max_tpr_violation : pyfloat;
  max_fpr_violation : pyfloat;
  eodds_is_fair : bool
}.

Definition equalized_odds (y_true y_pred : list Z) (protected_attr : list string)
  : result eodds_result :=
  let groups := Np.unique protected_attr in
  group_metrics <-
    for_in groups
      (fun group group_metrics =>
         let group_mask := Np.eq_mask protected_attr group in
         group_y_true <- Np.index y_true group_mask ;;
         group_y_pred <- Np.index y_pred group_mask ;;
         cm <- unpack4 (Sklearn.ravel
                          (Sklearn.confusion_matrix group_y_true group_y_pred)) ;;
         let '(tn, fp, fn, tp) := cm in
         let tpr := rate tp (tp + fn) in
         let fpr := rate fp (fp + tn) in
         Ok (dict_set group_metrics group
               {| gm_tpr := tpr; gm_fpr := fpr;
                  gm_tn := tn; gm_fp := fp; gm_fn := fn; gm_tp := tp |}))
      [] ;;
  let tprs := map gm_tpr (dict_values group_metrics) in
  let fprs := map gm_fpr (dict_values group_metrics) in
  max_tpr <- py_max tprs ;;
  min_tpr <- py_min tprs ;;
  let tpr_violation := pf_sub max_tpr min_tpr in
  max_fpr <- py_max fprs ;;
  min_fpr <- py_min fprs ;;
  let fpr_violation := pf_sub max_fpr min_fpr in
  Ok {| group_metrics := group_metrics;
        tpr_violation := tpr_violation;
        fpr_violation := fpr_violation;
        max_tpr_violation := tpr_violation;
        max_fpr_violation := fpr_violation;
        eodds_is_fair :=
          pf_lt tpr_violation threshold && pf_lt fpr_violation threshold |}.

Record eopp_result : Type := {
  tprs : dict pyfloat;
  eopp_violation : pyfloat;
  eopp_is_fair : bool
}.

Definition equal_opportunity (y_true y_pred : list Z) (protected_attr : list string)
  : result eopp_result :=
  let groups := Np.unique protected_attr in
  tprs <-
    for_in groups
      (fun group tprs =>
         let group_mask := Np.eq_mask protected_attr group in
         group_y_true <- Np.index y_true group_mask ;;
         group_y_pred <- Np.index y_pred group_mask ;;
         cm <- unpack4 (Sklearn.ravel
                          (Sklearn.confusion_matrix group_y_true group_y_pred)) ;;
         let '(tn, fp, fn, tp) := cm in
         let tpr := rate tp (tp + fn) in
         Ok (dict_set tprs group tpr))
      [] ;;
  let rates := dict_values tprs in
  max_tpr <- py_max rates ;;
  min_tpr <- py_min rates ;;
  Ok {| tprs := tprs;
        eopp_violation := pf_sub max_tpr min_tpr;
        eopp_is_fair := pf_lt (pf_sub max_tpr min_tpr) threshold |}.

Record group_calibration_entry : Type := {
  expected_positive_rate : pyfloat;
  actual_positive_rate : pyfloat;
  calibration_error : pyfloat
}.

Record calibration_result : Type := {
  group_calibration : dict group_calibration_entry;
  max_calibration_error : pyfloat;
  is_calibrated : bool
}.

Definition calibration (y_true : list Z) (y_pred_proba : list Q)
    (protected_attr : list string) : result calibration_result :=
  let groups := Np.unique protected_attr in
  calibration_metrics <-
    for_in groups
      (fun group calibration_metrics =>
         let group_mask := Np.eq_mask protected_attr group in
         group_y_true <- Np.index y_true group_mask ;;
         group_proba <- Np.index y_pred_proba group_mask ;;
         let expected_rate := Np.mean group_proba in
         let actual_rate := Np.mean_int group_y_true in
         Ok (dict_set calibration_metrics group
               {| expected_positive_rate := expected_rate;
                  actual_positive_rate := actual_rate;
                  calibration_error := pf_abs (pf_sub expected_rate actual_rate) |}))
      [] ;;
  let errors := map calibration_error (dict_values calibration_metrics) in
  max_error <- py_max errors ;;
  Ok {| group_calibration := calibration_metrics;
        max_calibration_error := max_error;
        is_calibrated := pf_lt max_error threshold |}.

(** ** [evaluate] *)

(** The metrics computed when [metrics] is None. *)
Definition all_metrics : list string :=
  ["demographic_parity"; "equalized_odds"; "equal_opportunity"; "calibration"].

(** [name in metrics]. *)
Definition requested (metrics : list string) (name : string) : bool :=
  existsb (String.eqb name) metrics.

(** The dictionary [attr_results]: a key is present when its field is not
    None; the keys come in the order of the fields. *)
Record attr_results : Type := {
  res_demographic_parity : option dp_result;
  res_equalized_odds : option eodds_result;
  res_equal_opportunity : option eopp_result;
  res_calibration : option calibration_result
}.

(** [if name in metrics: attr_results[name] = call]. *)
Definition when_requested {A : Type} (metrics : list string) (name : string)
    (call : result A) : result (option A) :=
  if requested metrics name then (r <- call ;; Ok (Some r)) else Ok None.

(** The body of the loop over [protected_dict.items()].  The calibration
    calculator receives [y_pred] itself as its probabilities. *)
Definition evaluate_attribute (y_true y_pred : list Z) (metrics : list string)
    (attr_values : list string) : result attr_results :=
  dp <- when_requested metrics "demographic_parity"
          (demographic_parity y_pred attr_values) ;;
  eodds <- when_requested metrics "equalized_odds"
             (equalized_odds y_true y_pred attr_values) ;;
  eopp <- when_requested metrics "equal_opportunity"
            (equal_opportunity y_true y_pred attr_values) ;;
  cal <- when_requested metrics "calibration"
           (calibration y_true (map inject_Z y_pred) attr_values) ;;
  Ok {| res_demographic_parity := dp;
        res_equalized_odds := eodds;
        res_equal_opportunity := eopp;
        res_calibration := cal |}.

Definition evaluate_step (y_true y_pred : list Z) (metrics : list string)
    (item : string * list string) (results : dict attr_results)
  : result (dict attr_results) :=
  let '(attr_name, attr_values) := item in
  attr_results <- evaluate_attribute y_true y_pred metrics attr_values ;;
  Ok (dict_set results attr_name attr_results).

(** [evaluate(y_true, y_pred, protected_attributes, metrics)] with the
    protected attributes given as a dictionary of arrays. *)
Definition evaluate (y_true y_pred : list Z)
    (protected_attributes : dict (list string)) (metrics : option (list string))
  : result (dict attr_results) :=
  let metrics :=
    match metrics with
    | None => all_metrics
    | Some m => m
    end in
  for_in protected_attributes (evaluate_step y_true y_pred metrics) [].

End FairnessMetrics.

Import FairnessMetrics.

(* ================================================================== *)
(** * pandas *)
(* ================================================================== *)

Module Pandas.

(** Integer dtypes.  numpy equates Python's [int] with [int64]; a narrower
    integer dtype such as [int32] is equal to neither [int] nor [float]. *)
Inductive dtype : Type :=
| int64
| int32.

Inductive column : Type :=
| StrCol (cells : list string)
| IntCol (dt : dtype) (cells : list Z).

(** A frame: its number of rows and its named columns.  In a frame built by
    pandas the names are distinct and every column is [n_rows] long; a lemma
    that needs two columns to be equally long says so. *)
Record DataFrame : Type := {
  n_rows : nat;
  columns : list (string * column)
}.

(** [name in data.columns]. *)
Definition has_column (data : DataFrame) (name : string) : bool :=
  existsb (String.eqb name) (map fst (columns data)).

(** [data[name]]. *)
Definition get_column (data : DataFrame) (name : string) : result column :=
  match dict_get (columns data) name with
  | Some c => Ok c
  | None => Err (MissingColumn name)
  end.

(** The cells of a column as group values.  The integers of an [IntCol] are
    rendered by [str], as the keys of [label_bias] are; [str] is injective on
    integers, so the groups are those of the integers themselves. *)
Definition group_values (c : column) : list string :=
  match c with
  | StrCol cells => cells
  | IntCol _ cells => map str_of_int cells
  end.

(** [s.unique()]: the distinct values in order of first appearance. *)
Fixpoint unique (s : list string) : list string :=
  match s with
  | [] => []
  | x :: rest => x :: filter (fun y => negb (String.eqb x y)) (unique rest)
  end.

Definition count (s : list string) (v : string) : nat :=
  List.length (filter (String.eqb v) s).

(** Insertion keeping the counts in decreasing order; an item goes before the
    items of equal count met so far. *)
Fixpoint insert_desc (x : string * nat) (l : list (string * nat))
  : list (string * nat) :=
  match l with
  | [] => [x]
  | y :: rest =>
      if Nat.ltb (snd x) (snd y) then y :: insert_desc x rest else x :: l
  end.

Definition sort_desc (l : list (string * nat)) : list (string * nat) :=
  fold_right insert_desc [] l.

(** [s.value_counts()]: each distinct value with its number of rows, most
    frequent first, equal counts in order of first appearance. *)
Definition value_counts (s : list string) : list (string * nat) :=
  sort_desc (map (fun v => (v, count s v)) (unique s)).

Definition is_nan (x : pyfloat) : bool :=
  match x with
  | NaN => true
  | _ => false
  end.

(** [s.max()] and [s.min()]: NaN entries are skipped, an empty series gives
    NaN. *)
Definition series_max (s : list pyfloat) : pyfloat :=
  match filter (fun x => negb (is_nan x)) s with
  | [] => NaN
  | x :: rest => fold_left (fun m y => if pf_gt y m then y else m) rest x
  end.

Definition series_min (s : list pyfloat) : pyfloat :=
  match filter (fun x => negb (is_nan x)) s with
  | [] => NaN
  | x :: rest => fold_left (fun m y => if pf_lt y m then y else m) rest x
  end.

(** [counts / total], element by element. *)
Definition div_scalar (counts : list nat) (total : nat) : list pyfloat :=
  map (fun c => pf_div (Fin (inject_Z (Z.of_nat c))) (Fin (inject_Z (Z.of_nat total))))
      counts.

End Pandas.

Import Pandas.

(* ================================================================== *)
(** * bias/detector.py *)
(* ================================================================== *)

Module BiasDetector.

Record representation_bias : Type := {
  max_proportion : pyfloat;
  min_proportion : pyfloat;
  disparity_ratio : pyfloat;
  is_balanced : bool
}.

(** A value of the [label_bias] dictionary: the entry of a group, or the
    entry stored under the key ["disparity"]. *)
Inductive label_bias_value : Type :=
| LBGroup (group_size : nat) (positive_rate mean_target : option pyfloat)
| LBDisparity (max_rate min_rate ratio : pyfloat).

Record attribute_analysis : Type := {
  attribute : string;
  group_distribution : dict pyfloat;
  group_counts : dict nat;
  rep_bias : representation_bias;
  label_bias : option (dict label_bias_value)
}.

Record report : Type := {
  dataset_size : nat;
  protected_attributes : list string;
  bias_metrics : dict attribute_analysis;
  recommendations : list string
}.

(** The detector object: its only attribute is the history of reports. *)
Record detector : Type := {
  bias_reports : list report
}.

(** [BiasDetector()]. *)
Definition init : detector := {| bias_reports := [] |}.

Definition _calculate_representation_bias
    (value_counts : list (string * nat)) (total : nat) : representation_bias :=
  let proportions := div_scalar (map snd value_counts) total in
  let max_prop := series_max proportions in
  let min_prop := series_min proportions in
  {| max_proportion := max_prop;
     min_proportion := min_prop;
     disparity_ratio :=
       if pf_gt min_prop (Fin 0) then pf_div max_prop min_prop else PInf;
     is_balanced :=
       if pf_gt min_prop (Fin 0)
       then pf_lt (pf_div max_prop min_prop) (Fin (3 # 2))
       else false |}.

(** Truth value of a float: only zero is false. *)
Definition truthy (x : pyfloat) : bool :=
  match x with
  | Fin q => negb (Qeq_bool q 0)
  | _ => true
  end.

(** [a or b] where each side is a float or [None]. *)
Definition py_or (a b : option pyfloat) : option pyfloat :=
  match a with
  | Some x => if truthy x then Some x else b
  | None => b
  end.

(** [v.get("positive_rate") or v.get("mean_target", 0)]. *)
Definition rate_of (v : label_bias_value) : option pyfloat :=
  match v with
  | LBGroup _ positive_rate mean_target => py_or positive_rate mean_target
  | LBDisparity _ _ _ => py_or None (Some (Fin 0))
  end.

Fixpoint drop_none (l : list (option pyfloat)) : list pyfloat :=
  match l with
  | [] => []
  | Some r :: rest => r :: drop_none rest
  | None :: rest => drop_none rest
  end.

(** The entry of one group: [positive_rate] when the target's dtype is [int]
    or [float], [mean_target] otherwise. *)
Definition group_entry (target : column) (group_mask : list bool)
  : result label_bias_value :=
  let group_size := List.length (filter (fun b => b) group_mask) in
  match target with
  | IntCol int64 cells =>
      let sel := Np.select cells group_mask in
      Ok (LBGroup group_size
            (Some (Np.mean (map (fun v => if Z.eqb v 1 then 1 else 0) sel)))
            None)
  | IntCol int32 cells =>
      Ok (LBGroup group_size None (Some (Np.mean_int (Np.select cells group_mask))))
  | StrCol _ => Err NotNumeric
  end.

(** One pass of the loop over [data[attribute].unique()]. *)
Definition label_bias_step (data : DataFrame) (values : list string)
    (target_column : string) (group_value : string)
    (label_bias : dict label_bias_value) : result (dict label_bias_value) :=
  let group_mask := Np.eq_mask values group_value in
  if Nat.ltb 0 (List.length (filter (fun b => b) group_mask))
  then
    target <- get_column data target_column ;;
    entry <- group_entry target group_mask ;;
    Ok (dict_set label_bias group_value entry)
  else Ok label_bias.

(** The [# Calculate disparity] block that follows the loop. *)
Definition add_disparity (label_bias : dict label_bias_value)
  : result (dict label_bias_value) :=
  match label_bias with
  | [] => Ok label_bias
  | _ =>
      let rates := drop_none (map rate_of (dict_values label_bias)) in
      match rates with
      | [] => Ok label_bias
      | _ =>
          max_rate <- py_max rates ;;
          min_rate <- py_min rates ;;
          Ok (dict_set label_bias "disparity"
                (LBDisparity max_rate min_rate
                   (if pf_gt min_rate (Fin 0)
                    then pf_div max_rate min_rate else PInf)))
      end
  end.

Definition _calculate_label_bias
    (data : DataFrame) (attribute target_column : string)
  : result (dict label_bias_value) :=
  attr_col <- get_column data attribute ;;
  let values := group_values attr_col in
  label_bias <-
    for_in (unique values) (label_bias_step data values target_column) [] ;;
  add_disparity label_bias.

(** [if target_column and target_column in data.columns]. *)
Definition wants_label_bias (data : DataFrame) (target_column : option string)
  : option string :=
  match target_column with
  | Some t =>
      if String.eqb t "" then None
      else if has_column data t then Some t else None
  | None => None
  end.

Definition _analyze_attribute
    (data : DataFrame) (attribute : string) (target_column : option string)
  : result attribute_analysis :=
  col <- get_column data attribute ;;
  let value_counts := value_counts (group_values col) in
  let total := n_rows data in
  let distribution :=
    combine (map fst value_counts) (div_scalar (map snd value_counts) total) in
  let rb := _calculate_representation_bias value_counts total in
  match wants_label_bias data target_column with
  | Some t =>
      lb <- _calculate_label_bias data attribute t ;;
      Ok {| attribute := attribute;
            group_distribution := distribution;
            group_counts := value_counts;
            rep_bias := rb;
            label_bias := Some lb |}
  | None =>
      Ok {| attribute := attribute;
            group_distribution := distribution;
            group_counts := value_counts;
            rep_bias := rb;
            label_bias := None |}
  end.

Definition representation_message (attr : string) : string :=
  "High representation disparity detected in '" ++ attr ++
  "'. Consider data collection strategies to improve balance.".

Definition label_message (attr : string) : string :=
  "Label bias detected in '" ++ attr ++
  "'. Review labeling process and consider fairness constraints.".

Definition default_message : string :=
  "No significant bias detected. Continue monitoring.".

(** [disparity.get("disparity_ratio", 1)] on the value under ["disparity"]. *)
Definition get_disparity_ratio (v : label_bias_value) : pyfloat :=
  match v with
  | LBDisparity _ _ ratio => ratio
  | LBGroup _ _ _ => Fin 1
  end.

(** One pass of the loop over [bias_metrics.items()]. *)
Definition recommendation_step (recommendations : list string)
    (item : string * attribute_analysis) : list string :=
  let '(attr, metrics) := item in
  let recommendations :=
    if pf_gt (disparity_ratio (rep_bias metrics)) (Fin 2)
    then (recommendations ++ [representation_message attr])%list
    else recommendations in
  match label_bias metrics with
  | Some lb =>
      match dict_get lb "disparity" with
      | Some disparity =>
          if pf_gt (get_disparity_ratio disparity) (Fin (3 # 2))
          then (recommendations ++ [label_message attr])%list
          else recommendations
      | None => recommendations
      end
  | None => recommendations
  end.

Definition _generate_recommendations (bias_metrics : dict attribute_analysis)
  : list string :=
  let recommendations := fold_left recommendation_step bias_metrics [] in
  match recommendations with
  | [] => [default_message]
  | _ => recommendations
  end.

Definition empty_message : string := "protected_attributes cannot be empty".

Definition not_found_message (attr : string) : string :=
  "Protected attribute '" ++ attr ++ "' not found in dataset".

(** One pass of the loop over [protected_attributes]. *)
Definition analyze_step (data : DataFrame) (target_column : option string)
    (attr : string) (bias_metrics : dict attribute_analysis)
  : result (dict attribute_analysis) :=
  if negb (has_column data attr)
  then Err (Raise ValueError (not_found_message attr))
  else
    attr_report <- _analyze_attribute data attr target_column ;;
    Ok (dict_set bias_metrics attr attr_report).

(** [analyze(self, data, protected_attributes, target_column)]: the outcome
    and the detector afterwards.  The [isinstance] test on [data] is settled
    by the type of [data]; [sensitive_groups] is never read. *)
Definition analyze (self : detector) (data : DataFrame)
    (protected_attributes : list string) (target_column : option string)
  : result report * detector :=
  match protected_attributes with
  | [] => (Err (Raise ValueError empty_message), self)
  | _ =>
      match for_in protected_attributes (analyze_step data target_column) [] with
      | Err e => (Err e, self)
      | Ok bias_metrics =>
          let report :=
            {| dataset_size := n_rows data;
               protected_attributes := protected_attributes;
               bias_metrics := bias_metrics;
               recommendations := _generate_recommendations bias_metrics |} in
          (Ok report, {| bias_reports := (bias_reports self ++ [report])%list |})
      end
  end.

(** ** [detect_model_bias] *)

Record group_perf : Type := {
  gp_size : nat;
  gp_accuracy : pyfloat;
  gp_positive_prediction_rate : option pyfloat
}.

Record model_bias_report : Type := {
  model_predictions : list Z;
  mb_protected_attributes : list string;
  group_performance : dict (dict group_perf)
}.

(** [np.unique] on an array of integers. *)
Definition unique_int (a : list Z) : list Z :=
  fold_right Sklearn.insert_label [] a.

(** [(a == b).mean()], position by position. *)
Definition agreement (a b : list Z) : pyfloat :=
  Np.mean (map (fun ab => if Z.eqb (fst ab) (snd ab) then 1 else 0) (combine a b)).

(** The entry of one group. *)
Definition group_perf_entry (group_mask : list bool)
    (group_pred group_true : list Z) : group_perf :=
  {| gp_size := List.length (filter (fun b => b) group_mask);
     gp_accuracy := agreement group_pred group_true;
     gp_positive_prediction_rate :=
       if Nat.ltb 1 (List.length (unique_int group_pred))
       then Some (Np.mean (map (fun v => if Z.eqb v 1 then 1 else 0) group_pred))
       else None |}.

(** One pass of the loop over [X[attr].unique()].  [y] is taken to be a
    Series on the index of [X], with one label per prediction: then
    [y[group_mask]] is the selection of the group's rows and the comparison
    with the group's predictions is position by position.  For a [y] of
    another length the code raises and this definition does not say so; the
    theorems on [detect_model_bias] assume the lengths equal. *)
Definition group_perf_step (values : list string) (predictions y : list Z)
    (group_value : string) (perf : dict group_perf)
  : result (dict group_perf) :=
  let group_mask := Np.eq_mask values group_value in
  group_pred <- Np.index predictions group_mask ;;
  let group_true := Np.select y group_mask in
  if Nat.ltb 0 (List.length group_pred)
  then Ok (dict_set perf group_value
             (group_perf_entry group_mask group_pred group_true))
  else Ok perf.

(** One pass of the loop over [protected_attributes]; an attribute that is
    not a column is passed over. *)
Definition model_bias_step (X : DataFrame) (predictions y : list Z)
    (attr : string) (performance : dict (dict group_perf))
  : result (dict (dict group_perf)) :=
  if negb (has_column X attr) then Ok performance
  else
    col <- get_column X attr ;;
    let values := group_values col in
    perf <-
      for_in (unique values) (group_perf_step values predictions y) [] ;;
    Ok (dict_set performance attr perf).

(** [detect_model_bias(model, X, y, protected_attributes)]; the model is its
    [predict] method. *)
Definition detect_model_bias (predict : DataFrame -> result (list Z))
    (X : DataFrame) (y : list Z) (protected_attributes : list string)
  : result model_bias_report :=
  predictions <- predict X ;;
  performance <-
    for_in protected_attributes (model_bias_step X predictions y) [] ;;
  Ok {| model_predictions := predictions;
        mb_protected_attributes := protected_attributes;
        group_performance := performance |}.

End BiasDetector.

Import BiasDetector.

(* ================================================================== *)
(** * The calculators seen together *)
(* ================================================================== *)

(** A call of one of the four calculators of [FairnessMetrics]. *)
Inductive metric_call : Type :=
| DemographicParity (y_pred : list Z) (protected_attr : list string)
| EqualizedOdds (y_true y_pred : list Z) (protected_attr : list string)
| EqualOpportunity (y_true y_pred : list Z) (protected_attr : list string)
| Calibration (y_true : list Z) (y_pred_proba : list Q) (protected_attr : list string).

Definition protected_attr_of (c : metric_call) : list string :=
  match c with
  | DemographicParity _ a => a
  | EqualizedOdds _ _ a => a
  | EqualOpportunity _ _ a => a
  | Calibration _ _ a => a
  end.

(** Every per-sample vector of the call is as long as the attribute vector. *)
Definition aligned (c : metric_call) : Prop :=
  match c with
  | DemographicParity p a => List.length p = List.length a
  | EqualizedOdds t p a =>
      List.length t = List.length a /\ List.length p = List.length a
  | EqualOpportunity t p a =>
      List.length t = List.length a /\ List.length p = List.length a
  | Calibration t p a =>
      List.length t = List.length a /\ List.length p = List.length a
  end.

(** The violation scores of a call's result, each with the per-group rates
    it is the spread of.  Calibration reports a largest error, no spread. *)
Definition violations (c : metric_call) : result (list (list pyfloat * pyfloat)) :=
  match c with
  | DemographicParity p a =>
      r <- demographic_parity p a ;;
      Ok [(dict_values (positive_rates r), dp_violation r)]
  | EqualizedOdds t p a =>
      r <- equalized_odds t p a ;;
      Ok [(map gm_tpr (dict_values (group_metrics r)), tpr_violation r);
          (map gm_fpr (dict_values (group_metrics r)), fpr_violation r)]
  | EqualOpportunity t p a =>
      r <- equal_opportunity t p a ;;
      Ok [(dict_values (tprs r), eopp_violation r)]
  | Calibration t p a =>
      r <- calibration t p a ;;
      Ok []
  end.

(** The exception a call ends with, if any. *)
Definition raised {A : Type} (r : result A) : option exn :=
  match r with
  | Ok _ => None
  | Err e => Some e
  end.

Definition failure (c : metric_call) : option exn :=
  match c with
  | DemographicParity p a => raised (demographic_parity p a)
  | EqualizedOdds t p a => raised (equalized_odds t p a)
  | EqualOpportunity t p a => raised (equal_opportunity t p a)
  | Calibration t p a => raised (calibration t p a)
  end.

(** All the rates of a list are equal as floats. *)
Definition identical_rates (rates : list pyfloat) : Prop :=
  forall x y, In x rates -> In y rates -> pf_eqb x y = true.

Definition is_fin (x : pyfloat) : Prop := exists q, x = Fin q.

(** [M] is the largest, [m] the smallest, of a list of rates. *)
Definition largest (rates : list pyfloat) (M : Q) : Prop :=
  In (Fin M) rates /\ forall q, In (Fin q) rates -> q <= M.

Definition smallest (rates : list pyfloat) (m : Q) : Prop :=
  In (Fin m) rates /\ forall q, In (Fin q) rates -> m <= q.

(** ** Frames used as examples *)

(** Ninety rows of group "A" and ten of group "B". *)
Definition skewed_frame : DataFrame :=
  {| n_rows := 100;
     columns := [("group", StrCol (repeat "A" 90 ++ repeat "B" 10)%list)] |}.

Definition rename_AB (v : string) : string :=
  if String.eqb v "A" then "x" else if String.eqb v "B" then "y" else v.

Definition renamed_frame : DataFrame :=
  {| n_rows := 100;
     columns := [("group", StrCol (repeat "x" 90 ++ repeat "y" 10)%list)] |}.

(** Four rows, two groups; no row of group "A" has the label 1. *)
Definition zero_rate_frame : DataFrame :=
  {| n_rows := 4;
     columns := [("g", StrCol ["A"; "A"; "B"; "B"]);
                 ("t", IntCol int64 [0; 0; 1; 0]%Z)] |}.

(** The same groups with a target column of strings. *)
Definition string_target_frame : DataFrame :=
  {| n_rows := 4;
     columns := [("g", StrCol ["A"; "A"; "B"; "B"]);
                 ("s", StrCol ["yes"; "no"; "yes"; "no"])] |}.

(** The frame of [test_analyze_basic]. *)
Definition gender_frame : DataFrame :=
  {| n_rows := 5;
     columns := [("feature1", IntCol int64 [1; 2; 3; 4; 5]%Z);
                 ("gender", StrCol ["M"; "M"; "F"; "F"; "M"]);
                 ("target", IntCol int64 [0; 1; 0; 1; 0]%Z)] |}.

(** [AttributeNotFound] as the repository signals it: the ValueError of
    [analyze] that names the absent attribute. *)
Definition AttributeNotFound (e : exn) : Prop :=
  exists attr, e = Raise ValueError (not_found_message attr).

(** ** Predicates used by the statements *)

Definition fin_metric (m : group_metric) : Prop :=
  is_fin (gm_tpr m) /\ is_fin (gm_fpr m).

(** [InvalidInput] as the repository signals it: the one validation error
    that it raises for an unusable argument is a [ValueError]
    (detector.py, [analyze]). *)
Definition InvalidInput (e : exn) : Prop := class_of e = ValueError.

Definition injective_on (f : string -> string) (s : list string) : Prop :=
  forall x y, In x s -> In y s -> f x = f y -> x = y.

(** Renaming of the keys of a list of counts. *)
Definition rename_key (f : string -> string) (p : string * nat) : string * nat :=
  (f (fst p), snd p).

(** The label analysis has a numeric target to work on, when it runs. *)
Definition numeric_target (data : DataFrame) (target : option string) : Prop :=
  forall t cells,
    wants_label_bias data target = Some t ->
    get_column data t <> Ok (StrCol cells).

(** "representation disparity ratio > 2.0". *)
Definition representation_rule (m : attribute_analysis) : bool :=
  pf_gt (disparity_ratio (rep_bias m)) (Fin 2).

(** The label disparity ratio of an attribute, when its analysis has one. *)
Definition label_disparity_ratio (m : attribute_analysis) : option pyfloat :=
  match label_bias m with
  | Some lb =>
      match dict_get lb "disparity" with
      | Some (LBDisparity _ _ ratio) => Some ratio
      | _ => None
      end
  | None => None
  end.

(** "label disparity ratio > 1.5". *)
Definition label_rule (m : attribute_analysis) : bool :=
  match label_disparity_ratio m with
  | Some ratio => pf_gt ratio (Fin (3 # 2))
  | None => false
  end.

(** The messages of one attribute, representation rule first. *)
Definition messages_for (item : string * attribute_analysis) : list string :=
  ((if representation_rule (snd item)
    then [representation_message (fst item)] else []) ++
   (if label_rule (snd item) then [label_message (fst item)] else []))%list.

(** The matched messages, attribute after attribute. *)
Definition matched_messages (bias_metrics : dict attribute_analysis) : list string :=
  flat_map messages_for bias_metrics.

(** The entry of a group analysed against an int64 target: a positive rate
    that is a finite number, not negative, and no mean. *)
Definition good_entry (v : label_bias_value) : Prop :=
  exists n q, v = LBGroup n (Some (Fin q)) None /\ 0 <= q.

(** Two groups with an [int32] target; the target of group "b" is all zero. *)
Definition int32_frame : DataFrame :=
  {| n_rows := 4;
     columns := [("g", StrCol ["a"; "a"; "b"; "b"]);
                 ("y", IntCol int32 [1; 1; 0; 0]%Z)] |}.

(** Three rows of group "a" and one of group "b". *)
Definition three_to_one_frame : DataFrame :=
  {| n_rows := 4; columns := [("g", StrCol ["a"; "a"; "a"; "b"])] |}.

(** ** Predicates used by the further properties *)

(** Strictly increasing in the order of [String.compare]. *)
Definition increasing (l : list string) : Prop :=
  StronglySorted (fun x y => String.compare x y = Lt) l.

(** The equal-opportunity reading of an equalized-odds result: the TPR of
    every group, the TPR violation, and its verdict. *)
Definition eopp_of_eodds (r : eodds_result) : eopp_result :=
  {| tprs := map (fun km => (fst km, gm_tpr (snd km))) (group_metrics r);
     eopp_violation := tpr_violation r;
     eopp_is_fair := pf_lt (tpr_violation r) threshold |}.

(** The number of samples of a group. *)
Definition group_size (protected_attr : list string) (g : string) : nat :=
  List.length (filter (fun b => b) (Np.eq_mask protected_attr g)).

(** The four counts of a group, added up. *)
Definition metric_total (m : group_metric) : Z :=
  (gm_tn m + gm_fp m + gm_fn m + gm_tp m)%Z.

Definition unit_interval (x : pyfloat) : Prop :=
  exists q, x = Fin q /\ 0 <= q /\ q <= 1.

(** What the loop of [equalized_odds] stores for one group. *)
Definition group_metric_for (y_true y_pred : list Z) (protected_attr : list string)
    (group : string) : result group_metric :=
  group_y_true <- Np.index y_true (Np.eq_mask protected_attr group) ;;
  group_y_pred <- Np.index y_pred (Np.eq_mask protected_attr group) ;;
  cm <- unpack4 (Sklearn.ravel
                   (Sklearn.confusion_matrix group_y_true group_y_pred)) ;;
  let '(tn, fp, fn, tp) := cm in
  Ok {| gm_tpr := rate tp (tp + fn); gm_fpr := rate fp (fp + tn);
        gm_tn := tn; gm_fp := fp; gm_fn := fn; gm_tp := tp |}.

(** What the loop of [demographic_parity] stores for one group. *)
Definition positive_rate_for (y_pred : list Z) (protected_attr : list string)
    (group : string) : result pyfloat :=
  sel <- Np.index y_pred (Np.eq_mask protected_attr group) ;;
  Ok (Np.mean_int sel).

(** What the loop of [calibration] stores for one group. *)
Definition calibration_for (y_true : list Z) (y_pred_proba : list Q)
    (protected_attr : list string) (group : string)
  : result group_calibration_entry :=
  group_y_true <- Np.index y_true (Np.eq_mask protected_attr group) ;;
  group_proba <- Np.index y_pred_proba (Np.eq_mask protected_attr group) ;;
  Ok {| expected_positive_rate := Np.mean group_proba;
        actual_positive_rate := Np.mean_int group_y_true;
        calibration_error :=
          pf_abs (pf_sub (Np.mean group_proba) (Np.mean_int group_y_true)) |}.

Definition Zsum (l : list Z) : Z := fold_right Z.add 0%Z l.

(** The empty dictionary of results of one attribute. *)
Definition no_results : attr_results :=
  {| res_demographic_parity := None;
     res_equalized_odds := None;
     res_equal_opportunity := None;
     res_calibration := None |}.

(** Counts in decreasing order. *)
Definition decreasing_counts (l : list (string * nat)) : Prop :=
  StronglySorted (fun x y => (snd y <= snd x)%nat) l.

(** A run of calls of [analyze] on one detector: the outcomes in order and
    the detector at the end. *)
Fixpoint run_analyses (self : detector)
    (calls : list (DataFrame * list string * option string))
  : list (result report) * detector :=
  match calls with
  | [] => ([], self)
  | (data, attrs, target) :: rest =>
      let '(outcome, self') := analyze self data attrs target in
      let '(outcomes, self'') := run_analyses self' rest in
      (outcome :: outcomes, self'')
  end.

(** The reports among a list of outcomes. *)
Fixpoint returned (outcomes : list (result report)) : list report :=
  match outcomes with
  | [] => []
  | Ok r :: rest => r :: returned rest
  | Err _ :: rest => returned rest
  end.

(* ================================================================== *)
(** * Lemmas on the runtime *)
(* ================================================================== *)

Lemma Qlt_bool_iff (x y : Q) : Qlt_bool x y = true <-> x < y.
Proof.
  unfold Qlt_bool. rewrite negb_true_iff.
  split; intro H.
  - apply Qnot_le_lt. intro Hle. apply Qle_bool_iff in Hle. congruence.
  - destruct (Qle_bool y x) eqn:E; [|reflexivity].
    apply Qle_bool_iff in E. exfalso. apply (Qlt_not_le _ _ H E).
Qed.

Lemma Qlt_bool_false (x y : Q) : Qlt_bool x y = false <-> y <= x.
Proof.
  unfold Qlt_bool. rewrite negb_false_iff. apply Qle_bool_iff.
Qed.

Lemma bind_ok {A B : Type} (c : result A) (k : A -> result B) (b : B) :
  bind c k = Ok b -> exists a, c = Ok a /\ k a = Ok b.
Proof.
  destruct c as [a|e]; simpl; intro H; [eauto | discriminate].
Qed.

Lemma bind_err {A B : Type} (c : result A) (k : A -> result B) (e : exn) :
  bind c k = Err e -> c = Err e \/ exists a, c = Ok a /\ k a = Err e.
Proof.
  destruct c as [a|e']; simpl; intro H; [right; eauto | left; congruence].
Qed.

Section ForIn.
Context {A S : Type}.
Variable body : A -> S -> result S.

Lemma for_in_app (xs ys : list A) (s : S) :
  for_in (xs ++ ys) body s = bind (for_in xs body s) (for_in ys body).
Proof.
  revert s. induction xs as [|x xs IH]; intro s; simpl; [reflexivity|].
  destruct (body x s) as [s'|e]; simpl; [apply IH | reflexivity].
Qed.

(** A property of the loop state kept by every iteration that completes
    holds when the loop completes. *)
Lemma for_in_invariant (P : S -> Prop) (xs : list A) :
  (forall x s s', In x xs -> P s -> body x s = Ok s' -> P s') ->
  forall s s', P s -> for_in xs body s = Ok s' -> P s'.
Proof.
  induction xs as [|x xs IH]; intros Hstep s s' Hs Hrun; simpl in Hrun.
  - injection Hrun as <-. exact Hs.
  - apply bind_ok in Hrun as (s1 & Hb & Hrest).
    apply (IH (fun y t t' Hy => Hstep y t t' (or_intror Hy)) s1 s');
      [|exact Hrest].
    apply (Hstep x s s1); [left; reflexivity | exact Hs | exact Hb].
Qed.

(** If no iteration can fail from a state satisfying the invariant, the
    loop completes. *)
Lemma for_in_total (P : S -> Prop) (xs : list A) :
  (forall x s, In x xs -> P s -> exists s', body x s = Ok s' /\ P s') ->
  forall s, P s -> exists s', for_in xs body s = Ok s' /\ P s'.
Proof.
  induction xs as [|x xs IH]; intros Hstep s Hs; simpl.
  - exists s. split; [reflexivity | exact Hs].
  - destruct (Hstep x s (or_introl eq_refl) Hs) as (s1 & Hb & Hs1).
    rewrite Hb. simpl.
    apply IH; [|exact Hs1].
    intros y t Hy. apply Hstep. right. exact Hy.
Qed.

(** An exception of the loop is the exception of one of its iterations. *)
Lemma for_in_err (P : S -> Prop) (xs : list A) :
  (forall x s s', In x xs -> P s -> body x s = Ok s' -> P s') ->
  forall s e, P s -> for_in xs body s = Err e ->
  exists x s0, In x xs /\ P s0 /\ body x s0 = Err e.
Proof.
  induction xs as [|x xs IH]; intros Hstep s e Hs Hrun; simpl in Hrun.
  - discriminate.
  - apply bind_err in Hrun as [Hb | (s1 & Hb & Hrest)].
    + exists x, s. split; [left; reflexivity | split; assumption].
    + destruct (IH (fun y t t' Hy => Hstep y t t' (or_intror Hy)) s1 e)
        as (y & s0 & Hy & Hs0 & Hy0).
      * apply (Hstep x s s1); [left; reflexivity | exact Hs | exact Hb].
      * exact Hrest.
      * exists y, s0. split; [right; exact Hy | split; assumption].
Qed.
End ForIn.

(** ** Dictionaries *)

Lemma dict_set_not_nil {V : Type} (d : dict V) (k : string) (v : V) :
  dict_set d k v <> [].
Proof.
  destruct d as [|[k' v'] d]; simpl; [discriminate|].
  destruct (String.eqb k' k); discriminate.
Qed.

Lemma dict_set_values {V : Type} (P : V -> Prop) (d : dict V) (k : string) (v : V) :
  Forall P (dict_values d) -> P v -> Forall P (dict_values (dict_set d k v)).
Proof.
  unfold dict_values. induction d as [|[k' v'] d IH]; simpl; intros Hd Hv.
  - constructor; [exact Hv | constructor].
  - inversion Hd as [|? ? Hv' Hd']; subst.
    destruct (String.eqb k' k); simpl; constructor; auto.
Qed.

(** ** Largest and smallest of finite floats *)

Lemma fold_max_fin (l : list pyfloat) (x : Q) :
  Forall is_fin l ->
  exists M, fold_left (fun m y => if pf_gt y m then y else m) l (Fin x) = Fin M /\
            In (Fin M) (Fin x :: l) /\
            forall q, In (Fin q) (Fin x :: l) -> q <= M.
Proof.
  revert x. induction l as [|y l IH]; intros x Hl; simpl.
  - exists x. split; [reflexivity|]. split; [left; reflexivity|].
    intros q [H|[]]. injection H as <-. apply Qle_refl.
  - inversion Hl as [|? ? [qy ->] Hl']; subst.
    unfold pf_gt at 1. simpl pf_lt.
    destruct (Qlt_bool x qy) eqn:E.
    + apply Qlt_bool_iff in E.
      destruct (IH qy Hl') as (M & HM & Hin & Hub).
      exists M. split; [exact HM|]. split.
      * destruct Hin as [H|H]; [right; left; exact H | right; right; exact H].
      * intros q [H|[H|H]].
        -- injection H as <-. apply Qle_trans with qy; [apply Qlt_le_weak; exact E|].
           apply Hub. left. reflexivity.
        -- apply Hub. left. exact H.
        -- apply Hub. right. exact H.
    + apply Qlt_bool_false in E.
      destruct (IH x Hl') as (M & HM & Hin & Hub).
      exists M. split; [exact HM|]. split.
      * destruct Hin as [H|H]; [left; exact H | right; right; exact H].
      * intros q [H|[H|H]].
        -- apply Hub. left. exact H.
        -- injection H as <-. apply Qle_trans with x; [exact E|].
           apply Hub. left. reflexivity.
        -- apply Hub. right. exact H.
Qed.

Lemma fold_min_fin (l : list pyfloat) (x : Q) :
  Forall is_fin l ->
  exists m, fold_left (fun m y => if pf_lt y m then y else m) l (Fin x) = Fin m /\
            In (Fin m) (Fin x :: l) /\
            forall q, In (Fin q) (Fin x :: l) -> m <= q.
Proof.
  revert x. induction l as [|y l IH]; intros x Hl; simpl.
  - exists x. split; [reflexivity|]. split; [left; reflexivity|].
    intros q [H|[]]. injection H as <-. apply Qle_refl.
  - inversion Hl as [|? ? [qy ->] Hl']; subst.
    simpl pf_lt.
    destruct (Qlt_bool qy x) eqn:E.
    + apply Qlt_bool_iff in E.
      destruct (IH qy Hl') as (M & HM & Hin & Hub).
      exists M. split; [exact HM|]. split.
      * destruct Hin as [H|H]; [right; left; exact H | right; right; exact H].
      * intros q [H|[H|H]].
        -- injection H as <-. apply Qle_trans with qy; [|apply Qlt_le_weak; exact E].
           apply Hub. left. reflexivity.
        -- apply Hub. left. exact H.
        -- apply Hub. right. exact H.
    + apply Qlt_bool_false in E.
      destruct (IH x Hl') as (M & HM & Hin & Hub).
      exists M. split; [exact HM|]. split.
      * destruct Hin as [H|H]; [left; exact H | right; right; exact H].
      * intros q [H|[H|H]].
        -- apply Hub. left. exact H.
        -- injection H as <-. apply Qle_trans with x; [|exact E].
           apply Hub. left. reflexivity.
        -- apply Hub. right. exact H.
Qed.

Lemma py_max_fin (l : list pyfloat) :
  l <> [] -> Forall is_fin l ->
  exists M, py_max l = Ok (Fin M) /\ In (Fin M) l /\
            forall q, In (Fin q) l -> q <= M.
Proof.
  destruct l as [|x l]; [congruence|]. intros _ Hl.
  inversion Hl as [|? ? [qx ->] Hl']; subst. simpl.
  destruct (fold_max_fin l qx Hl') as (M & HM & Hin & Hub).
  exists M. rewrite HM. auto.
Qed.

Lemma py_min_fin (l : list pyfloat) :
  l <> [] -> Forall is_fin l ->
  exists m, py_min l = Ok (Fin m) /\ In (Fin m) l /\
            forall q, In (Fin q) l -> m <= q.
Proof.
  destruct l as [|x l]; [congruence|]. intros _ Hl.
  inversion Hl as [|? ? [qx ->] Hl']; subst. simpl.
  destruct (fold_min_fin l qx Hl') as (M & HM & Hin & Hub).
  exists M. rewrite HM. auto.
Qed.

Lemma py_max_ok_not_nil (l : list pyfloat) (x : pyfloat) :
  py_max l = Ok x -> l <> [].
Proof. destruct l; simpl; [discriminate | discriminate]. Qed.

(** The spread [max - min] of a list of finite rates: the difference of the
    largest and the smallest rate, finite, not negative, and zero when the
    rates are all equal. *)
Lemma spread_fin (rates : list pyfloat) (mx mn : pyfloat) :
  Forall is_fin rates ->
  py_max rates = Ok mx -> py_min rates = Ok mn ->
  exists M m v,
    largest rates M /\ smallest rates m /\
    pf_sub mx mn = Fin v /\ v == M - m /\ 0 <= v /\
    (identical_rates rates -> v == 0) /\
    (pf_lt (pf_sub mx mn) threshold = true <-> v < 1 # 20).
Proof.
  intros Hfin Hmax Hmin.
  pose proof (py_max_ok_not_nil _ _ Hmax) as Hne.
  destruct (py_max_fin rates Hne Hfin) as (M & HM & HMin & HMub).
  destruct (py_min_fin rates Hne Hfin) as (m & Hm & Hmin' & Hmlb).
  rewrite HM in Hmax. rewrite Hm in Hmin.
  injection Hmax as <-. injection Hmin as <-.
  exists M, m, (Qred (M - m)).
  split; [split; assumption|]. split; [split; assumption|].
  split; [reflexivity|].
  assert (Hle : m <= M) by (apply HMub; exact Hmin').
  split; [apply Qred_correct|].
  split; [rewrite Qred_correct; lra|]. split.
  - intro Hid. specialize (Hid (Fin M) (Fin m) HMin Hmin').
    simpl in Hid. apply Qeq_bool_iff in Hid.
    rewrite Qred_correct. lra.
  - simpl. unfold float_of_Q. apply Qlt_bool_iff.
Qed.

(* ================================================================== *)
(** * Lemmas on numpy and on the calculators *)
(* ================================================================== *)

Lemma insert_uniq_in (g x : string) (l : list string) :
  In g (Np.insert_uniq x l) <-> g = x \/ In g l.
Proof.
  induction l as [|y l IH]; simpl.
  - intuition auto.
  - destruct (String.compare x y) eqn:E; simpl.
    + apply String.compare_eq_iff in E. subst y. intuition auto.
    + intuition auto.
    + rewrite IH. intuition auto.
Qed.

Lemma unique_in (g : string) (a : list string) :
  In g (Np.unique a) <-> In g a.
Proof.
  unfold Np.unique. induction a as [|x a IH]; simpl; [tauto|].
  rewrite insert_uniq_in, IH. intuition auto.
Qed.

Lemma unique_nil (a : list string) : Np.unique a = [] -> a = [].
Proof.
  destruct a as [|x a]; [reflexivity|]. intro H.
  assert (Hin : In x (Np.unique (x :: a))) by (apply unique_in; left; reflexivity).
  rewrite H in Hin. destruct Hin.
Qed.

Lemma eq_mask_length (a : list string) (g : string) :
  List.length (Np.eq_mask a g) = List.length a.
Proof. unfold Np.eq_mask. apply length_map. Qed.

Lemma index_ok {A : Type} (ys : list A) (mask : list bool) (sel : list A) :
  Np.index ys mask = Ok sel ->
  List.length ys = List.length mask /\ sel = Np.select ys mask.
Proof.
  unfold Np.index. destruct (Nat.eqb (List.length ys) (List.length mask)) eqn:E;
    [|discriminate].
  apply Nat.eqb_eq in E. intro H. injection H as <-. auto.
Qed.

Lemma index_aligned {A : Type} (ys : list A) (mask : list bool) :
  List.length ys = List.length mask -> Np.index ys mask = Ok (Np.select ys mask).
Proof.
  intro H. unfold Np.index. rewrite H, Nat.eqb_refl. reflexivity.
Qed.

Lemma index_misaligned {A : Type} (ys : list A) (mask : list bool) :
  List.length ys <> List.length mask ->
  Np.index ys mask = Err (MaskLength (List.length ys) (List.length mask)).
Proof.
  intro H. unfold Np.index. apply Nat.eqb_neq in H. rewrite H. reflexivity.
Qed.

(** A group value met in the attribute vector selects at least one sample. *)
Lemma select_group_not_nil {A : Type} (ys : list A) (a : list string) (g : string) :
  List.length ys = List.length a -> In g a ->
  Np.select ys (Np.eq_mask a g) <> [].
Proof.
  revert ys. induction a as [|x a IH]; intros ys Hlen Hin; [destruct Hin|].
  destruct ys as [|y ys]; [discriminate|]. simpl in Hlen. simpl.
  destruct (String.eqb x g) eqn:E; [discriminate|].
  apply IH; [lia|]. destruct Hin as [H|H]; [|exact H].
  subst x. rewrite String.eqb_refl in E. discriminate.
Qed.

Lemma mean_fin (l : list Q) : l <> [] -> is_fin (Np.mean l).
Proof.
  destruct l; [congruence|]. intros _. simpl. unfold float_of_Q. eexists. reflexivity.
Qed.

Lemma mean_int_fin (l : list Z) : l <> [] -> is_fin (Np.mean_int l).
Proof.
  intro H. unfold Np.mean_int. apply mean_fin.
  destruct l; [congruence | discriminate].
Qed.

Lemma rate_fin (n d : Z) : is_fin (rate n d).
Proof.
  unfold rate, int_div, float_of_Q. destruct (Z.ltb 0 d); eexists; reflexivity.
Qed.

Lemma pf_eqb_refl_fin (x : pyfloat) : is_fin x -> pf_eqb x x = true.
Proof. intros [q ->]. simpl. apply Qeq_bool_iff. reflexivity. Qed.

Lemma single_rate_identical (rates : list pyfloat) :
  Forall is_fin rates -> List.length rates = 1%nat -> identical_rates rates.
Proof.
  destruct rates as [|x [|y rates]]; try discriminate.
  intros Hfin _ a b [<-|[]] [<-|[]].
  apply pf_eqb_refl_fin. inversion Hfin. assumption.
Qed.

(** The per-group positive rates of a completed demographic-parity loop are
    finite. *)
Lemma dp_rates_fin (y_pred : list Z) (protected_attr : list string)
    (d : dict pyfloat) :
  for_in (Np.unique protected_attr)
    (fun group positive_rates =>
       sel <- Np.index y_pred (Np.eq_mask protected_attr group) ;;
       Ok (dict_set positive_rates group (Np.mean_int sel))) [] = Ok d ->
  Forall is_fin (dict_values d).
Proof.
  apply (for_in_invariant _ (fun d => Forall is_fin (dict_values d)));
    [|constructor].
  intros g s s' Hg Hs Hbody.
  apply bind_ok in Hbody as (sel & Hidx & Hset). injection Hset as <-.
  apply index_ok in Hidx as [Hlen ->]. rewrite eq_mask_length in Hlen.
  apply dict_set_values; [exact Hs|].
  apply mean_int_fin, select_group_not_nil; [exact Hlen|].
  apply unique_in. exact Hg.
Qed.

Lemma demographic_parity_spread (y_pred : list Z) (protected_attr : list string)
    (r : dp_result) :
  demographic_parity y_pred protected_attr = Ok r ->
  exists M m v,
    largest (dict_values (positive_rates r)) M /\
    smallest (dict_values (positive_rates r)) m /\
    dp_violation r = Fin v /\ v == M - m /\ 0 <= v /\
    (identical_rates (dict_values (positive_rates r)) -> v == 0) /\
    (dp_is_fair r = true <-> v < 1 # 20) /\
    Forall is_fin (dict_values (positive_rates r)).
Proof.
  unfold demographic_parity. intro H.
  apply bind_ok in H as (d & Hloop & H). cbv zeta in H.
  apply bind_ok in H as (mx & Hmax & H).
  apply bind_ok in H as (mn & Hmin & H).
  injection H as <-. simpl.
  pose proof (dp_rates_fin _ _ _ Hloop) as Hfin.
  destruct (spread_fin _ _ _ Hfin Hmax Hmin)
    as (M & m & v & HM & Hm & Hv & Hd & H0 & Hid & Hfair).
  exists M, m, v. repeat split; auto; try apply HM; try apply Hm; apply Hfair.
Qed.

Lemma tprs_fin (y_true y_pred : list Z) (protected_attr : list string)
    (d : dict pyfloat) :
  for_in (Np.unique protected_attr)
    (fun group tprs =>
       group_y_true <- Np.index y_true (Np.eq_mask protected_attr group) ;;
       group_y_pred <- Np.index y_pred (Np.eq_mask protected_attr group) ;;
       cm <- unpack4 (Sklearn.ravel
                        (Sklearn.confusion_matrix group_y_true group_y_pred)) ;;
       let '(tn, fp, fn, tp) := cm in
       Ok (dict_set tprs group (rate tp (tp + fn)))) [] = Ok d ->
  Forall is_fin (dict_values d).
Proof.
  apply (for_in_invariant _ (fun d => Forall is_fin (dict_values d)));
    [|constructor].
  intros g s s' Hg Hs Hbody.
  apply bind_ok in Hbody as (gt & _ & Hbody).
  apply bind_ok in Hbody as (gp & _ & Hbody).
  apply bind_ok in Hbody as ([[[tn fp] fn] tp] & _ & Hset).
  injection Hset as <-.
  apply dict_set_values; [exact Hs | apply rate_fin].
Qed.

Lemma equal_opportunity_spread (y_true y_pred : list Z)
    (protected_attr : list string) (r : eopp_result) :
  equal_opportunity y_true y_pred protected_attr = Ok r ->
  exists M m v,
    largest (dict_values (tprs r)) M /\ smallest (dict_values (tprs r)) m /\
    eopp_violation r = Fin v /\ v == M - m /\ 0 <= v /\
    (identical_rates (dict_values (tprs r)) -> v == 0) /\
    (eopp_is_fair r = true <-> v < 1 # 20) /\
    Forall is_fin (dict_values (tprs r)).
Proof.
  unfold equal_opportunity. intro H.
  apply bind_ok in H as (d & Hloop & H). cbv zeta in H.
  apply bind_ok in H as (mx & Hmax & H).
  apply bind_ok in H as (mn & Hmin & H).
  injection H as <-. simpl.
  pose proof (tprs_fin _ _ _ _ Hloop) as Hfin.
  destruct (spread_fin _ _ _ Hfin Hmax Hmin)
    as (M & m & v & HM & Hm & Hv & Hd & H0 & Hid & Hfair).
  exists M, m, v. repeat split; auto; try apply HM; try apply Hm; apply Hfair.
Qed.

Lemma group_metrics_fin (y_true y_pred : list Z) (protected_attr : list string)
    (d : dict group_metric) :
  for_in (Np.unique protected_attr)
    (fun group group_metrics =>
       group_y_true <- Np.index y_true (Np.eq_mask protected_attr group) ;;
       group_y_pred <- Np.index y_pred (Np.eq_mask protected_attr group) ;;
       cm <- unpack4 (Sklearn.ravel
                        (Sklearn.confusion_matrix group_y_true group_y_pred)) ;;
       let '(tn, fp, fn, tp) := cm in
       Ok (dict_set group_metrics group
             {| gm_tpr := rate tp (tp + fn); gm_fpr := rate fp (fp + tn);
                gm_tn := tn; gm_fp := fp; gm_fn := fn; gm_tp := tp |})) [] = Ok d ->
  Forall fin_metric (dict_values d).
Proof.
  apply (for_in_invariant _ (fun d => Forall fin_metric (dict_values d)));
    [|constructor].
  intros g s s' Hg Hs Hbody.
  apply bind_ok in Hbody as (gt & _ & Hbody).
  apply bind_ok in Hbody as (gp & _ & Hbody).
  apply bind_ok in Hbody as ([[[tn fp] fn] tp] & _ & Hset).
  injection Hset as <-.
  apply dict_set_values; [exact Hs | split; apply rate_fin].
Qed.

Lemma equalized_odds_spread (y_true y_pred : list Z)
    (protected_attr : list string) (r : eodds_result) :
  equalized_odds y_true y_pred protected_attr = Ok r ->
  (exists M m v,
     largest (map gm_tpr (dict_values (group_metrics r))) M /\
     smallest (map gm_tpr (dict_values (group_metrics r))) m /\
     tpr_violation r = Fin v /\ v == M - m /\ 0 <= v /\
     (identical_rates (map gm_tpr (dict_values (group_metrics r))) -> v == 0)) /\
  (exists M m v,
     largest (map gm_fpr (dict_values (group_metrics r))) M /\
     smallest (map gm_fpr (dict_values (group_metrics r))) m /\
     fpr_violation r = Fin v /\ v == M - m /\ 0 <= v /\
     (identical_rates (map gm_fpr (dict_values (group_metrics r))) -> v == 0)) /\
  Forall fin_metric (dict_values (group_metrics r)).
Proof.
  unfold equalized_odds. intro H.
  apply bind_ok in H as (d & Hloop & H). cbv zeta in H.
  apply bind_ok in H as (mx & Hmax & H).
  apply bind_ok in H as (mn & Hmin & H).
  apply bind_ok in H as (fx & Hfmax & H).
  apply bind_ok in H as (fn & Hfmin & H).
  injection H as <-. simpl.
  pose proof (group_metrics_fin _ _ _ _ Hloop) as Hfin.
  assert (Ht : Forall is_fin (map gm_tpr (dict_values d))).
  { apply Forall_map. eapply Forall_impl; [|exact Hfin]. intros m [Hm _]. exact Hm. }
  assert (Hf : Forall is_fin (map gm_fpr (dict_values d))).
  { apply Forall_map. eapply Forall_impl; [|exact Hfin]. intros m [_ Hm]. exact Hm. }
  destruct (spread_fin _ _ _ Ht Hmax Hmin)
    as (M & m & v & HM & Hm & Hv & Hd & H0 & Hid & _).
  destruct (spread_fin _ _ _ Hf Hfmax Hfmin)
    as (M' & m' & w & HM' & Hm' & Hw & Hd' & Hw0 & Hwid & _).
  split; [exists M, m, v; auto 10|].
  split; [exists M', m', w; auto 10 | exact Hfin].
Qed.

(** With a non-empty attribute vector and an aligned prediction vector,
    demographic parity returns a result. *)
Lemma demographic_parity_total (y_pred : list Z) (protected_attr : list string) :
  protected_attr <> [] -> List.length y_pred = List.length protected_attr ->
  exists r, demographic_parity y_pred protected_attr = Ok r.
Proof.
  intros Hne Hlen. unfold demographic_parity.
  set (body := fun (group : string) (positive_rates : dict pyfloat) =>
                 sel <- Np.index y_pred (Np.eq_mask protected_attr group) ;;
                 Ok (dict_set positive_rates group (Np.mean_int sel))).
  assert (Hbody : forall g s, body g s =
            Ok (dict_set s g (Np.mean_int (Np.select y_pred (Np.eq_mask protected_attr g))))).
  { intros g s. unfold body. rewrite index_aligned; [reflexivity|].
    rewrite eq_mask_length. exact Hlen. }
  destruct (Np.unique protected_attr) as [|g gs] eqn:E.
  { apply unique_nil in E. contradiction. }
  destruct (for_in_total body (fun d => d <> []) gs) with (s := dict_set [] g
      (Np.mean_int (Np.select y_pred (Np.eq_mask protected_attr g))))
    as (d & Hd & Hdne).
  { intros x s _ _. rewrite Hbody. eexists. split; [reflexivity|].
    apply dict_set_not_nil. }
  { apply dict_set_not_nil. }
  assert (Hloop : for_in (g :: gs) body [] = Ok d).
  { simpl. rewrite Hbody. simpl. exact Hd. }
  rewrite Hloop. simpl.
  assert (Hfin : Forall is_fin (dict_values d)).
  { apply (dp_rates_fin y_pred protected_attr). rewrite E. exact Hloop. }
  assert (Hvne : dict_values d <> []).
  { unfold dict_values. destruct d; [congruence | discriminate]. }
  destruct (py_max_fin _ Hvne Hfin) as (M & HM & _).
  destruct (py_min_fin _ Hvne Hfin) as (m & Hm & _).
  rewrite HM, Hm. simpl. eexists. reflexivity.
Qed.

(* ================================================================== *)
(** * Properties of the fairness calculators *)
(* ================================================================== *)

(** C1, at an input where the code departs from it: group "A" has no positive
    true label, and no positive prediction either.  Its confusion matrix has
    the single label 0, so it is 1x1, the four-name assignment fails, and both
    calculators raise ValueError instead of reporting a TPR of 0 for "A". *)
Theorem all_negative_group_raises :
  Np.select [0; 0; 1; 0]%Z (Np.eq_mask ["A"; "A"; "B"; "B"] "A") = [0; 0]%Z /\
  Sklearn.confusion_matrix [0; 0]%Z [0; 0]%Z = [[2%Z]] /\
  equal_opportunity [0; 0; 1; 0]%Z [0; 0; 1; 0]%Z ["A"; "A"; "B"; "B"]
    = Err (Unpack 4 1) /\
  equalized_odds [0; 0; 1; 0]%Z [0; 0; 1; 0]%Z ["A"; "A"; "B"; "B"]
    = Err (Unpack 4 1).
Proof. repeat split; vm_compute; reflexivity. Qed.



(** C4 as stated fails: with three predictions and two attribute values the
    vectors are not aligned, and the call does not end with the ValueError of
    an invalid input; numpy's boolean indexing raises IndexError. *)
Lemma misaligned_call_raises_index_error :
  ~ aligned (DemographicParity [1; 0; 1]%Z ["A"; "B"]) /\
  failure (DemographicParity [1; 0; 1]%Z ["A"; "B"]) = Some (MaskLength 3 2) /\
  class_of (MaskLength 3 2) = IndexError /\
  ~ (exists e, failure (DemographicParity [1; 0; 1]%Z ["A"; "B"]) = Some e /\
               InvalidInput e).
Proof.
  split; [simpl; discriminate|].
  split; [vm_compute; reflexivity|].
  split; [reflexivity|].
  intros (e & He & Hinv).
  assert (E : failure (DemographicParity [1; 0; 1]%Z ["A"; "B"])
              = Some (MaskLength 3 2)) by (vm_compute; reflexivity).
  rewrite E in He. injection He as <-. unfold InvalidInput in Hinv. discriminate.
Qed.

(** C4, amended: no calculator validates its arguments, yet none returns a
    result on an empty or misaligned input.  With an empty attribute vector
    the group loop does nothing and [max()] of the empty rate list raises
    ValueError; with a non-empty attribute vector and a per-sample vector of
    another length, the first boolean indexing raises IndexError. *)
Theorem calculators_fail_on_empty_or_misaligned (c : metric_call) :
  (protected_attr_of c = [] ->
     failure c = Some EmptySequence /\ InvalidInput EmptySequence) /\
  (protected_attr_of c <> [] -> ~ aligned c ->
     exists dim mask, failure c = Some (MaskLength dim mask) /\
                      class_of (MaskLength dim mask) = IndexError /\
                      ~ InvalidInput (MaskLength dim mask)).
Proof.
  assert (Hidx : forall dim mask,
            class_of (MaskLength dim mask) = IndexError /\
            ~ InvalidInput (MaskLength dim mask)).
  { intros dim mask. split; [reflexivity|]. unfold InvalidInput. simpl. discriminate. }
  split.
  - intro Hnil. split; [|reflexivity].
    destruct c; simpl in Hnil; subst; reflexivity.
  - intros Hne Hmis.
    destruct c as [p a | t p a | t p a | t p a]; simpl in Hne, Hmis; simpl;
      destruct (Np.unique a) as [|g gs] eqn:E;
      try (apply unique_nil in E; contradiction).
    + unfold demographic_parity. rewrite E. simpl.
      rewrite index_misaligned by (rewrite eq_mask_length; exact Hmis).
      simpl. eauto.
    + unfold equalized_odds. rewrite E. simpl.
      destruct (Nat.eq_dec (List.length t) (List.length a)) as [Ht|Ht].
      * rewrite (index_aligned t) by (rewrite eq_mask_length; exact Ht). simpl.
        rewrite index_misaligned by (rewrite eq_mask_length; tauto).
        simpl. eauto.
      * rewrite index_misaligned by (rewrite eq_mask_length; exact Ht).
        simpl. eauto.
    + unfold equal_opportunity. rewrite E. simpl.
      destruct (Nat.eq_dec (List.length t) (List.length a)) as [Ht|Ht].
      * rewrite (index_aligned t) by (rewrite eq_mask_length; exact Ht). simpl.
        rewrite index_misaligned by (rewrite eq_mask_length; tauto).
        simpl. eauto.
      * rewrite index_misaligned by (rewrite eq_mask_length; exact Ht).
        simpl. eauto.
    + unfold calibration. rewrite E. simpl.
      destruct (Nat.eq_dec (List.length t) (List.length a)) as [Ht|Ht].
      * rewrite (index_aligned t) by (rewrite eq_mask_length; exact Ht). simpl.
        rewrite index_misaligned by (rewrite eq_mask_length; tauto).
        simpl. eauto.
      * rewrite index_misaligned by (rewrite eq_mask_length; exact Ht).
        simpl. eauto.
Qed.

(** Witness of the amended C4: equalized odds on an empty attribute vector,
    and on two attribute values against three predictions. *)
Lemma calculators_fail_on_empty_or_misaligned_witness :
  failure (EqualizedOdds [1; 0]%Z [1; 0]%Z []) = Some EmptySequence /\
  exists dim mask,
    failure (EqualizedOdds [1; 0]%Z [1; 0; 1]%Z ["A"; "B"])
    = Some (MaskLength dim mask).
Proof.
  split.
  - apply (calculators_fail_on_empty_or_misaligned
             (EqualizedOdds [1; 0]%Z [1; 0]%Z [])). reflexivity.
  - destruct (calculators_fail_on_empty_or_misaligned
                (EqualizedOdds [1; 0]%Z [1; 0; 1]%Z ["A"; "B"])) as [_ H].
    destruct H as (dim & mask & Hf & _).
    + simpl. discriminate.
    + simpl. intros [_ H]. discriminate.
    + exists dim, mask. exact Hf.
Defined.

(** C7: every violation score that a calculator returns is a finite number
    that is not negative, and it is 0 when the groups' rates are all equal,
    in particular when there is a single group. *)
Theorem violation_nonnegative_zero_when_identical
    (c : metric_call) (l : list (list pyfloat * pyfloat))
    (rates : list pyfloat) (viol : pyfloat) :
  violations c = Ok l -> In (rates, viol) l ->
  exists v,
    viol = Fin v /\ 0 <= v /\
    (identical_rates rates -> v == 0) /\
    (List.length rates = 1%nat -> v == 0).
Proof.
  intros Hc Hin.
  assert (Hgoal : Forall is_fin rates /\
                  exists M m v, largest rates M /\ smallest rates m /\
                    viol = Fin v /\ v == M - m /\ 0 <= v /\
                    (identical_rates rates -> v == 0)).
  { destruct c as [p a | t p a | t p a | t p a]; simpl in Hc;
      apply bind_ok in Hc as (r & Hr & Hl); injection Hl as <-.
    - destruct Hin as [Hin|[]]. injection Hin as <- <-.
      destruct (demographic_parity_spread _ _ _ Hr)
        as (M & m & v & HM & Hm & Hv & Hd & H0 & Hid & _ & Hfin).
      split; [exact Hfin | exists M, m, v; auto 10].
    - destruct (equalized_odds_spread _ _ _ _ Hr) as (Ht & Hf & Hfin).
      destruct Hin as [Hin|[Hin|[]]]; injection Hin as <- <-.
      + split; [|exact Ht].
        apply Forall_map. eapply Forall_impl; [|exact Hfin]. intros m [Hm _]. exact Hm.
      + split; [|exact Hf].
        apply Forall_map. eapply Forall_impl; [|exact Hfin]. intros m [_ Hm]. exact Hm.
    - destruct Hin as [Hin|[]]. injection Hin as <- <-.
      destruct (equal_opportunity_spread _ _ _ _ Hr)
        as (M & m & v & HM & Hm & Hv & Hd & H0 & Hid & _ & Hfin).
      split; [exact Hfin | exists M, m, v; auto 10].
    - destruct Hin. }
  destruct Hgoal as (Hfin & M & m & v & HM & Hm & Hv & Hd & H0 & Hid).
  exists v. split; [exact Hv|]. split; [exact H0|]. split; [exact Hid|].
  intro Hone. apply Hid. apply single_rate_identical; assumption.
Qed.

(** Witness of C7: two groups with the same positive rate 0.5, so the
    violation of demographic parity is 0. *)
Lemma violation_nonnegative_zero_when_identical_witness :
  exists v,
    Fin 0 = Fin v /\ 0 <= v /\
    (identical_rates [Fin (1 # 2); Fin (1 # 2)] -> v == 0) /\
    (List.length [Fin (1 # 2); Fin (1 # 2)] = 1%nat -> v == 0).
Proof.
  apply (violation_nonnegative_zero_when_identical
           (DemographicParity [1; 0; 1; 0]%Z ["A"; "A"; "B"; "B"])
           [([Fin (1 # 2); Fin (1 # 2)], Fin 0)]).
  - vm_compute. reflexivity.
  - left. reflexivity.
Defined.

(** C8: the scenario of sixty positive predictions over two groups of fifty. *)
Theorem demographic_parity_scenario :
  demographic_parity (repeat 1%Z 60 ++ repeat 0%Z 40)%list
    (repeat "A" 50 ++ repeat "B" 50)%list
  = Ok {| positive_rates := [("A", Fin 1); ("B", Fin (1 # 5))];
          parity_ratio := Fin 5;
          dp_violation := Fin (4 # 5);
          dp_is_fair := false |}.
Proof. vm_compute. reflexivity. Qed.

(* ================================================================== *)
(** * Lemmas on pandas *)
(* ================================================================== *)

Lemma injective_on_tail (f : string -> string) (x : string) (s : list string) :
  injective_on f (x :: s) -> injective_on f s.
Proof.
  intros H a b Ha Hb. apply H; right; assumption.
Qed.

Lemma eqb_rename (f : string -> string) (s : list string) (x y : string) :
  injective_on f s -> In x s -> In y s ->
  String.eqb (f x) (f y) = String.eqb x y.
Proof.
  intros Hinj Hx Hy.
  destruct (String.eqb x y) eqn:E.
  - apply String.eqb_eq in E. subst y. apply String.eqb_refl.
  - apply String.eqb_neq. intro Heq. apply String.eqb_neq in E.
    apply E. apply Hinj; assumption.
Qed.

Lemma filter_rename {A B : Type} (f : A -> B) (p : A -> bool) (p' : B -> bool)
    (l : list A) :
  (forall y, In y l -> p' (f y) = p y) ->
  filter p' (map f l) = map f (filter p l).
Proof.
  induction l as [|y l IH]; intro H; simpl; [reflexivity|].
  rewrite (H y (or_introl eq_refl)).
  rewrite IH by (intros z Hz; apply H; right; exact Hz).
  destruct (p y); reflexivity.
Qed.

Lemma pd_unique_incl (s : list string) (y : string) :
  In y (Pandas.unique s) -> In y s.
Proof.
  induction s as [|x s IH]; simpl; [tauto|].
  intros [H|H]; [left; exact H|].
  right. apply IH. apply filter_In in H. tauto.
Qed.

Lemma pd_unique_rename (f : string -> string) (s : list string) :
  injective_on f s -> Pandas.unique (map f s) = map f (Pandas.unique s).
Proof.
  induction s as [|x s IH]; intro Hinj; simpl; [reflexivity|].
  rewrite IH by (eapply injective_on_tail; exact Hinj).
  f_equal. apply filter_rename.
  intros y Hy. f_equal.
  apply (eqb_rename f (x :: s)); [exact Hinj | left; reflexivity |].
  right. apply pd_unique_incl. exact Hy.
Qed.

Lemma count_rename (f : string -> string) (s : list string) (v : string) :
  injective_on f s -> In v s -> count (map f s) (f v) = count s v.
Proof.
  intros Hinj Hv. unfold count.
  rewrite (filter_rename f (String.eqb v) (String.eqb (f v))).
  - apply length_map.
  - intros y Hy. apply (eqb_rename f s); assumption.
Qed.

Lemma insert_desc_rename (f : string -> string) (x : string * nat)
    (l : list (string * nat)) :
  insert_desc (rename_key f x) (map (rename_key f) l)
  = map (rename_key f) (insert_desc x l).
Proof.
  induction l as [|y l IH]; simpl; [reflexivity|].
  destruct (Nat.ltb (snd x) (snd y)); simpl; [rewrite IH|]; reflexivity.
Qed.

Lemma sort_desc_rename (f : string -> string) (l : list (string * nat)) :
  sort_desc (map (rename_key f) l) = map (rename_key f) (sort_desc l).
Proof.
  unfold sort_desc. induction l as [|x l IH]; simpl; [reflexivity|].
  rewrite IH. apply insert_desc_rename.
Qed.

(** Renaming the values of a series renames the keys of its value counts and
    leaves the counts and their order alone. *)
Lemma value_counts_rename (f : string -> string) (s : list string) :
  injective_on f s ->
  value_counts (map f s) = map (rename_key f) (value_counts s).
Proof.
  intro Hinj. unfold value_counts.
  rewrite pd_unique_rename by exact Hinj.
  rewrite <- sort_desc_rename. f_equal.
  rewrite !map_map. apply map_ext_in.
  intros v Hv. unfold rename_key. simpl. f_equal.
  apply count_rename; [exact Hinj | apply pd_unique_incl; exact Hv].
Qed.

Lemma representation_bias_rename (f : string -> string) (s : list string)
    (total : nat) :
  injective_on f s ->
  _calculate_representation_bias (value_counts (map f s)) total
  = _calculate_representation_bias (value_counts s) total.
Proof.
  intro Hinj. unfold _calculate_representation_bias.
  rewrite value_counts_rename by exact Hinj.
  rewrite map_map. simpl. reflexivity.
Qed.

Lemma analyze_attribute_rep_bias (data : DataFrame) (attr : string)
    (target : option string) (c : column) (a : attribute_analysis) :
  get_column data attr = Ok c ->
  _analyze_attribute data attr target = Ok a ->
  rep_bias a
  = _calculate_representation_bias (value_counts (group_values c)) (n_rows data).
Proof.
  intros Hc H. unfold _analyze_attribute in H. rewrite Hc in H. simpl in H.
  destruct (wants_label_bias data target) as [t|].
  - apply bind_ok in H as (lb & _ & H). injection H as <-. reflexivity.
  - injection H as <-. reflexivity.
Qed.

(* ================================================================== *)
(** * Properties of the representation analysis *)
(* ================================================================== *)

(** C9: take two frames with as many rows whose protected-attribute columns
    differ by a renaming of the values that is injective on the values
    present.  The representation analysis of the attribute gives the same
    disparity ratio and the same balance verdict on both. *)
Theorem representation_bias_invariant_under_renaming
    (data data' : DataFrame) (attr : string) (f : string -> string)
    (c c' : column) (target target' : option string)
    (a a' : attribute_analysis) :
  get_column data attr = Ok c ->
  get_column data' attr = Ok c' ->
  group_values c' = map f (group_values c) ->
  n_rows data' = n_rows data ->
  injective_on f (group_values c) ->
  _analyze_attribute data attr target = Ok a ->
  _analyze_attribute data' attr target' = Ok a' ->
  disparity_ratio (rep_bias a') = disparity_ratio (rep_bias a) /\
  is_balanced (rep_bias a') = is_balanced (rep_bias a).
Proof.
  intros Hc Hc' Hren Hrows Hinj Ha Ha'.
  rewrite (analyze_attribute_rep_bias _ _ _ _ _ Hc Ha).
  rewrite (analyze_attribute_rep_bias _ _ _ _ _ Hc' Ha').
  rewrite Hren, Hrows, representation_bias_rename by exact Hinj.
  split; reflexivity.
Qed.

(** Witness of C9 on the 90/10 scenario: groups "A" and "B" renamed to
    "x" and "y"; the ratio is 9 and the verdict unbalanced on both frames. *)
Lemma representation_bias_invariant_under_renaming_witness :
  exists a a',
    _analyze_attribute skewed_frame "group" None = Ok a /\
    _analyze_attribute renamed_frame "group" None = Ok a' /\
    disparity_ratio (rep_bias a) = Fin 9 /\
    disparity_ratio (rep_bias a') = disparity_ratio (rep_bias a) /\
    is_balanced (rep_bias a') = is_balanced (rep_bias a).
Proof.
  eexists. eexists.
  split; [vm_compute; reflexivity|].
  split; [vm_compute; reflexivity|].
  split; [reflexivity|].
  apply (representation_bias_invariant_under_renaming
           skewed_frame renamed_frame "group" rename_AB
           (StrCol (repeat "A" 90 ++ repeat "B" 10)%list)
           (StrCol (repeat "x" 90 ++ repeat "y" 10)%list) None None).
  - reflexivity.
  - reflexivity.
  - vm_compute. reflexivity.
  - reflexivity.
  - intros x y Hx Hy.
    assert (Hin : forall z, In z (repeat "A" 90 ++ repeat "B" 10)%list ->
                            z = "A" \/ z = "B").
    { intros z Hz. apply in_app_or in Hz as [Hz|Hz];
        apply repeat_spec in Hz; auto. }
    destruct (Hin x Hx) as [-> | ->]; destruct (Hin y Hy) as [-> | ->];
      vm_compute; congruence.
  - vm_compute. reflexivity.
  - vm_compute. reflexivity.
Defined.

(* ================================================================== *)
(** * Lemmas on the detector *)
(* ================================================================== *)

Lemma has_column_get (data : DataFrame) (name : string) :
  has_column data name = true -> exists c, get_column data name = Ok c.
Proof.
  unfold has_column, get_column.
  induction (columns data) as [|[k c] cols IH]; simpl; [discriminate|].
  rewrite (String.eqb_sym k name).
  destruct (String.eqb name k); simpl; [eauto | exact IH].
Qed.

Lemma wants_label_bias_has_column (data : DataFrame) (target : option string)
    (t : string) :
  wants_label_bias data target = Some t -> has_column data t = true.
Proof.
  unfold wants_label_bias. destruct target as [t'|]; [|discriminate].
  destruct (String.eqb t' ""); [discriminate|].
  destruct (has_column data t') eqn:E; [|discriminate].
  intro H. injection H as <-. exact E.
Qed.

Lemma group_entry_err (target : column) (mask : list bool) (e : exn) :
  group_entry target mask = Err e ->
  e = NotNumeric /\ exists cells, target = StrCol cells.
Proof.
  destruct target as [cells | [|] cells]; simpl; intro H; try discriminate.
  injection H as <-. eauto.
Qed.

Lemma group_entry_numeric (dt : dtype) (cells : list Z) (mask : list bool) :
  exists entry, group_entry (IntCol dt cells) mask = Ok entry.
Proof. destruct dt; simpl; eauto. Qed.

Lemma label_bias_step_err (data : DataFrame) (values : list string)
    (t g : string) (lb : dict label_bias_value) (e : exn) :
  has_column data t = true ->
  label_bias_step data values t g lb = Err e ->
  e = NotNumeric /\ exists cells, get_column data t = Ok (StrCol cells).
Proof.
  intros Hcol H. unfold label_bias_step in H.
  destruct (Nat.ltb 0 _); [|discriminate].
  destruct (has_column_get _ _ Hcol) as (c & Hc). rewrite Hc in *. simpl in H.
  apply bind_err in H as [H | (entry & _ & H)]; [|discriminate].
  apply group_entry_err in H as (-> & cells & ->). eauto.
Qed.

Lemma label_bias_step_numeric (data : DataFrame) (values : list string)
    (t g : string) (lb : dict label_bias_value) (dt : dtype) (cells : list Z) :
  get_column data t = Ok (IntCol dt cells) ->
  exists lb', label_bias_step data values t g lb = Ok lb'.
Proof.
  intro Hc. unfold label_bias_step.
  destruct (Nat.ltb 0 _); [|eauto].
  rewrite Hc. destruct dt; simpl; eauto.
Qed.

(** After the loop, [max] and [min] run on a non-empty list only. *)
Lemma add_disparity_total (lb : dict label_bias_value) :
  exists lb', add_disparity lb = Ok lb'.
Proof.
  unfold add_disparity.
  destruct lb as [|kv lb]; [eauto|]. cbv zeta.
  destruct (drop_none (map rate_of (dict_values (kv :: lb)))) as [|x rates];
    [eauto|].
  simpl. eauto.
Qed.

Lemma calculate_label_bias_err (data : DataFrame) (attr t : string) (e : exn) :
  has_column data attr = true -> has_column data t = true ->
  _calculate_label_bias data attr t = Err e ->
  e = NotNumeric /\ exists cells, get_column data t = Ok (StrCol cells).
Proof.
  intros Hattr Ht H. unfold _calculate_label_bias in H.
  destruct (has_column_get _ _ Hattr) as (c & Hc). rewrite Hc in H. simpl in H.
  apply bind_err in H as [H | (lb & _ & H)].
  - apply (for_in_err _ (fun _ => True)) in H as (g & s0 & _ & _ & H); auto.
    apply (label_bias_step_err _ _ _ _ _ _ Ht H).
  - destruct (add_disparity_total lb) as (lb' & Hlb).
    rewrite Hlb in H. discriminate.
Qed.

Lemma calculate_label_bias_numeric (data : DataFrame) (attr t : string)
    (dt : dtype) (cells : list Z) :
  has_column data attr = true ->
  get_column data t = Ok (IntCol dt cells) ->
  exists lb, _calculate_label_bias data attr t = Ok lb.
Proof.
  intros Hattr Ht. unfold _calculate_label_bias.
  destruct (has_column_get _ _ Hattr) as (c & Hc). rewrite Hc. simpl.
  destruct (for_in_total (label_bias_step data (group_values c) t)
              (fun _ => True) (Pandas.unique (group_values c))) with (s := @nil (string * label_bias_value))
    as (lb & Hlb & _).
  - intros g s _ _.
    destruct (label_bias_step_numeric data (group_values c) t g s dt cells Ht)
      as (lb' & Hlb').
    eauto.
  - exact I.
  - rewrite Hlb. simpl. apply add_disparity_total.
Qed.

(** The analysis of a column that exists fails only on a target column of
    strings, with a TypeError. *)
Lemma analyze_attribute_err (data : DataFrame) (attr : string)
    (target : option string) (e : exn) :
  has_column data attr = true ->
  _analyze_attribute data attr target = Err e ->
  e = NotNumeric /\ ~ numeric_target data target.
Proof.
  intros Hattr H. unfold _analyze_attribute in H.
  destruct (has_column_get _ _ Hattr) as (c & Hc). rewrite Hc in H. simpl in H.
  destruct (wants_label_bias data target) as [t|] eqn:Ew; [|discriminate].
  apply bind_err in H as [H | (lb & _ & H)]; [|discriminate].
  apply calculate_label_bias_err in H as (-> & cells & Hcells);
    [| exact Hattr | apply (wants_label_bias_has_column _ _ _ Ew)].
  split; [reflexivity|].
  intro Hnum. apply (Hnum t cells Ew Hcells).
Qed.

Lemma analyze_attribute_numeric (data : DataFrame) (attr : string)
    (target : option string) :
  has_column data attr = true -> numeric_target data target ->
  exists a, _analyze_attribute data attr target = Ok a.
Proof.
  intros Hattr Hnum.
  destruct (_analyze_attribute data attr target) as [a|e] eqn:E; [eauto|].
  apply analyze_attribute_err in E as [_ Hn]; [contradiction | exact Hattr].
Qed.

Lemma analyze_step_present (data : DataFrame) (target : option string)
    (attr : string) (bm : dict attribute_analysis) :
  has_column data attr = true ->
  analyze_step data target attr bm
  = (a <- _analyze_attribute data attr target ;; Ok (dict_set bm attr a)).
Proof.
  intro H. unfold analyze_step. rewrite H. reflexivity.
Qed.

Lemma analyze_step_missing (data : DataFrame) (target : option string)
    (attr : string) (bm : dict attribute_analysis) :
  has_column data attr = false ->
  analyze_step data target attr bm = Err (Raise ValueError (not_found_message attr)).
Proof.
  intro H. unfold analyze_step. rewrite H. reflexivity.
Qed.

(** The loop of [analyze] over attributes that are all columns: it completes
    on a numeric target, and otherwise fails with the TypeError only. *)
Lemma analyze_loop_present (data : DataFrame) (target : option string)
    (attrs : list string) (bm : dict attribute_analysis) :
  (forall a, In a attrs -> has_column data a = true) ->
  (numeric_target data target ->
     exists bm', for_in attrs (analyze_step data target) bm = Ok bm') /\
  (forall e, for_in attrs (analyze_step data target) bm = Err e ->
     e = NotNumeric /\ ~ numeric_target data target).
Proof.
  intro Hall. split.
  - intro Hnum.
    destruct (for_in_total (analyze_step data target) (fun _ => True) attrs)
      with (s := bm) as (bm' & Hbm & _); [| exact I | eauto].
    intros a s Ha _. rewrite analyze_step_present by (apply Hall; exact Ha).
    destruct (analyze_attribute_numeric data a target (Hall a Ha) Hnum) as (r & ->).
    simpl. eauto.
  - intros e H.
    apply (for_in_err _ (fun _ => True)) in H as (a & s0 & Ha & _ & H); auto.
    rewrite analyze_step_present in H by (apply Hall; exact Ha).
    apply bind_err in H as [H | (r & _ & H)]; [|discriminate].
    apply (analyze_attribute_err _ _ _ _ (Hall a Ha) H).
Qed.

Lemma analyze_nonempty (self : detector) (data : DataFrame)
    (attrs : list string) (target : option string) :
  attrs <> [] ->
  analyze self data attrs target
  = match for_in attrs (analyze_step data target) [] with
    | Err e => (Err e, self)
    | Ok bm =>
        let report :=
          {| dataset_size := n_rows data;
             protected_attributes := attrs;
             bias_metrics := bm;
             recommendations := _generate_recommendations bm |} in
        (Ok report, {| bias_reports := (bias_reports self ++ [report])%list |})
    end.
Proof.
  destruct attrs; [congruence | reflexivity].
Qed.

(** ** The messages *)

Lemma append_inj_l (p a b : string) : (p ++ a = p ++ b)%string -> a = b.
Proof.
  induction p as [|c p IH]; simpl; intro H; [exact H|].
  injection H as H. apply IH. exact H.
Qed.

Lemma length_append (a b : string) :
  String.length (a ++ b) = (String.length a + String.length b)%nat.
Proof.
  induction a as [|c a IH]; simpl; [reflexivity | rewrite IH; reflexivity].
Qed.

Lemma append_inj_r (a b s : string) : (a ++ s = b ++ s)%string -> a = b.
Proof.
  revert b. induction a as [|c a IH]; intros [|d b] H; simpl in H.
  - reflexivity.
  - apply (f_equal String.length) in H. simpl in H. rewrite length_append in H. lia.
  - apply (f_equal String.length) in H. simpl in H. rewrite length_append in H. lia.
  - injection H as -> H. f_equal. apply IH. exact H.
Qed.

Lemma representation_message_inj (a b : string) :
  representation_message a = representation_message b -> a = b.
Proof.
  unfold representation_message. intro H.
  apply append_inj_l in H. apply append_inj_r in H. exact H.
Qed.

Lemma label_message_inj (a b : string) :
  label_message a = label_message b -> a = b.
Proof.
  unfold label_message. intro H.
  apply append_inj_l in H. apply append_inj_r in H. exact H.
Qed.

Lemma representation_not_label (a b : string) :
  representation_message a <> label_message b.
Proof. unfold representation_message, label_message. simpl. discriminate. Qed.

Lemma representation_not_default (a : string) :
  representation_message a <> default_message.
Proof. unfold representation_message, default_message. simpl. discriminate. Qed.

Lemma label_not_default (a : string) : label_message a <> default_message.
Proof. unfold label_message, default_message. simpl. discriminate. Qed.

Lemma recommendation_step_appends (acc : list string)
    (item : string * attribute_analysis) :
  recommendation_step acc item = (acc ++ messages_for item)%list.
Proof.
  destruct item as [a m].
  unfold recommendation_step, messages_for, representation_rule, label_rule,
    label_disparity_ratio.
  cbn [fst snd].
  set (b := pf_gt (disparity_ratio (rep_bias m)) (Fin 2)). clearbody b.
  destruct (label_bias m) as [lb|];
    [destruct (dict_get lb "disparity") as [[gs pr mt | mx mn ratio]|]|].
  - change (pf_gt (get_disparity_ratio (LBGroup gs pr mt)) (Fin (3 # 2)))
      with false.
    destruct b; cbn [app]; rewrite ?app_nil_r; reflexivity.
  - cbn [get_disparity_ratio].
    destruct (pf_gt ratio (Fin (3 # 2))); destruct b; cbn [app];
      rewrite <- ?app_assoc, ?app_nil_r; reflexivity.
  - destruct b; cbn [app]; rewrite ?app_nil_r; reflexivity.
  - destruct b; cbn [app]; rewrite ?app_nil_r; reflexivity.
Qed.

Lemma fold_recommendation_step (bm : dict attribute_analysis) (acc : list string) :
  fold_left recommendation_step bm acc = (acc ++ matched_messages bm)%list.
Proof.
  revert acc. induction bm as [|item bm IH]; intro acc; simpl.
  - rewrite app_nil_r. reflexivity.
  - rewrite IH, recommendation_step_appends, <- app_assoc. reflexivity.
Qed.

Lemma in_matched_representation (bm : dict attribute_analysis) (a : string) :
  In (representation_message a) (matched_messages bm) <->
  exists m, In (a, m) bm /\ representation_rule m = true.
Proof.
  unfold matched_messages. rewrite in_flat_map. split.
  - intros ([a' m] & Hin & Hmsg). unfold messages_for in Hmsg. simpl in Hmsg.
    apply in_app_or in Hmsg as [H|H].
    + destruct (representation_rule m) eqn:E; [|destruct H].
      destruct H as [H|[]]. apply representation_message_inj in H. subst a'.
      exists m. auto.
    + destruct (label_rule m); [|destruct H].
      destruct H as [H|[]]. symmetry in H.
      exfalso. apply (representation_not_label _ _ H).
  - intros (m & Hin & Hrule). exists (a, m). split; [exact Hin|].
    unfold messages_for. simpl. rewrite Hrule. left. reflexivity.
Qed.

Lemma in_matched_label (bm : dict attribute_analysis) (a : string) :
  In (label_message a) (matched_messages bm) <->
  exists m, In (a, m) bm /\ label_rule m = true.
Proof.
  unfold matched_messages. rewrite in_flat_map. split.
  - intros ([a' m] & Hin & Hmsg). unfold messages_for in Hmsg. simpl in Hmsg.
    apply in_app_or in Hmsg as [H|H].
    + destruct (representation_rule m); [|destruct H].
      destruct H as [H|[]].
      exfalso. apply (representation_not_label _ _ H).
    + destruct (label_rule m) eqn:E; [|destruct H].
      destruct H as [H|[]]. apply label_message_inj in H. subst a'.
      exists m. auto.
  - intros (m & Hin & Hrule). exists (a, m). split; [exact Hin|].
    unfold messages_for. simpl. rewrite Hrule.
    apply in_or_app. right. left. reflexivity.
Qed.

Lemma matched_nil (bm : dict attribute_analysis) :
  matched_messages bm = [] <->
  forall a m, In (a, m) bm -> representation_rule m = false /\ label_rule m = false.
Proof.
  unfold matched_messages. induction bm as [|[a m] bm IH]; simpl.
  - split; [intros _ ? ? [] | reflexivity].
  - split.
    + intro H. apply app_eq_nil in H as [Hm Hrest].
      intros a' m' [Heq|Hin]; [|apply (proj1 IH Hrest a' m' Hin)].
      injection Heq as <- <-. unfold messages_for in Hm. simpl in Hm.
      destruct (representation_rule m); [discriminate|].
      destruct (label_rule m); [discriminate|]. auto.
    + intro H. destruct (H a m (or_introl eq_refl)) as [Hr Hl].
      unfold messages_for at 1. simpl. rewrite Hr, Hl. simpl.
      apply (proj2 IH). intros a' m' Hin. apply (H a' m'). right. exact Hin.
Qed.

Lemma default_not_matched (bm : dict attribute_analysis) :
  ~ In default_message (matched_messages bm).
Proof.
  unfold matched_messages. rewrite in_flat_map.
  intros ([a m] & _ & Hmsg). unfold messages_for in Hmsg. simpl in Hmsg.
  apply in_app_or in Hmsg as [H|H].
  - destruct (representation_rule m); [|destruct H].
    destruct H as [H|[]]. apply (representation_not_default _ H).
  - destruct (label_rule m); [|destruct H].
    destruct H as [H|[]]. apply (label_not_default _ H).
Qed.

Lemma generate_recommendations_matched (bm : dict attribute_analysis) :
  _generate_recommendations bm
  = match matched_messages bm with
    | [] => [default_message]
    | matched => matched
    end.
Proof.
  unfold _generate_recommendations. rewrite fold_recommendation_step. simpl.
  destruct (matched_messages bm); reflexivity.
Qed.

(* ================================================================== *)
(** * Properties of the detector *)
(* ================================================================== *)

(** C2, at an input where the code departs from it: group "A" has positive
    rate 0 and group "B" 0.5.  [0.0 or ...] is falsy, so the rate of "A"
    becomes None and is dropped; min and max are both taken over [0.5] alone
    and the ratio is 1, where the claim gives infinity.  With no positive
    label at all every rate is dropped and no disparity is stored. *)
Theorem zero_rate_dropped_from_label_disparity :
  _calculate_label_bias zero_rate_frame "g" "t"
  = Ok [("A", LBGroup 2 (Some (Fin 0)) None);
        ("B", LBGroup 2 (Some (Fin (1 # 2))) None);
        ("disparity", LBDisparity (Fin (1 # 2)) (Fin (1 # 2)) (Fin 1))] /\
  rate_of (LBGroup 2 (Some (Fin 0)) None) = None /\
  _calculate_label_bias
    {| n_rows := 4;
       columns := [("g", StrCol ["A"; "A"; "B"; "B"]);
                   ("t", IntCol int64 [0; 0; 0; 0]%Z)] |} "g" "t"
  = Ok [("A", LBGroup 2 (Some (Fin 0)) None);
        ("B", LBGroup 2 (Some (Fin 0)) None)].
Proof. repeat split; vm_compute; reflexivity. Qed.

(** C5 as stated fails: "zz" is not a column, yet the call does not raise
    AttributeNotFound.  The loop analyses "g" before it looks at "zz", and
    the label analysis of "g" against a target of strings raises TypeError. *)
Lemma string_target_hides_missing_attribute :
  has_column string_target_frame "zz" = false /\
  fst (analyze init string_target_frame ["g"; "zz"] (Some "s")) = Err NotNumeric /\
  class_of NotNumeric = TypeError /\
  ~ (exists e,
       fst (analyze init string_target_frame ["g"; "zz"] (Some "s")) = Err e /\
       AttributeNotFound e).
Proof.
  assert (E : fst (analyze init string_target_frame ["g"; "zz"] (Some "s"))
              = Err NotNumeric) by (vm_compute; reflexivity).
  split; [vm_compute; reflexivity|]. split; [exact E|]. split; [reflexivity|].
  intros (e & He & a & Ha). rewrite E in He. injection He as <-. discriminate.
Qed.

(** C5, amended: an empty attribute list raises the ValueError of an invalid
    input.  For a non-empty list, the first name that is not a column raises
    AttributeNotFound, provided that it is first in the list or the target is
    numeric (or absent), so that the names before it are analysed without
    failure.  When every name is a column neither error is raised: the call
    returns on a numeric target and can otherwise fail with the TypeError of
    the label analysis only. *)
Theorem analyze_validation (self : detector) (data : DataFrame)
    (attrs : list string) (target : option string) :
  (attrs = [] ->
     fst (analyze self data attrs target) = Err (Raise ValueError empty_message) /\
     InvalidInput (Raise ValueError empty_message)) /\
  (forall before a after,
     attrs = (before ++ a :: after)%list ->
     (forall b, In b before -> has_column data b = true) ->
     has_column data a = false ->
     before = [] \/ numeric_target data target ->
     fst (analyze self data attrs target)
     = Err (Raise ValueError (not_found_message a)) /\
     AttributeNotFound (Raise ValueError (not_found_message a))) /\
  (attrs <> [] ->
   (forall a, In a attrs -> has_column data a = true) ->
   (numeric_target data target ->
      exists r, fst (analyze self data attrs target) = Ok r) /\
   (forall e, fst (analyze self data attrs target) = Err e ->
      e = NotNumeric /\ ~ InvalidInput e /\ ~ AttributeNotFound e)).
Proof.
  split; [|split].
  - intros ->. split; reflexivity.
  - intros before a after -> Hbefore Hmissing Hcond.
    split; [|exists a; reflexivity].
    rewrite analyze_nonempty by (destruct before; discriminate).
    rewrite for_in_app.
    assert (Hloop : exists bm, for_in before (analyze_step data target) [] = Ok bm).
    { destruct Hcond as [-> | Hnum]; [simpl; eauto|].
      apply (analyze_loop_present data target before [] Hbefore). exact Hnum. }
    destruct Hloop as (bm & ->). simpl.
    rewrite analyze_step_missing by exact Hmissing. reflexivity.
  - intros Hne Hall.
    rewrite analyze_nonempty by exact Hne.
    destruct (analyze_loop_present data target attrs [] Hall) as [Hok Herr].
    split.
    + intro Hnum. destruct (Hok Hnum) as (bm & ->). simpl. eauto.
    + intros e He.
      destruct (for_in attrs (analyze_step data target) []) as [bm|e'] eqn:E;
        simpl in He; [discriminate|].
      injection He as ->. destruct (Herr e eq_refl) as [-> _].
      split; [reflexivity|]. split.
      * unfold InvalidInput. simpl. discriminate.
      * intros (a & Ha). discriminate.
Qed.

(** Witness of the amended C5, on the frame of the repository's test: the
    empty list, the list ["gender"; "missing"], and the list ["gender"]. *)
Lemma analyze_validation_witness :
  fst (analyze init gender_frame [] (Some "target"))
    = Err (Raise ValueError empty_message) /\
  fst (analyze init gender_frame ["gender"; "missing"] (Some "target"))
    = Err (Raise ValueError (not_found_message "missing")) /\
  exists r, fst (analyze init gender_frame ["gender"] (Some "target")) = Ok r.
Proof.
  assert (Hnum : numeric_target gender_frame (Some "target")).
  { intros t cells Hw Hc. vm_compute in Hw. injection Hw as <-.
    vm_compute in Hc. discriminate. }
  split; [|split].
  - apply (analyze_validation init gender_frame [] (Some "target")). reflexivity.
  - destruct (analyze_validation init gender_frame ["gender"; "missing"]
                (Some "target")) as (_ & H & _).
    apply (H ["gender"] "missing" []).
    + reflexivity.
    + intros b [<-|[]]. reflexivity.
    + reflexivity.
    + right. exact Hnum.
  - destruct (analyze_validation init gender_frame ["gender"] (Some "target"))
      as (_ & _ & H).
    destruct H as [H _].
    + discriminate.
    + intros a [<-|[]]. reflexivity.
    + apply H. exact Hnum.
Defined.

(** C6: the recommendations are the matched messages, attribute after
    attribute in the order of the mapping and, within an attribute, the
    representation rule before the label rule; the default message stands
    alone when nothing matched.  The rebalancing message of an attribute is
    in the list exactly when its representation disparity ratio exceeds 2.0,
    its labeling message exactly when its label disparity ratio exceeds 1.5,
    and the list is the single default message exactly when no rule
    matched. *)
Theorem recommendations_follow_rules (bias_metrics : dict attribute_analysis) :
  _generate_recommendations bias_metrics
  = match matched_messages bias_metrics with
    | [] => [default_message]
    | matched => matched
    end /\
  (forall attr,
     In (representation_message attr) (_generate_recommendations bias_metrics) <->
     exists m, In (attr, m) bias_metrics /\ representation_rule m = true) /\
  (forall attr,
     In (label_message attr) (_generate_recommendations bias_metrics) <->
     exists m, In (attr, m) bias_metrics /\ label_rule m = true) /\
  (_generate_recommendations bias_metrics = [default_message] <->
   forall attr m, In (attr, m) bias_metrics ->
                  representation_rule m = false /\ label_rule m = false).
Proof.
  pose proof (generate_recommendations_matched bias_metrics) as Hgen.
  split; [exact Hgen|].
  rewrite Hgen.
  pose proof (in_matched_representation bias_metrics) as Hrep.
  pose proof (in_matched_label bias_metrics) as Hlab.
  pose proof (matched_nil bias_metrics) as Hnil.
  pose proof (default_not_matched bias_metrics) as Hdef.
  destruct (matched_messages bias_metrics) as [|msg rest] eqn:E.
  - split; [|split].
    + intro a. rewrite <- Hrep. split; [|intros []].
      intros [H|[]]. symmetry in H. exfalso. apply (representation_not_default _ H).
    + intro a. rewrite <- Hlab. split; [|intros []].
      intros [H|[]]. symmetry in H. exfalso. apply (label_not_default _ H).
    + split; [intros _; apply Hnil; reflexivity | reflexivity].
  - split; [exact Hrep|]. split; [exact Hlab|].
    split.
    + intro H. exfalso. apply Hdef. rewrite H. left. reflexivity.
    + intro H. apply Hnil in H. discriminate.
Qed.

(** Witness of C6: the analysis of the 90/10 frame has ratio 9, so its
    recommendations hold the rebalancing message for "group". *)
Lemma recommendations_follow_rules_witness :
  exists bm,
    fst (analyze init skewed_frame ["group"] None)
    = Ok {| dataset_size := 100;
            protected_attributes := ["group"];
            bias_metrics := bm;
            recommendations := [representation_message "group"] |} /\
    In (representation_message "group") (_generate_recommendations bm).
Proof.
  eexists. split; [vm_compute; reflexivity|].
  destruct (recommendations_follow_rules
    [("group",
      {| attribute := "group";
         group_distribution := [("A", Fin (9 # 10)); ("B", Fin (1 # 10))];
         group_counts := [("A", 90%nat); ("B", 10%nat)];
         rep_bias := {| max_proportion := Fin (9 # 10);
                        min_proportion := Fin (1 # 10);
                        disparity_ratio := Fin 9;
                        is_balanced := false |};
         label_bias := None |})]) as (_ & H & _).
  apply H. eexists. split; [left; reflexivity | reflexivity].
Defined.

(** C10: a call of [analyze] that returns a report leaves the detector with
    its former history followed by that report, and a call that raises
    leaves the detector as it was. *)
Theorem analyze_appends_returned_report (self : detector) (data : DataFrame)
    (attrs : list string) (target : option string) :
  (forall r, fst (analyze self data attrs target) = Ok r ->
     bias_reports (snd (analyze self data attrs target))
     = (bias_reports self ++ [r])%list) /\
  (forall e, fst (analyze self data attrs target) = Err e ->
     snd (analyze self data attrs target) = self).
Proof.
  destruct attrs as [|a attrs].
  - split; [intros r H; discriminate | reflexivity].
  - rewrite analyze_nonempty by discriminate.
    destruct (for_in (a :: attrs) (analyze_step data target) []) as [bm|e'];
      cbv zeta; cbn [fst snd].
    + split; [|intros e H; discriminate].
      intros r H. injection H as <-. reflexivity.
    + split; [intros r H; discriminate | reflexivity].
Qed.

(** Witness of C10: a second successful call on a detector that already
    holds one report, and a failing call on the same detector. *)
Lemma analyze_appends_returned_report_witness :
  exists r0 r,
    analyze init gender_frame ["gender"] None = (Ok r0, {| bias_reports := [r0] |}) /\
    fst (analyze {| bias_reports := [r0] |} gender_frame ["gender"] (Some "target"))
    = Ok r /\
    bias_reports
      (snd (analyze {| bias_reports := [r0] |} gender_frame ["gender"] (Some "target")))
    = ([r0] ++ [r])%list /\
    snd (analyze {| bias_reports := [r0] |} gender_frame ["absent"] None)
    = {| bias_reports := [r0] |}.
Proof.
  eexists. eexists.
  split; [vm_compute; reflexivity|].
  split; [vm_compute; reflexivity|].
  split.
  - refine (proj1 (analyze_appends_returned_report
                     {| bias_reports := [_] |} gender_frame ["gender"]
                     (Some "target")) _ _).
    vm_compute. reflexivity.
  - refine (proj2 (analyze_appends_returned_report
                     {| bias_reports := [_] |} gender_frame ["absent"] None)
                  (Raise ValueError (not_found_message "absent")) _).
    vm_compute. reflexivity.
Defined.

(* ================================================================== *)
(** * How far the two departures reach *)
(* ================================================================== *)

Lemma for_in_ok_each {A S : Type} (body : A -> S -> result S) (xs : list A)
    (s s' : S) (x : A) :
  for_in xs body s = Ok s' -> In x xs -> exists s0 s1, body x s0 = Ok s1.
Proof.
  revert s. induction xs as [|y xs IH]; intros s Hrun Hin; [destruct Hin|].
  simpl in Hrun. apply bind_ok in Hrun as (s1 & Hb & Hrest).
  destruct Hin as [<-|Hin]; [eauto | apply (IH s1 Hrest Hin)].
Qed.

Lemma unique_labels_zero (l : list Z) :
  Forall (fun v => v = 0%Z) l ->
  fold_right Sklearn.insert_label [] l = [] \/
  fold_right Sklearn.insert_label [] l = [0%Z].
Proof.
  induction l as [|x l IH]; intro H; simpl; [left; reflexivity|].
  inversion H as [|? ? -> Hl]; subst.
  destruct (IH Hl) as [-> | ->]; right; reflexivity.
Qed.

(** The labels and the predictions of a group are all 0: the flattened
    confusion matrix has at most one entry, and the four-name assignment
    fails. *)
Lemma unpack_all_negative (group_y_true group_y_pred : list Z) :
  Forall (fun v => v = 0%Z) group_y_true ->
  Forall (fun v => v = 0%Z) group_y_pred ->
  exists got,
    unpack4 (Sklearn.ravel (Sklearn.confusion_matrix group_y_true group_y_pred))
    = Err (Unpack 4 got).
Proof.
  intros Ht Hp. unfold Sklearn.confusion_matrix, Sklearn.unique_labels.
  destruct (unique_labels_zero (group_y_true ++ group_y_pred)) as [-> | ->].
  - apply Forall_app. split; assumption.
  - simpl. eauto.
  - simpl. eauto.
Qed.

(** Whatever the other groups are, a group without a positive label and
    without a positive prediction keeps equal opportunity and equalized odds
    from returning. *)
Lemma all_negative_group_never_returns
    (y_true y_pred : list Z) (protected_attr : list string) (g : string) :
  In g protected_attr ->
  Forall (fun v => v = 0%Z) (Np.select y_true (Np.eq_mask protected_attr g)) ->
  Forall (fun v => v = 0%Z) (Np.select y_pred (Np.eq_mask protected_attr g)) ->
  (forall r, equal_opportunity y_true y_pred protected_attr <> Ok r) /\
  (forall r, equalized_odds y_true y_pred protected_attr <> Ok r).
Proof.
  intros Hg Ht Hp.
  destruct (unpack_all_negative _ _ Ht Hp) as (got & Hun).
  apply unique_in in Hg.
  split; intros r H.
  - unfold equal_opportunity in H. apply bind_ok in H as (d & Hloop & _).
    destruct (for_in_ok_each _ _ _ _ g Hloop Hg) as (s0 & s1 & Hb).
    apply bind_ok in Hb as (gt & Hgt & Hb). apply index_ok in Hgt as [_ ->].
    apply bind_ok in Hb as (gp & Hgp & Hb). apply index_ok in Hgp as [_ ->].
    rewrite Hun in Hb. discriminate.
  - unfold equalized_odds in H. apply bind_ok in H as (d & Hloop & _).
    destruct (for_in_ok_each _ _ _ _ g Hloop Hg) as (s0 & s1 & Hb).
    apply bind_ok in Hb as (gt & Hgt & Hb). apply index_ok in Hgt as [_ ->].
    apply bind_ok in Hb as (gp & Hgp & Hb). apply index_ok in Hgp as [_ ->].
    rewrite Hun in Hb. discriminate.
Qed.

Lemma dict_get_set_same {V : Type} (d : dict V) (k : string) (v : V) :
  dict_get (dict_set d k v) k = Some v.
Proof.
  induction d as [|[k' v'] d IH]; simpl.
  - rewrite String.eqb_refl. reflexivity.
  - destruct (String.eqb k' k) eqn:E; simpl; rewrite E; [reflexivity | exact IH].
Qed.

Lemma dict_get_in {V : Type} (d : dict V) (k : string) (v : V) :
  dict_get d k = Some v -> In v (dict_values d).
Proof.
  unfold dict_values. induction d as [|[k' v'] d IH]; simpl; [discriminate|].
  destruct (String.eqb k' k); intro H; [injection H as <-; left; reflexivity|].
  right. apply IH. exact H.
Qed.

Lemma select_true_not_nil {A : Type} (xs : list A) (mask : list bool) :
  List.length xs = List.length mask ->
  (0 < List.length (filter (fun b => b) mask))%nat ->
  Np.select xs mask <> [].
Proof.
  revert xs. induction mask as [|b mask IH]; intros xs Hlen Hpos; simpl in Hpos.
  - lia.
  - destruct xs as [|x xs]; [discriminate|]. simpl in Hlen. simpl.
    destruct b; [discriminate|]. apply IH; [lia | exact Hpos].
Qed.

Lemma Qsum_indicator_nonneg (sel : list Z) :
  0 <= Np.Qsum (map (fun v => if Z.eqb v 1 then 1 else 0) sel).
Proof.
  induction sel as [|v sel IH]; simpl; [apply Qle_refl|].
  destruct (Z.eqb v 1); lra.
Qed.

(** The positive rate of a non-empty group: a finite number, not negative. *)
Lemma positive_rate_nonneg (sel : list Z) :
  sel <> [] ->
  exists q, Np.mean (map (fun v => if Z.eqb v 1 then 1 else 0) sel) = Fin q /\ 0 <= q.
Proof.
  intro Hne. destruct sel as [|v sel]; [congruence|].
  unfold Np.mean. cbn [map]. unfold float_of_Q.
  eexists. split; [reflexivity|]. rewrite Qred_correct.
  apply Qle_shift_div_l.
  - change 0 with (inject_Z 0). rewrite <- Zlt_Qlt. simpl List.length. lia.
  - rewrite Qmult_0_l.
    apply (Qsum_indicator_nonneg (v :: sel)).
Qed.

Lemma int64_entries_good (data : DataFrame) (values : list string) (t : string)
    (cells : list Z) (lb : dict label_bias_value) :
  get_column data t = Ok (IntCol int64 cells) ->
  List.length cells = List.length values ->
  for_in (Pandas.unique values) (label_bias_step data values t) [] = Ok lb ->
  Forall good_entry (dict_values lb).
Proof.
  intros Ht Hlen.
  apply (for_in_invariant _ (fun d => Forall good_entry (dict_values d)));
    [|constructor].
  intros g s s' _ Hs Hb. unfold label_bias_step in Hb.
  destruct (Nat.ltb 0 _) eqn:E; [|injection Hb as <-; exact Hs].
  apply Nat.ltb_lt in E.
  rewrite Ht in Hb. simpl in Hb. injection Hb as <-.
  apply dict_set_values; [exact Hs|].
  destruct (positive_rate_nonneg (Np.select cells (Np.eq_mask values g)))
    as (q & Hq & H0).
  { apply select_true_not_nil; [rewrite eq_mask_length; exact Hlen | exact E]. }
  unfold good_entry. rewrite Hq. eauto.
Qed.

(** The rates that survive the [or] and the None filter are positive. *)
Lemma surviving_rates_positive (values : list label_bias_value) :
  Forall good_entry values ->
  Forall (fun r => exists q, r = Fin q /\ 0 < q) (drop_none (map rate_of values)).
Proof.
  induction values as [|v values IH]; intro H; simpl; [constructor|].
  inversion H as [|? ? (n & q & -> & H0) Hrest]; subst.
  simpl. destruct (Qeq_bool q 0) eqn:E; simpl; [apply IH; exact Hrest|].
  constructor; [|apply IH; exact Hrest].
  exists q. split; [reflexivity|].
  apply Qeq_bool_neq in E. lra.
Qed.

(** The two ways out of the disparity block. *)
Lemma add_disparity_cases (d lb : dict label_bias_value) :
  add_disparity d = Ok lb ->
  lb = d \/
  exists mx mn,
    py_max (drop_none (map rate_of (dict_values d))) = Ok mx /\
    py_min (drop_none (map rate_of (dict_values d))) = Ok mn /\
    lb = dict_set d "disparity"
           (LBDisparity mx mn
              (if pf_gt mn (Fin 0) then pf_div mx mn else PInf)).
Proof.
  unfold add_disparity. intro H.
  destruct d as [|kv d]; [left; congruence|].
  cbv zeta in H.
  destruct (drop_none (map rate_of (dict_values (kv :: d)))) as [|x rates];
    [left; congruence|].
  right.
  apply bind_ok in H as (mx & Hmax & H).
  apply bind_ok in H as (mn & Hmin & H).
  exists mx, mn. split; [exact Hmax|]. split; [exact Hmin|].
  injection H as <-. reflexivity.
Qed.

(** On a frame whose columns are equally long, with an int64 target: the
    smallest rate stored under "disparity" is positive and the ratio is
    finite.  A group whose positive rate is 0 never takes part. *)
Lemma binary_label_disparity_never_infinite
    (data : DataFrame) (attr t : string) (c : column) (cells : list Z)
    (lb : dict label_bias_value) (mx mn ratio : pyfloat) :
  get_column data attr = Ok c ->
  get_column data t = Ok (IntCol int64 cells) ->
  List.length cells = List.length (group_values c) ->
  _calculate_label_bias data attr t = Ok lb ->
  dict_get lb "disparity" = Some (LBDisparity mx mn ratio) ->
  exists m q, mn = Fin m /\ 0 < m /\ ratio = Fin q.
Proof.
  intros Hc Ht Hlen H Hget. unfold _calculate_label_bias in H.
  rewrite Hc in H. simpl in H.
  apply bind_ok in H as (lb0 & Hloop & H).
  pose proof (int64_entries_good _ _ _ _ _ Ht Hlen Hloop) as Hgood.
  pose proof (surviving_rates_positive _ Hgood) as Hpos.
  apply add_disparity_cases in H as [-> | (mx' & mn' & Hmax & Hmin & ->)].
  { apply dict_get_in in Hget.
    rewrite Forall_forall in Hgood. destruct (Hgood _ Hget) as (n & q & Hv & _).
    discriminate. }
  rewrite dict_get_set_same in Hget. injection Hget as <- <- <-.
  set (rates := drop_none (map rate_of (dict_values lb0))) in *.
  assert (Hfin : Forall is_fin rates).
  { eapply Forall_impl; [|exact Hpos]. intros r (q & -> & _). exists q. reflexivity. }
  pose proof (py_max_ok_not_nil _ _ Hmax) as Hne.
  destruct (py_max_fin rates Hne Hfin) as (M & HM & _).
  destruct (py_min_fin rates Hne Hfin) as (m & Hm & Hin & _).
  rewrite HM in Hmax. injection Hmax as <-.
  rewrite Hm in Hmin. injection Hmin as <-.
  rewrite Forall_forall in Hpos. destruct (Hpos _ Hin) as (q & Hq & H0).
  injection Hq as <-.
  exists m. unfold pf_gt. simpl pf_lt.
  assert (E : Qlt_bool 0 m = true) by (apply Qlt_bool_iff; exact H0).
  rewrite E. simpl.
  assert (E0 : Qeq_bool m 0 = false).
  { destruct (Qeq_bool m 0) eqn:E1; [|reflexivity].
    apply Qeq_bool_iff in E1. lra. }
  rewrite E0. unfold float_of_Q. eexists. split; [reflexivity|].
  split; [exact H0 | reflexivity].
Qed.

(* ================================================================== *)
(** * Further lemmas on loops, dictionaries and groups *)
(* ================================================================== *)

Lemma for_in_ext {A S : Type} (body body' : A -> S -> result S) (xs : list A) (s : S) :
  (forall x t, In x xs -> body x t = body' x t) ->
  for_in xs body s = for_in xs body' s.
Proof.
  revert s. induction xs as [|x xs IH]; intros s H; simpl; [reflexivity|].
  rewrite (H x s (or_introl eq_refl)).
  destruct (body' x s) as [s'|e]; simpl; [|reflexivity].
  apply IH. intros y t Hy. apply H. right. exact Hy.
Qed.

(** Two loops over the same items whose iterations fail together and keep
    their states related end alike. *)
Lemma for_in_sim {A S T : Type} (R : S -> T -> Prop)
    (body : A -> S -> result S) (body' : A -> T -> result T) (xs : list A) :
  (forall x s t, In x xs -> R s t ->
     match body x s, body' x t with
     | Ok s', Ok t' => R s' t'
     | Err e, Err e' => e = e'
     | _, _ => False
     end) ->
  forall s t, R s t ->
    match for_in xs body s, for_in xs body' t with
    | Ok s', Ok t' => R s' t'
    | Err e, Err e' => e = e'
    | _, _ => False
    end.
Proof.
  induction xs as [|x xs IH]; intros Hstep s t Hst; simpl; [exact Hst|].
  specialize (Hstep x s t (or_introl eq_refl) Hst) as Hx.
  destruct (body x s) as [s'|e]; destruct (body' x t) as [t'|e']; simpl;
    try contradiction; [|exact Hx].
  apply IH; [|exact Hx].
  intros y s0 t0 Hy. apply Hstep. right. exact Hy.
Qed.

Lemma dict_set_fresh {V : Type} (d : dict V) (k : string) (v : V) :
  ~ In k (dict_keys d) -> dict_set d k v = (d ++ [(k, v)])%list.
Proof.
  unfold dict_keys. induction d as [|[k' v'] d IH]; simpl; intro H; [reflexivity|].
  destruct (String.eqb k' k) eqn:E.
  - apply String.eqb_eq in E. exfalso. apply H. left. exact E.
  - rewrite IH; [reflexivity|]. intro Hin. apply H. right. exact Hin.
Qed.

Lemma dict_set_keys {V : Type} (d : dict V) (k : string) (v : V) (a : string) :
  In a (dict_keys (dict_set d k v)) <-> a = k \/ In a (dict_keys d).
Proof.
  unfold dict_keys. induction d as [|[k' v'] d IH]; simpl.
  - intuition auto.
  - destruct (String.eqb k' k) eqn:E; simpl.
    + apply String.eqb_eq in E. subst k'. intuition auto.
    + rewrite IH. intuition auto.
Qed.

Lemma dict_set_nodup {V : Type} (d : dict V) (k : string) (v : V) :
  NoDup (dict_keys d) -> NoDup (dict_keys (dict_set d k v)).
Proof.
  induction d as [|[k' v'] d IH]; simpl; intro H.
  - constructor; [intros [] | constructor].
  - inversion H as [|? ? Hnot Hd]; subst.
    destruct (String.eqb k' k) eqn:E; simpl.
    + constructor; assumption.
    + constructor; [|apply IH; exact Hd].
      intro Hin. apply (dict_set_keys d k v k') in Hin as [Hin|Hin].
      * subst k'. rewrite String.eqb_refl in E. discriminate.
      * apply Hnot. exact Hin.
Qed.

Lemma dict_set_in {V : Type} (d : dict V) (k : string) (v : V) (a : string) (w : V) :
  In (a, w) (dict_set d k v) -> (a = k /\ w = v) \/ In (a, w) d.
Proof.
  induction d as [|[k' v'] d IH]; simpl.
  - intros [H|[]]. injection H as <- <-. auto.
  - destruct (String.eqb k' k) eqn:E; simpl.
    + apply String.eqb_eq in E. subst k'.
      intros [H|H]; [injection H as <- <-; auto | auto].
    + intros [H|H]; [auto|]. destruct (IH H) as [H'|H']; auto.
Qed.

Lemma nodup_keys_functional {V : Type} (d : dict V) (a : string) (v w : V) :
  NoDup (dict_keys d) -> In (a, v) d -> In (a, w) d -> v = w.
Proof.
  unfold dict_keys. induction d as [|[k' v'] d IH]; simpl; intros Hnd Hv Hw;
    [destruct Hv|].
  inversion Hnd as [|? ? Hnot Hd]; subst.
  destruct Hv as [Hv|Hv]; destruct Hw as [Hw|Hw].
  - congruence.
  - injection Hv as -> ->. exfalso. apply Hnot.
    apply in_map_iff. exists (a, w). auto.
  - injection Hw as -> ->. exfalso. apply Hnot.
    apply in_map_iff. exists (a, v). auto.
  - apply IH; assumption.
Qed.

(** A loop that stores one computed value per key, over distinct keys that
    are not yet in the dictionary, appends the keys in order. *)
Lemma for_in_dict_build {V : Type} (f : string -> result V) (gs : list string)
    (acc d : dict V) :
  for_in gs (fun g d => v <- f g ;; Ok (dict_set d g v)) acc = Ok d ->
  NoDup gs -> (forall g, In g gs -> ~ In g (dict_keys acc)) ->
  exists vs, d = (acc ++ combine gs vs)%list /\
             List.length vs = List.length gs /\
             Forall2 (fun g v => f g = Ok v) gs vs.
Proof.
  revert acc. induction gs as [|g gs IH]; intros acc Hrun Hnd Hfresh; simpl in Hrun.
  - injection Hrun as <-. exists []. rewrite app_nil_r. repeat split. constructor.
  - apply bind_ok in Hrun as (d1 & Hb & Hrest).
    apply bind_ok in Hb as (v & Hv & Hset). injection Hset as <-.
    inversion Hnd as [|? ? Hnot Hnd']; subst.
    rewrite dict_set_fresh in Hrest by (apply Hfresh; left; reflexivity).
    destruct (IH _ Hrest Hnd') as (vs & -> & Hlen & Hall).
    + intros g' Hg' Hin. unfold dict_keys in Hin. rewrite map_app in Hin.
      apply in_app_or in Hin as [Hin|[Hin|[]]].
      * apply (Hfresh g' (or_intror Hg')). exact Hin.
      * simpl in Hin. subst g'. contradiction.
    + exists (v :: vs). rewrite <- app_assoc. simpl.
      repeat split; [lia | constructor; assumption].
Qed.

(** ** The order of strings *)

Lemma ascii_compare_lt_trans (a b c : ascii) :
  Ascii.compare a b = Lt -> Ascii.compare b c = Lt -> Ascii.compare a c = Lt.
Proof.
  unfold Ascii.compare. rewrite !N.compare_lt_iff. apply N.lt_trans.
Qed.

Lemma string_compare_lt_trans (x y z : string) :
  String.compare x y = Lt -> String.compare y z = Lt -> String.compare x z = Lt.
Proof.
  revert y z. induction x as [|a x IH]; intros [|b y] [|c z]; simpl;
    intros Hxy Hyz; try congruence.
  destruct (Ascii.compare a b) eqn:Eab; try congruence;
    destruct (Ascii.compare b c) eqn:Ebc; try congruence.
  - apply Ascii.compare_eq_iff in Eab, Ebc. subst b c.
    replace (Ascii.compare a a) with Eq
      by (symmetry; unfold Ascii.compare; apply N.compare_refl).
    apply (IH y z); assumption.
  - apply Ascii.compare_eq_iff in Eab. subst b. rewrite Ebc. reflexivity.
  - apply Ascii.compare_eq_iff in Ebc. subst c. rewrite Eab. reflexivity.
  - rewrite (ascii_compare_lt_trans a b c Eab Ebc). reflexivity.
Qed.

Lemma string_compare_refl (x : string) : String.compare x x = Eq.
Proof.
  induction x as [|a x IH]; simpl; [reflexivity|].
  replace (Ascii.compare a a) with Eq
    by (symmetry; unfold Ascii.compare; apply N.compare_refl).
  exact IH.
Qed.

Lemma insert_uniq_increasing (x : string) (l : list string) :
  increasing l -> increasing (Np.insert_uniq x l).
Proof.
  unfold increasing. induction l as [|y l IH]; intro H; simpl.
  - constructor; [constructor | constructor].
  - inversion H as [|? ? Hl Hy]; subst.
    destruct (String.compare x y) eqn:E.
    + exact H.
    + constructor; [exact H|]. constructor; [exact E|].
      eapply Forall_impl; [|exact Hy]. intros z Hz.
      apply (string_compare_lt_trans x y z); assumption.
    + constructor; [apply IH; exact Hl|].
      apply Forall_forall. intros z Hz. apply insert_uniq_in in Hz as [->|Hz].
      * rewrite String.compare_antisym, E. reflexivity.
      * rewrite Forall_forall in Hy. apply Hy. exact Hz.
Qed.

(** [np.unique] returns its values in strictly increasing order. *)
Lemma unique_increasing (a : list string) : increasing (Np.unique a).
Proof.
  unfold Np.unique. induction a as [|x a IH]; simpl.
  - constructor.
  - apply insert_uniq_increasing. exact IH.
Qed.

Lemma increasing_nodup (l : list string) : increasing l -> NoDup l.
Proof.
  unfold increasing. induction 1 as [|y l Hl IH Hy]; constructor; [|exact IH].
  intro Hin. rewrite Forall_forall in Hy. specialize (Hy y Hin).
  rewrite string_compare_refl in Hy. discriminate.
Qed.

Lemma unique_nodup (a : list string) : NoDup (Np.unique a).
Proof. apply increasing_nodup, unique_increasing. Qed.

(* ================================================================== *)
(** * Further properties of the fairness calculators *)
(* ================================================================== *)

Lemma dict_set_map {V W : Type} (f : V -> W) (d : dict V) (k : string) (v : V) :
  dict_set (map (fun kv => (fst kv, f (snd kv))) d) k (f v)
  = map (fun kv => (fst kv, f (snd kv))) (dict_set d k v).
Proof.
  induction d as [|[k' v'] d IH]; simpl; [reflexivity|].
  destruct (String.eqb k' k); simpl; [reflexivity | rewrite IH; reflexivity].
Qed.

Lemma dict_values_map {V W : Type} (f : V -> W) (d : dict V) :
  dict_values (map (fun kv => (fst kv, f (snd kv))) d) = map f (dict_values d).
Proof.
  unfold dict_values. rewrite !map_map. reflexivity.
Qed.

Lemma py_max_min_same_length (l l' : list pyfloat) :
  List.length l = List.length l' ->
  (l = [] /\ l' = []) \/
  (exists a b c d, py_max l = Ok a /\ py_min l = Ok b /\
                   py_max l' = Ok c /\ py_min l' = Ok d).
Proof.
  destruct l as [|x l]; destruct l' as [|x' l']; simpl; try discriminate; intros _.
  - left. auto.
  - right. eauto 10.
Qed.

Lemma equal_opportunity_projection
    (y_true y_pred : list Z) (protected_attr : list string) :
  equal_opportunity y_true y_pred protected_attr
  = match equalized_odds y_true y_pred protected_attr with
    | Ok r => Ok (eopp_of_eodds r)
    | Err e => Err e
    end.
Proof.
  unfold equal_opportunity, equalized_odds.
  match goal with
  | |- bind (for_in _ ?b1 _) _ = match bind (for_in _ ?b2 _) _ with _ => _ end =>
      set (B1 := b1); set (B2 := b2)
  end.
  assert (Hsim :
    match for_in (Np.unique protected_attr) B2 [], 
          for_in (Np.unique protected_attr) B1 [] with
    | Ok d, Ok t => t = map (fun km => (fst km, gm_tpr (snd km))) d
    | Err e, Err e' => e = e'
    | _, _ => False
    end).
  { apply (for_in_sim
             (fun (d : dict group_metric) (t : dict pyfloat) =>
                t = map (fun km => (fst km, gm_tpr (snd km))) d));
      [|reflexivity].
    intros g d t _ ->. unfold B1, B2.
    destruct (Np.index y_true (Np.eq_mask protected_attr g)) as [gt|e]; simpl;
      [|reflexivity].
    destruct (Np.index y_pred (Np.eq_mask protected_attr g)) as [gp|e]; simpl;
      [|reflexivity].
    destruct (unpack4 _) as [[[[tn fp] fn] tp]|e]; simpl; [|reflexivity].
    exact (dict_set_map gm_tpr d g
             {| gm_tpr := rate tp (tp + fn); gm_fpr := rate fp (fp + tn);
                gm_tn := tn; gm_fp := fp; gm_fn := fn; gm_tp := tp |}). }
  destruct (for_in (Np.unique protected_attr) B2 []) as [d|e];
    destruct (for_in (Np.unique protected_attr) B1 []) as [t|e'];
    try contradiction; simpl.
  - subst t. rewrite dict_values_map.
    destruct (py_max_min_same_length
                (map gm_tpr (dict_values d)) (map gm_fpr (dict_values d)))
      as [[E1 E2] | (a & b & c & e & Ha & Hb & Hc & He)].
    + rewrite !length_map. reflexivity.
    + rewrite E1. reflexivity.
    + rewrite Ha, Hb, Hc, He. reflexivity.
  - subst e'. reflexivity.
Qed.

(** X1: equal opportunity is the true-positive half of equalized odds.  On
    the same arguments it raises the same exception when equalized odds
    raises, and otherwise returns the groups' TPRs, the TPR violation and the
    verdict on that violation alone; so a fair verdict of equalized odds
    entails a fair verdict of equal opportunity. *)
Theorem equal_opportunity_is_tpr_part_of_equalized_odds
    (y_true y_pred : list Z) (protected_attr : list string) :
  equal_opportunity y_true y_pred protected_attr
  = match equalized_odds y_true y_pred protected_attr with
    | Ok r => Ok (eopp_of_eodds r)
    | Err e => Err e
    end /\
  (forall r, equalized_odds y_true y_pred protected_attr = Ok r ->
             eodds_is_fair r = true ->
             exists r', equal_opportunity y_true y_pred protected_attr = Ok r' /\
                        eopp_is_fair r' = true /\
                        eopp_violation r' = tpr_violation r).
Proof.
  pose proof (equal_opportunity_projection y_true y_pred protected_attr) as Hmain.
  split; [exact Hmain|].
  intros r Hr Hfair. rewrite Hr in Hmain.
  exists (eopp_of_eodds r). split; [exact Hmain|]. split; [|reflexivity].
  unfold equalized_odds in Hr.
  apply bind_ok in Hr as (d & _ & Hr). cbv zeta in Hr.
  apply bind_ok in Hr as (mx & _ & Hr). apply bind_ok in Hr as (mn & _ & Hr).
  apply bind_ok in Hr as (fx & _ & Hr). apply bind_ok in Hr as (fn & _ & Hr).
  injection Hr as <-. simpl in *.
  apply andb_true_iff in Hfair as [Ht _]. exact Ht.
Qed.

(** Witness of X1 on the labels of [test_equal_opportunity]. *)
Lemma equal_opportunity_is_tpr_part_of_equalized_odds_witness :
  exists r',
    equal_opportunity [1; 1; 0; 0; 1; 0]%Z [1; 1; 0; 0; 1; 0]%Z
      ["A"; "A"; "A"; "B"; "B"; "B"] = Ok r' /\
    eopp_is_fair r' = true /\ eopp_violation r' = Fin 0.
Proof.
  destruct (equal_opportunity_is_tpr_part_of_equalized_odds
              [1; 1; 0; 0; 1; 0]%Z [1; 1; 0; 0; 1; 0]%Z
              ["A"; "A"; "A"; "B"; "B"; "B"]) as [_ H].
  apply (H {| group_metrics :=
                [("A", {| gm_tpr := Fin 1; gm_fpr := Fin 0; gm_tn := 1;
                          gm_fp := 0; gm_fn := 0; gm_tp := 2 |});
                 ("B", {| gm_tpr := Fin 1; gm_fpr := Fin 0; gm_tn := 2;
                          gm_fp := 0; gm_fn := 0; gm_tp := 1 |})];
              tpr_violation := Fin 0; fpr_violation := Fin 0;
              max_tpr_violation := Fin 0; max_fpr_violation := Fin 0;
              eodds_is_fair := true |}).
  - vm_compute. reflexivity.
  - reflexivity.
Defined.

(** ** The loops as one value per group *)

Lemma combine_keys {V : Type} (gs : list string) (vs : list V) :
  List.length vs = List.length gs -> dict_keys (combine gs vs) = gs.
Proof.
  unfold dict_keys. revert vs. induction gs as [|g gs IH]; intros [|v vs] H;
    simpl in *; try discriminate; try reflexivity.
  f_equal. apply IH. lia.
Qed.

Lemma combine_values {V : Type} (gs : list string) (vs : list V) :
  List.length vs = List.length gs -> dict_values (combine gs vs) = vs.
Proof.
  unfold dict_values. revert vs. induction gs as [|g gs IH]; intros [|v vs] H;
    simpl in *; try discriminate; try reflexivity.
  f_equal. apply IH. lia.
Qed.

Lemma forall2_combine {V : Type} (P : string -> V -> Prop) (gs : list string)
    (vs : list V) (g : string) (v : V) :
  Forall2 P gs vs -> In (g, v) (combine gs vs) -> P g v.
Proof.
  induction 1 as [|g' v' gs vs Hp Hrest IH]; simpl; [tauto|].
  intros [H|H]; [injection H as <- <-; exact Hp | apply IH; exact H].
Qed.

Lemma equalized_odds_groups (y_true y_pred : list Z) (protected_attr : list string)
    (r : eodds_result) :
  equalized_odds y_true y_pred protected_attr = Ok r ->
  exists vs,
    group_metrics r = combine (Np.unique protected_attr) vs /\
    List.length vs = List.length (Np.unique protected_attr) /\
    Forall2 (fun g m => group_metric_for y_true y_pred protected_attr g = Ok m)
            (Np.unique protected_attr) vs.
Proof.
  unfold equalized_odds. intro H.
  apply bind_ok in H as (d & Hloop & H). cbv zeta in H.
  apply bind_ok in H as (mx & _ & H). apply bind_ok in H as (mn & _ & H).
  apply bind_ok in H as (fx & _ & H). apply bind_ok in H as (fn & _ & H).
  injection H as <-. simpl.
  rewrite (for_in_ext _
             (fun g d => v <- group_metric_for y_true y_pred protected_attr g ;;
                         Ok (dict_set d g v))) in Hloop.
  - apply for_in_dict_build in Hloop as (vs & -> & Hlen & Hall);
      [| apply unique_nodup | intros g _ []].
    exists vs. auto.
  - intros g t _. unfold group_metric_for.
    destruct (Np.index y_true _) as [gt|e]; simpl; [|reflexivity].
    destruct (Np.index y_pred _) as [gp|e]; simpl; [|reflexivity].
    destruct (unpack4 _) as [[[[tn fp] fn'] tp]|e]; reflexivity.
Qed.

Lemma demographic_parity_groups (y_pred : list Z) (protected_attr : list string)
    (r : dp_result) :
  demographic_parity y_pred protected_attr = Ok r ->
  exists vs,
    positive_rates r = combine (Np.unique protected_attr) vs /\
    List.length vs = List.length (Np.unique protected_attr) /\
    Forall2 (fun g x => positive_rate_for y_pred protected_attr g = Ok x)
            (Np.unique protected_attr) vs.
Proof.
  unfold demographic_parity. intro H.
  apply bind_ok in H as (d & Hloop & H). cbv zeta in H.
  apply bind_ok in H as (mx & _ & H). apply bind_ok in H as (mn & _ & H).
  injection H as <-. simpl.
  rewrite (for_in_ext _
             (fun g d => v <- positive_rate_for y_pred protected_attr g ;;
                         Ok (dict_set d g v))) in Hloop.
  - apply for_in_dict_build in Hloop as (vs & -> & Hlen & Hall);
      [| apply unique_nodup | intros g _ []].
    exists vs. auto.
  - intros g t _. unfold positive_rate_for.
    destruct (Np.index y_pred _) as [sel|e]; reflexivity.
Qed.

Lemma calibration_groups (y_true : list Z) (y_pred_proba : list Q)
    (protected_attr : list string) (r : calibration_result) :
  calibration y_true y_pred_proba protected_attr = Ok r ->
  exists vs,
    group_calibration r = combine (Np.unique protected_attr) vs /\
    List.length vs = List.length (Np.unique protected_attr) /\
    Forall2 (fun g x => calibration_for y_true y_pred_proba protected_attr g = Ok x)
            (Np.unique protected_attr) vs.
Proof.
  unfold calibration. intro H.
  apply bind_ok in H as (d & Hloop & H). cbv zeta in H.
  apply bind_ok in H as (mx & _ & H).
  injection H as <-. simpl.
  rewrite (for_in_ext _
             (fun g d => v <- calibration_for y_true y_pred_proba protected_attr g ;;
                         Ok (dict_set d g v))) in Hloop.
  - apply for_in_dict_build in Hloop as (vs & -> & Hlen & Hall);
      [| apply unique_nodup | intros g _ []].
    exists vs. auto.
  - intros g t _. unfold calibration_for.
    destruct (Np.index y_true _) as [gt|e]; simpl; [|reflexivity].
    destruct (Np.index y_pred_proba _) as [gp|e]; reflexivity.
Qed.

(** ** Confusion counts *)

Lemma insert_label_in (x y : Z) (l : list Z) :
  In x (Sklearn.insert_label y l) <-> x = y \/ In x l.
Proof.
  induction l as [|z l IH]; simpl.
  - intuition auto.
  - destruct (Z.compare y z) eqn:E; simpl.
    + apply Z.compare_eq in E. subst z. intuition auto.
    + intuition auto.
    + rewrite IH. intuition auto.
Qed.

Lemma unique_int_in (x : Z) (l : list Z) : In x (unique_int l) <-> In x l.
Proof.
  unfold unique_int. induction l as [|y l IH]; simpl; [tauto|].
  rewrite insert_label_in, IH. intuition auto.
Qed.

Lemma insert_label_sorted (y : Z) (l : list Z) :
  StronglySorted Z.lt l -> StronglySorted Z.lt (Sklearn.insert_label y l).
Proof.
  induction l as [|z l IH]; intro H; simpl.
  - constructor; constructor.
  - inversion H as [|? ? Hl Hz]; subst.
    destruct (Z.compare y z) eqn:E.
    + exact H.
    + assert (Hyz : (y < z)%Z) by (apply Z.compare_lt_iff; exact E).
      constructor; [exact H|]. constructor; [exact Hyz|].
      apply Forall_forall. intros w Hw. rewrite Forall_forall in Hz.
      specialize (Hz w Hw). lia.
    + assert (Hzy : (z < y)%Z) by (apply Z.compare_gt_iff; exact E).
      constructor; [apply IH; exact Hl|].
      apply Forall_forall. intros w Hw. apply insert_label_in in Hw as [->|Hw].
      * exact Hzy.
      * rewrite Forall_forall in Hz. apply Hz. exact Hw.
Qed.

Lemma unique_int_sorted (l : list Z) : StronglySorted Z.lt (unique_int l).
Proof.
  unfold unique_int. induction l as [|y l IH]; simpl.
  - constructor.
  - apply insert_label_sorted. exact IH.
Qed.

Lemma unpack4_ok (l : list Z) (a b c d : Z) :
  unpack4 l = Ok (a, b, c, d) -> l = [a; b; c; d].
Proof.
  destruct l as [|x1 [|x2 [|x3 [|x4 [|x5 l]]]]]; simpl; intro H; try discriminate.
  injection H as <- <- <- <-. reflexivity.
Qed.

(** The four names receive the counts of the pairs over two distinct labels,
    the smaller label first, and both labels cover the group. *)
Lemma four_counts (group_y_true group_y_pred : list Z) (tn fp fn tp : Z) :
  unpack4 (Sklearn.ravel (Sklearn.confusion_matrix group_y_true group_y_pred))
  = Ok (tn, fp, fn, tp) ->
  exists a b,
    (a < b)%Z /\
    (forall v, In v (group_y_true ++ group_y_pred)%list -> v = a \/ v = b) /\
    tn = Sklearn.count_pairs group_y_true group_y_pred a a /\
    fp = Sklearn.count_pairs group_y_true group_y_pred a b /\
    fn = Sklearn.count_pairs group_y_true group_y_pred b a /\
    tp = Sklearn.count_pairs group_y_true group_y_pred b b.
Proof.
  unfold Sklearn.confusion_matrix, Sklearn.unique_labels.
  pose proof (unique_int_sorted (group_y_true ++ group_y_pred)) as Hs.
  pose proof (fun v => unique_int_in v (group_y_true ++ group_y_pred)) as Hin.
  unfold unique_int in Hs, Hin.
  destruct (fold_right Sklearn.insert_label [] (group_y_true ++ group_y_pred)%list)
    as [|a [|b [|c rest]]]; simpl; intro H; try discriminate.
  - injection H as <- <- <- <-. exists a, b.
    inversion Hs as [|? ? _ Hab]; subst. inversion Hab as [|? ? Hlt _]; subst.
    split; [exact Hlt|]. split; [|auto].
    intros v Hv. apply Hin in Hv. simpl in Hv. intuition auto.
  - destruct rest as [|d [|e rest]]; simpl in H; discriminate.
Qed.

Lemma count_pairs_nonneg (t p : list Z) (a b : Z) :
  (0 <= Sklearn.count_pairs t p a b)%Z.
Proof. unfold Sklearn.count_pairs. lia. Qed.

(** Over two distinct labels that cover both lists, the four counts add up
    to the number of pairs. *)
Lemma count_pairs_total (t p : list Z) (a b : Z) :
  a <> b ->
  (forall v, In v (t ++ p)%list -> v = a \/ v = b) ->
  List.length t = List.length p ->
  (Sklearn.count_pairs t p a a + Sklearn.count_pairs t p a b +
   Sklearn.count_pairs t p b a + Sklearn.count_pairs t p b b)%Z
  = Z.of_nat (List.length t).
Proof.
  intros Hab. unfold Sklearn.count_pairs.
  revert p. induction t as [|x t IH]; intros [|y p] Hcov Hlen;
    simpl in Hlen; try discriminate; [reflexivity|].
  assert (IH' := IH p).
  assert (Hcov' : forall v, In v (t ++ p)%list -> v = a \/ v = b).
  { intros v Hv. apply Hcov. simpl. right.
    apply in_app_or in Hv as [Hv|Hv]; apply in_or_app; [left | right; right];
      exact Hv. }
  specialize (IH' Hcov' ltac:(lia)).
  assert (Hx : x = a \/ x = b) by (apply Hcov; left; reflexivity).
  assert (Hy : y = a \/ y = b).
  { apply Hcov. simpl. right. apply in_or_app. right. left. reflexivity. }
  cbn [combine filter fst snd].
  assert (Eab : Z.eqb a b = false) by (apply Z.eqb_neq; exact Hab).
  assert (Eba : Z.eqb b a = false) by (apply Z.eqb_neq; congruence).
  destruct Hx as [-> | ->]; destruct Hy as [-> | ->];
    rewrite ?Z.eqb_refl, ?Eab, ?Eba; cbn [andb List.length];
    rewrite ?Nat2Z.inj_succ; lia.
Qed.

Lemma select_length {A : Type} (xs : list A) (mask : list bool) :
  List.length xs = List.length mask ->
  List.length (Np.select xs mask) = List.length (filter (fun b => b) mask).
Proof.
  revert xs. induction mask as [|b mask IH]; intros [|x xs] H; simpl in *;
    try discriminate; try reflexivity.
  destruct b; simpl; rewrite IH by lia; reflexivity.
Qed.

Lemma rate_unit_interval (n k : Z) :
  (0 <= n)%Z -> (0 <= k)%Z -> unit_interval (rate n (n + k)).
Proof.
  intros Hn Hk. unfold rate, unit_interval.
  destruct (Z.ltb 0 (n + k)) eqn:E.
  - apply Z.ltb_lt in E. unfold int_div, float_of_Q.
    eexists. split; [reflexivity|]. rewrite Qred_correct.
    assert (Hd : 0 < inject_Z (n + k)).
    { change 0 with (inject_Z 0). rewrite <- Zlt_Qlt. exact E. }
    split.
    + apply Qle_shift_div_l; [exact Hd|]. rewrite Qmult_0_l.
      change 0 with (inject_Z 0). rewrite <- Zle_Qle. exact Hn.
    + apply Qle_shift_div_r; [exact Hd|]. rewrite Qmult_1_l.
      rewrite <- Zle_Qle. lia.
  - exists 0. split; [reflexivity|]. split; [apply Qle_refl | discriminate].
Qed.

(** What is stored for a group that the loop of [equalized_odds] gets
    through: counts that are not negative and add up to the size of the
    group, and rates between 0 and 1. *)
Lemma group_metric_for_facts (y_true y_pred : list Z) (protected_attr : list string)
    (g : string) (m : group_metric) :
  group_metric_for y_true y_pred protected_attr g = Ok m ->
  (0 <= gm_tn m)%Z /\ (0 <= gm_fp m)%Z /\ (0 <= gm_fn m)%Z /\ (0 <= gm_tp m)%Z /\
  metric_total m = Z.of_nat (group_size protected_attr g) /\
  unit_interval (gm_tpr m) /\ unit_interval (gm_fpr m).
Proof.
  unfold group_metric_for. intro H.
  apply bind_ok in H as (gt & Hgt & H). apply index_ok in Hgt as [Hlt ->].
  apply bind_ok in H as (gp & Hgp & H). apply index_ok in Hgp as [Hlp ->].
  apply bind_ok in H as ([[[tn fp] fn] tp] & Hun & H). injection H as <-.
  destruct (four_counts _ _ _ _ _ _ Hun) as (a & b & Hab & Hcov & -> & -> & -> & ->).
  unfold metric_total. cbn [gm_tn gm_fp gm_fn gm_tp gm_tpr gm_fpr].
  do 4 (split; [apply count_pairs_nonneg|]).
  split; [|split; apply rate_unit_interval; apply count_pairs_nonneg].
  rewrite count_pairs_total; [| lia | exact Hcov |].
  - unfold group_size. rewrite select_length by exact Hlt. reflexivity.
  - rewrite !select_length by assumption. reflexivity.
Qed.

(** ** Groups as a partition of the samples *)

Lemma indicator_sum (x : string) (l : list string) :
  NoDup l ->
  list_sum (map (fun g => if String.eqb x g then 1 else 0)%nat l)
  = if existsb (String.eqb x) l then 1%nat else 0%nat.
Proof.
  induction 1 as [|g l Hnot Hnd IH]; simpl; [reflexivity|].
  rewrite IH. destruct (String.eqb x g) eqn:E; simpl; [|reflexivity].
  apply String.eqb_eq in E. subst g.
  destruct (existsb (String.eqb x) l) eqn:Ex; [|reflexivity].
  apply existsb_exists in Ex as (y & Hy & Hxy).
  apply String.eqb_eq in Hxy. subst y. contradiction.
Qed.

Lemma list_sum_add (f h : string -> nat) (l : list string) :
  list_sum (map (fun g => f g + h g)%nat l)
  = (list_sum (map f l) + list_sum (map h l))%nat.
Proof.
  induction l as [|g l IH]; simpl; [reflexivity | rewrite IH; lia].
Qed.

(** Distinct group values that cover the samples split them: the sizes of
    the groups add up to the number of samples. *)
Lemma group_sizes_sum (l s : list string) :
  NoDup l -> (forall x, In x s -> In x l) ->
  list_sum (map (group_size s) l) = List.length s.
Proof.
  intros Hnd. induction s as [|x s IH]; intro Hcov.
  - clear Hnd Hcov. induction l as [|g l IHl]; [reflexivity | exact IHl].
  - rewrite (map_ext (group_size (x :: s))
               (fun g => (if String.eqb x g then 1 else 0) + group_size s g)%nat).
    + rewrite list_sum_add, indicator_sum by exact Hnd.
      rewrite IH by (intros y Hy; apply Hcov; right; exact Hy).
      assert (Hx : existsb (String.eqb x) l = true).
      { apply existsb_exists. exists x. split; [apply Hcov; left; reflexivity|].
        apply String.eqb_refl. }
      rewrite Hx. reflexivity.
    + intro g. unfold group_size. simpl.
      destruct (String.eqb x g); reflexivity.
Qed.

Lemma unique_group_sizes_sum (protected_attr : list string) :
  list_sum (map (group_size protected_attr) (Np.unique protected_attr))
  = List.length protected_attr.
Proof.
  apply group_sizes_sum; [apply unique_nodup|].
  intros x Hx. apply unique_in. exact Hx.
Qed.

Lemma Zsum_of_nat (f : string -> nat) (l : list string) :
  Zsum (map (fun g => Z.of_nat (f g)) l) = Z.of_nat (list_sum (map f l)).
Proof.
  unfold Zsum. induction l as [|g l IH]; simpl; [reflexivity|].
  rewrite IH. lia.
Qed.

Lemma forall2_map_eq {A B C : Type} (f : A -> C) (h : B -> C)
    (xs : list A) (ys : list B) :
  Forall2 (fun x y => h y = f x) xs ys -> map h ys = map f xs.
Proof.
  induction 1; simpl; [reflexivity | congruence].
Qed.

(** X2: in a result of equalized odds the four counts of every group are
    not negative, the TPR and the FPR of every group lie between 0 and 1, and
    neither violation exceeds 1. *)
Theorem equalized_odds_rates_in_unit_interval
    (y_true y_pred : list Z) (protected_attr : list string) (r : eodds_result) :
  equalized_odds y_true y_pred protected_attr = Ok r ->
  (forall g m, In (g, m) (group_metrics r) ->
     (0 <= gm_tn m)%Z /\ (0 <= gm_fp m)%Z /\ (0 <= gm_fn m)%Z /\ (0 <= gm_tp m)%Z /\
     unit_interval (gm_tpr m) /\ unit_interval (gm_fpr m)) /\
  (exists v w, tpr_violation r = Fin v /\ 0 <= v /\ v <= 1 /\
               fpr_violation r = Fin w /\ 0 <= w /\ w <= 1).
Proof.
  intro H.
  destruct (equalized_odds_groups _ _ _ _ H) as (vs & Hgm & Hlen & Hall).
  assert (Hfacts : forall g m, In (g, m) (group_metrics r) ->
            (0 <= gm_tn m)%Z /\ (0 <= gm_fp m)%Z /\ (0 <= gm_fn m)%Z /\
            (0 <= gm_tp m)%Z /\ unit_interval (gm_tpr m) /\ unit_interval (gm_fpr m)).
  { intros g m Hin. rewrite Hgm in Hin.
    pose proof (forall2_combine _ _ _ _ _ Hall Hin) as Hm. cbv beta in Hm.
    destruct (group_metric_for_facts _ _ _ _ _ Hm) as (? & ? & ? & ? & _ & ? & ?).
    auto 10. }
  split; [exact Hfacts|].
  assert (Hval : forall m, In m (dict_values (group_metrics r)) ->
                 unit_interval (gm_tpr m) /\ unit_interval (gm_fpr m)).
  { intros m Hm. unfold dict_values in Hm. apply in_map_iff in Hm as ([g m'] & <- & Hin).
    destruct (Hfacts g m' Hin) as (_ & _ & _ & _ & Ht & Hf). auto. }
  destruct (equalized_odds_spread _ _ _ _ H) as (Ht & Hf & _).
  destruct Ht as (M & m & v & [HM _] & [Hm _] & Hv & Hd & H0 & _).
  destruct Hf as (M' & m' & w & [HM' _] & [Hm' _] & Hw & Hd' & Hw0 & _).
  exists v, w.
  apply in_map_iff in HM as (x & Hx & Hxin). apply in_map_iff in Hm as (x0 & Hx0 & Hx0in).
  apply in_map_iff in HM' as (z & Hz & Hzin). apply in_map_iff in Hm' as (z0 & Hz0 & Hz0in).
  destruct (Hval x Hxin) as [(q & Hq & _ & Hq1) _].
  destruct (Hval x0 Hx0in) as [(q0 & Hq0 & Hq00 & _) _].
  destruct (Hval z Hzin) as [_ (p & Hp & _ & Hp1)].
  destruct (Hval z0 Hz0in) as [_ (p0 & Hp0 & Hp00 & _)].
  rewrite Hx in Hq. injection Hq as <-. rewrite Hx0 in Hq0. injection Hq0 as <-.
  rewrite Hz in Hp. injection Hp as <-. rewrite Hz0 in Hp0. injection Hp0 as <-.
  repeat split; auto; lra.
Qed.

(** Witness of X2. *)
Lemma equalized_odds_rates_in_unit_interval_witness :
  exists v w, Fin 1 = Fin v /\ 0 <= v /\ v <= 1 /\
              Fin (1 # 2) = Fin w /\ 0 <= w /\ w <= 1.
Proof.
  apply (equalized_odds_rates_in_unit_interval
           [0; 0; 1; 0]%Z [0; 1; 1; 0]%Z ["A"; "A"; "B"; "B"]
           {| group_metrics :=
                [("A", {| gm_tpr := Fin 0; gm_fpr := Fin (1 # 2); gm_tn := 1;
                          gm_fp := 1; gm_fn := 0; gm_tp := 0 |});
                 ("B", {| gm_tpr := Fin 1; gm_fpr := Fin 0; gm_tn := 1;
                          gm_fp := 0; gm_fn := 0; gm_tp := 1 |})];
              tpr_violation := Fin 1; fpr_violation := Fin (1 # 2);
              max_tpr_violation := Fin 1; max_fpr_violation := Fin (1 # 2);
              eodds_is_fair := false |}).
  vm_compute. reflexivity.
Defined.

(** X3: in a result of equalized odds there is one entry per distinct group
    value, in sorted order; the four counts of a group add up to the number
    of samples of the group, and over all the groups to the number of
    samples: no sample is left out or counted twice. *)
Theorem equalized_odds_counts_partition
    (y_true y_pred : list Z) (protected_attr : list string) (r : eodds_result) :
  equalized_odds y_true y_pred protected_attr = Ok r ->
  dict_keys (group_metrics r) = Np.unique protected_attr /\
  (forall g m, In (g, m) (group_metrics r) ->
     metric_total m = Z.of_nat (group_size protected_attr g)) /\
  Zsum (map metric_total (dict_values (group_metrics r)))
  = Z.of_nat (List.length protected_attr).
Proof.
  intro H.
  destruct (equalized_odds_groups _ _ _ _ H) as (vs & Hgm & Hlen & Hall).
  rewrite Hgm. split; [apply combine_keys; exact Hlen|]. split.
  - intros g m Hin.
    pose proof (forall2_combine _ _ _ _ _ Hall Hin) as Hm. cbv beta in Hm.
    apply group_metric_for_facts in Hm. tauto.
  - rewrite combine_values by exact Hlen.
    rewrite (forall2_map_eq (fun g => Z.of_nat (group_size protected_attr g))
               metric_total (Np.unique protected_attr) vs).
    + rewrite Zsum_of_nat, unique_group_sizes_sum. reflexivity.
    + eapply Forall2_impl; [|exact Hall]. intros g m Hm.
      apply group_metric_for_facts in Hm. tauto.
Qed.

(** Witness of X3. *)
Lemma equalized_odds_counts_partition_witness :
  Zsum (map metric_total
          [{| gm_tpr := Fin 0; gm_fpr := Fin (1 # 2); gm_tn := 1;
              gm_fp := 1; gm_fn := 0; gm_tp := 0 |};
           {| gm_tpr := Fin 1; gm_fpr := Fin 0; gm_tn := 1;
              gm_fp := 0; gm_fn := 0; gm_tp := 1 |}]) = 4%Z.
Proof.
  apply (equalized_odds_counts_partition
           [0; 0; 1; 0]%Z [0; 1; 1; 0]%Z ["A"; "A"; "B"; "B"]
           {| group_metrics :=
                [("A", {| gm_tpr := Fin 0; gm_fpr := Fin (1 # 2); gm_tn := 1;
                          gm_fp := 1; gm_fn := 0; gm_tp := 0 |});
                 ("B", {| gm_tpr := Fin 1; gm_fpr := Fin 0; gm_tn := 1;
                          gm_fp := 0; gm_fn := 0; gm_tp := 1 |})];
              tpr_violation := Fin 1; fpr_violation := Fin (1 # 2);
              max_tpr_violation := Fin 1; max_fpr_violation := Fin (1 # 2);
              eodds_is_fair := false |}).
  vm_compute. reflexivity.
Defined.

(** ** Demographic parity: the ratio, and binary predictions *)

(** X4: the parity ratio of demographic parity is infinite when the
    smallest positive rate is not above 0; otherwise it is a finite number
    that is at least 1, and it is 1 when the largest and the smallest rate
    are equal. *)
Theorem parity_ratio_infinite_or_at_least_one
    (y_pred : list Z) (protected_attr : list string) (r : dp_result) :
  demographic_parity y_pred protected_attr = Ok r ->
  exists M m,
    largest (dict_values (positive_rates r)) M /\
    smallest (dict_values (positive_rates r)) m /\
    (m <= 0 -> parity_ratio r = PInf) /\
    (0 < m -> exists q, parity_ratio r = Fin q /\ 1 <= q /\ (M == m -> q == 1)).
Proof.
  unfold demographic_parity. intro H.
  apply bind_ok in H as (d & Hloop & H). cbv zeta in H.
  apply bind_ok in H as (mx & Hmax & H).
  apply bind_ok in H as (mn & Hmin & H).
  injection H as <-. simpl.
  pose proof (dp_rates_fin _ _ _ Hloop) as Hfin.
  pose proof (py_max_ok_not_nil _ _ Hmax) as Hne.
  destruct (py_max_fin _ Hne Hfin) as (M & HM & HMin & HMub).
  destruct (py_min_fin _ Hne Hfin) as (m & Hm & Hmin' & Hmlb).
  rewrite HM in Hmax. injection Hmax as <-.
  rewrite Hm in Hmin. injection Hmin as <-.
  exists M, m. split; [split; assumption|]. split; [split; assumption|].
  unfold ratio_or_inf, pf_gt. simpl pf_lt. split.
  - intro Hle. apply Qlt_bool_false in Hle. rewrite Hle. reflexivity.
  - intro Hpos. assert (E : Qlt_bool 0 m = true) by (apply Qlt_bool_iff; exact Hpos).
    rewrite E. simpl.
    assert (E0 : Qeq_bool m 0 = false).
    { destruct (Qeq_bool m 0) eqn:E1; [|reflexivity].
      apply Qeq_bool_iff in E1. lra. }
    rewrite E0. unfold float_of_Q. eexists. split; [reflexivity|].
    rewrite Qred_correct. split.
    + apply Qle_shift_div_l; [exact Hpos|]. rewrite Qmult_1_l.
      apply HMub. exact Hmin'.
    + intro Heq. rewrite Heq. field. lra.
Qed.

(** Witness of X4 on the scenario of the repository's test. *)
Lemma parity_ratio_infinite_or_at_least_one_witness :
  exists M m,
    largest [Fin 1; Fin (1 # 5)] M /\ smallest [Fin 1; Fin (1 # 5)] m /\
    (m <= 0 -> Fin 5 = PInf) /\
    (0 < m -> exists q, Fin 5 = Fin q /\ 1 <= q /\ (M == m -> q == 1)).
Proof.
  apply (parity_ratio_infinite_or_at_least_one
           (repeat 1%Z 60 ++ repeat 0%Z 40)%list
           (repeat "A" 50 ++ repeat "B" 50)%list
           {| positive_rates := [("A", Fin 1); ("B", Fin (1 # 5))];
              parity_ratio := Fin 5;
              dp_violation := Fin (4 # 5);
              dp_is_fair := false |}).
  vm_compute. reflexivity.
Defined.

Lemma select_forall {A : Type} (P : A -> Prop) (xs : list A) (mask : list bool) :
  Forall P xs -> Forall P (Np.select xs mask).
Proof.
  revert mask. induction xs as [|x xs IH]; intros [|b mask] H; simpl;
    try constructor.
  inversion H; subst. destruct b; [constructor; auto | auto].
Qed.

Lemma Qsum_binary (l : list Z) :
  Forall (fun v => v = 0%Z \/ v = 1%Z) l ->
  0 <= Np.Qsum (map inject_Z l) /\
  Np.Qsum (map inject_Z l) <= inject_Z (Z.of_nat (List.length l)).
Proof.
  induction 1 as [|v l Hv Hl [IH0 IH1]].
  - simpl. split; [apply Qle_refl | apply Qle_refl].
  - cbn [map List.length]. unfold Np.Qsum in *. cbn [fold_right].
    rewrite Nat2Z.inj_succ, <- Z.add_1_r, inject_Z_plus.
    set (S := fold_right Qplus 0 (map inject_Z l)) in *.
    set (L := inject_Z (Z.of_nat (List.length l))) in *.
    change (inject_Z 1) with 1.
    destruct Hv as [-> | ->];
      [change (inject_Z 0) with 0 | change (inject_Z 1) with 1]; split; lra.
Qed.

Lemma mean_binary (l : list Z) :
  l <> [] -> Forall (fun v => v = 0%Z \/ v = 1%Z) l -> unit_interval (Np.mean_int l).
Proof.
  intros Hne Hb. destruct (Qsum_binary l Hb) as [H0 H1].
  unfold Np.mean_int, Np.mean.
  destruct l as [|v l]; [congruence|]. cbn [map].
  rewrite <- (length_map inject_Z (v :: l)) in H1. cbn [map] in H0, H1.
  unfold unit_interval, float_of_Q. eexists. split; [reflexivity|].
  rewrite Qred_correct.
  assert (Hd : 0 < inject_Z (Z.of_nat (List.length (inject_Z v :: map inject_Z l)))).
  { change 0 with (inject_Z 0). rewrite <- Zlt_Qlt. simpl List.length. lia. }
  split.
  - apply Qle_shift_div_l; [exact Hd|]. rewrite Qmult_0_l. exact H0.
  - apply Qle_shift_div_r; [exact Hd|]. rewrite Qmult_1_l. exact H1.
Qed.

(** X5: with predictions that are all 0 or 1, every positive rate that
    demographic parity reports lies between 0 and 1, its violation is at most
    1, and each rate is the mean of the predictions of its group. *)
Theorem demographic_parity_binary_rates
    (y_pred : list Z) (protected_attr : list string) (r : dp_result) :
  Forall (fun v => v = 0%Z \/ v = 1%Z) y_pred ->
  demographic_parity y_pred protected_attr = Ok r ->
  dict_keys (positive_rates r) = Np.unique protected_attr /\
  (forall g x, In (g, x) (positive_rates r) ->
     x = Np.mean_int (Np.select y_pred (Np.eq_mask protected_attr g)) /\
     unit_interval x) /\
  (exists v, dp_violation r = Fin v /\ 0 <= v /\ v <= 1).
Proof.
  intros Hbin H.
  destruct (demographic_parity_groups _ _ _ H) as (vs & Hpr & Hlen & Hall).
  assert (Hfacts : forall g x, In (g, x) (positive_rates r) ->
            x = Np.mean_int (Np.select y_pred (Np.eq_mask protected_attr g)) /\
            unit_interval x).
  { intros g x Hin. rewrite Hpr in Hin.
    assert (Hg : In g (Np.unique protected_attr)) by (eapply in_combine_l; exact Hin).
    pose proof (forall2_combine _ _ _ _ _ Hall Hin) as Hx. cbv beta in Hx.
    unfold positive_rate_for in Hx.
    apply bind_ok in Hx as (sel & Hsel & Hx). injection Hx as <-.
    apply index_ok in Hsel as [Hl ->]. split; [reflexivity|].
    apply mean_binary.
    - apply select_group_not_nil; [rewrite <- eq_mask_length with (g := g); exact Hl|].
      apply unique_in. exact Hg.
    - apply select_forall. exact Hbin. }
  split; [rewrite Hpr; apply combine_keys; exact Hlen|].
  split; [exact Hfacts|].
  destruct (demographic_parity_spread _ _ _ H)
    as (M & m & v & [HM _] & [Hm _] & Hv & Hd & H0 & _).
  exists v. split; [exact Hv|]. split; [exact H0|].
  unfold dict_values in HM, Hm.
  apply in_map_iff in HM as ([g x] & Hx & Hxin).
  apply in_map_iff in Hm as ([g0 x0] & Hx0 & Hx0in).
  simpl in Hx, Hx0. subst x x0.
  destruct (Hfacts _ _ Hxin) as [_ (q & Hq & _ & Hq1)].
  destruct (Hfacts _ _ Hx0in) as [_ (q0 & Hq0 & Hq00 & _)].
  injection Hq as <-. injection Hq0 as <-. lra.
Qed.

(** Witness of X5. *)
Lemma demographic_parity_binary_rates_witness :
  exists v, Fin (4 # 5) = Fin v /\ 0 <= v /\ v <= 1.
Proof.
  apply (demographic_parity_binary_rates
           (repeat 1%Z 60 ++ repeat 0%Z 40)%list
           (repeat "A" 50 ++ repeat "B" 50)%list
           {| positive_rates := [("A", Fin 1); ("B", Fin (1 # 5))];
              parity_ratio := Fin 5;
              dp_violation := Fin (4 # 5);
              dp_is_fair := false |}).
  - apply Forall_app. split; apply Forall_forall; intros v Hv;
      apply repeat_spec in Hv; auto.
  - vm_compute. reflexivity.
Defined.

(** ** Calibration *)

Lemma calibration_for_facts (y_true : list Z) (y_pred_proba : list Q)
    (protected_attr : list string) (g : string) (x : group_calibration_entry) :
  In g (Np.unique protected_attr) ->
  calibration_for y_true y_pred_proba protected_attr g = Ok x ->
  expected_positive_rate x
    = Np.mean (Np.select y_pred_proba (Np.eq_mask protected_attr g)) /\
  actual_positive_rate x
    = Np.mean_int (Np.select y_true (Np.eq_mask protected_attr g)) /\
  exists a b e,
    expected_positive_rate x = Fin a /\ actual_positive_rate x = Fin b /\
    calibration_error x = Fin e /\ e == Qabs (a - b) /\ 0 <= e.
Proof.
  intros Hg H. unfold calibration_for in H. apply (proj1 (unique_in _ _)) in Hg.
  apply bind_ok in H as (gt & Hgt & H). apply index_ok in Hgt as [Hlt ->].
  apply bind_ok in H as (gp & Hgp & H). apply index_ok in Hgp as [Hlp ->].
  injection H as <-. cbn [expected_positive_rate actual_positive_rate calibration_error].
  split; [reflexivity|]. split; [reflexivity|].
  rewrite eq_mask_length in Hlt, Hlp.
  destruct (mean_fin (Np.select y_pred_proba (Np.eq_mask protected_attr g)))
    as (a & Ha); [apply select_group_not_nil; assumption|].
  destruct (mean_int_fin (Np.select y_true (Np.eq_mask protected_attr g)))
    as (b & Hb); [apply select_group_not_nil; assumption|].
  rewrite Ha, Hb. exists a, b, (Qred (Qabs (Qred (a - b)))).
  split; [reflexivity|]. split; [reflexivity|]. split; [reflexivity|].
  split.
  - rewrite Qred_correct. apply Qabs_wd. apply Qred_correct.
  - rewrite Qred_correct. apply Qabs_nonneg.
Qed.

(** X6: in a result of calibration the expected rate, the actual rate and
    the calibration error of every group are finite numbers; the error is
    not negative, and it is 0 when the two rates are equal.  The reported
    maximum is the largest of the groups' errors, and the model is judged
    calibrated exactly when every group's error is below 0.05. *)
Theorem calibration_verdict
    (y_true : list Z) (y_pred_proba : list Q) (protected_attr : list string)
    (r : calibration_result) :
  calibration y_true y_pred_proba protected_attr = Ok r ->
  (forall g x, In (g, x) (group_calibration r) ->
     exists a b e,
       expected_positive_rate x = Fin a /\ actual_positive_rate x = Fin b /\
       calibration_error x = Fin e /\ 0 <= e /\ (a == b -> e == 0)) /\
  exists E,
    max_calibration_error r = Fin E /\ 0 <= E /\
    largest (map calibration_error (dict_values (group_calibration r))) E /\
    (is_calibrated r = true <->
     forall g x e, In (g, x) (group_calibration r) ->
                   calibration_error x = Fin e -> e < 1 # 20).
Proof.
  intro H.
  destruct (calibration_groups _ _ _ _ H) as (vs & Hgc & Hlen & Hall).
  assert (Hfacts : forall g x, In (g, x) (group_calibration r) ->
            exists a b e,
              expected_positive_rate x = Fin a /\ actual_positive_rate x = Fin b /\
              calibration_error x = Fin e /\ e == Qabs (a - b) /\ 0 <= e).
  { intros g x Hin. rewrite Hgc in Hin.
    assert (Hg : In g (Np.unique protected_attr)) by (eapply in_combine_l; exact Hin).
    pose proof (forall2_combine _ _ _ _ _ Hall Hin) as Hx. cbv beta in Hx.
    apply (calibration_for_facts _ _ _ _ _ Hg Hx). }
  split.
  { intros g x Hin.
    destruct (Hfacts g x Hin) as (a & b & e & Ha & Hb & He & Heq & He0).
    exists a, b, e. repeat (split; [assumption|]).
    intro Hab. rewrite Heq, Hab.
    setoid_replace (b - b) with 0 by ring. reflexivity. }
  unfold calibration in H.
  apply bind_ok in H as (d & _ & H). cbv zeta in H.
  apply bind_ok in H as (mx & Hmax & H). injection H as <-.
  cbn [group_calibration max_calibration_error is_calibrated] in *.
  assert (Hfin : Forall is_fin (map calibration_error (dict_values d))).
  { apply Forall_forall. intros y Hy.
    apply in_map_iff in Hy as (x & <- & Hx). unfold dict_values in Hx.
    apply in_map_iff in Hx as ([g x'] & <- & Hin).
    destruct (Hfacts g x' Hin) as (a & b & e & _ & _ & He & _).
    exists e. exact He. }
  pose proof (py_max_ok_not_nil _ _ Hmax) as Hne.
  destruct (py_max_fin _ Hne Hfin) as (E & HE & HEin & HEub).
  rewrite HE in Hmax. injection Hmax as <-.
  exists E. split; [reflexivity|].
  assert (HEin' := HEin).
  apply in_map_iff in HEin' as (x & Hx & Hxin). unfold dict_values in Hxin.
  apply in_map_iff in Hxin as ([g x'] & Hx' & Hin). simpl in Hx'. subst x'.
  destruct (Hfacts g x Hin) as (a & b & e & _ & _ & He & _ & He0).
  rewrite Hx in He. injection He as <-.
  split; [exact He0|]. split; [split; assumption|].
  unfold threshold. simpl pf_lt. rewrite Qlt_bool_iff. split.
  - intros Hlt g' y e' Hin' He'.
    apply Qle_lt_trans with E; [|exact Hlt]. apply HEub.
    apply in_map_iff. exists y. split; [exact He'|].
    unfold dict_values. apply in_map_iff. exists (g', y). auto.
  - intro Hall'. apply (Hall' g x E Hin Hx).
Qed.

(** Witness of X6: group "a" expects 0.75 and has 1, group "b" expects 0.5
    and has 0. *)
Lemma calibration_verdict_witness :
  exists E,
    Fin (1 # 2) = Fin E /\ 0 <= E /\
    largest [Fin (1 # 4); Fin (1 # 2)] E.
Proof.
  destruct (calibration_verdict [1; 0; 1]%Z [1 # 2; 1 # 2; 1] ["a"; "b"; "a"]
              {| group_calibration :=
                   [("a", {| expected_positive_rate := Fin (3 # 4);
                             actual_positive_rate := Fin 1;
                             calibration_error := Fin (1 # 4) |});
                    ("b", {| expected_positive_rate := Fin (1 # 2);
                             actual_positive_rate := Fin 0;
                             calibration_error := Fin (1 # 2) |})];
                 max_calibration_error := Fin (1 # 2);
                 is_calibrated := false |})
    as (_ & E & HE & H0 & Hl & _).
  - vm_compute. reflexivity.
  - exists E. auto.
Defined.

(** ** [evaluate] *)

Lemma for_in_dict_total {V : Type} (f : string -> result V) (gs : list string) :
  gs <> [] -> (forall g, In g gs -> exists v, f g = Ok v) ->
  exists d, for_in gs (fun g d => v <- f g ;; Ok (dict_set d g v)) [] = Ok d /\
            d <> [].
Proof.
  intros Hne Hall. destruct gs as [|g gs]; [congruence|].
  destruct (Hall g (or_introl eq_refl)) as (v & Hv).
  destruct (for_in_total (fun g d => v <- f g ;; Ok (dict_set d g v))
              (fun d => d <> []) gs) with (s := dict_set [] g v)
    as (d & Hd & Hdne).
  - intros x s Hx _. destruct (Hall x (or_intror Hx)) as (w & Hw).
    rewrite Hw. simpl. eexists. split; [reflexivity | apply dict_set_not_nil].
  - apply dict_set_not_nil.
  - exists d. split; [|exact Hdne]. simpl. rewrite Hv. simpl. exact Hd.
Qed.

(** With a non-empty attribute vector and aligned labels and probabilities,
    calibration returns a result. *)
Lemma calibration_total (y_true : list Z) (y_pred_proba : list Q)
    (protected_attr : list string) :
  protected_attr <> [] ->
  List.length y_true = List.length protected_attr ->
  List.length y_pred_proba = List.length protected_attr ->
  exists r, calibration y_true y_pred_proba protected_attr = Ok r.
Proof.
  intros Hne Ht Hp. unfold calibration.
  rewrite (for_in_ext _
             (fun g d => v <- calibration_for y_true y_pred_proba protected_attr g ;;
                         Ok (dict_set d g v))).
  - destruct (for_in_dict_total
                (calibration_for y_true y_pred_proba protected_attr)
                (Np.unique protected_attr)) as (d & -> & Hd).
    + intro E. apply unique_nil in E. contradiction.
    + intros g _. unfold calibration_for.
      rewrite !index_aligned by (rewrite eq_mask_length; assumption).
      simpl. eauto.
    + simpl. destruct d as [|kv d]; [congruence|]. simpl. eauto.
  - intros g t _. unfold calibration_for.
    destruct (Np.index y_true _) as [gt|e]; simpl; [|reflexivity].
    destruct (Np.index y_pred_proba _) as [gp|e]; reflexivity.
Qed.

(** Equalized odds returns only on a non-empty attribute vector with which
    the labels and the predictions are aligned. *)
Lemma equalized_odds_ok_aligned (y_true y_pred : list Z)
    (protected_attr : list string) (r : eodds_result) :
  equalized_odds y_true y_pred protected_attr = Ok r ->
  protected_attr <> [] /\
  List.length y_true = List.length protected_attr /\
  List.length y_pred = List.length protected_attr.
Proof.
  intro H. unfold equalized_odds in H.
  apply bind_ok in H as (d & Hloop & H). cbv zeta in H.
  apply bind_ok in H as (mx & Hmax & _).
  destruct (Np.unique protected_attr) as [|g gs] eqn:E.
  - simpl in Hloop. injection Hloop as <-. simpl in Hmax. discriminate.
  - destruct (for_in_ok_each _ _ _ _ g Hloop (or_introl eq_refl)) as (s0 & s1 & Hb).
    apply bind_ok in Hb as (gt & Hgt & Hb). apply index_ok in Hgt as [Hlt _].
    apply bind_ok in Hb as (gp & Hgp & _). apply index_ok in Hgp as [Hlp _].
    rewrite eq_mask_length in Hlt, Hlp.
    split; [|auto]. intros ->. discriminate.
Qed.

Lemma evaluate_attribute_default (y_true y_pred : list Z) (attr_values : list string) :
  evaluate_attribute y_true y_pred all_metrics attr_values
  = (d <- demographic_parity y_pred attr_values ;;
     eo <- equalized_odds y_true y_pred attr_values ;;
     ep <- equal_opportunity y_true y_pred attr_values ;;
     c <- calibration y_true (map inject_Z y_pred) attr_values ;;
     Ok {| res_demographic_parity := Some d;
           res_equalized_odds := Some eo;
           res_equal_opportunity := Some ep;
           res_calibration := Some c |}).
Proof.
  unfold evaluate_attribute, when_requested.
  replace (requested all_metrics "demographic_parity") with true by reflexivity.
  replace (requested all_metrics "equalized_odds") with true by reflexivity.
  replace (requested all_metrics "equal_opportunity") with true by reflexivity.
  replace (requested all_metrics "calibration") with true by reflexivity.
  destruct (demographic_parity y_pred attr_values); simpl; [|reflexivity].
  destruct (equalized_odds y_true y_pred attr_values); simpl; [|reflexivity].
  destruct (equal_opportunity y_true y_pred attr_values); simpl; [|reflexivity].
  destruct (calibration y_true (map inject_Z y_pred) attr_values); reflexivity.
Qed.

Lemma evaluate_loop_entries (y_true y_pred : list Z) (metrics : list string)
    (pa : dict (list string)) (acc res : dict attr_results) :
  for_in pa (evaluate_step y_true y_pred metrics) acc = Ok res ->
  forall a r, In (a, r) res ->
    In (a, r) acc \/
    exists vals, In (a, vals) pa /\
                 evaluate_attribute y_true y_pred metrics vals = Ok r.
Proof.
  revert acc. induction pa as [|[k vals] pa IH]; intros acc Hrun a r Hin;
    simpl in Hrun.
  - injection Hrun as <-. auto.
  - apply bind_ok in Hrun as (acc1 & Hstep & Hrest).
    apply bind_ok in Hstep as (r0 & Hr0 & Hset). injection Hset as <-.
    destruct (IH _ Hrest a r Hin) as [Hacc | (vals' & Hv & He)].
    + apply dict_set_in in Hacc as [[-> ->] | Hacc]; [|auto].
      right. exists vals. split; [left; reflexivity | exact Hr0].
    + right. exists vals'. split; [right; exact Hv | exact He].
Qed.

Lemma evaluate_loop_keys (y_true y_pred : list Z) (metrics : list string)
    (pa : dict (list string)) (acc res : dict attr_results) :
  for_in pa (evaluate_step y_true y_pred metrics) acc = Ok res ->
  forall a, In a (dict_keys res) <-> In a (dict_keys acc) \/ In a (dict_keys pa).
Proof.
  revert acc. induction pa as [|[k vals] pa IH]; intros acc Hrun a; simpl in Hrun.
  - injection Hrun as <-. simpl. tauto.
  - apply bind_ok in Hrun as (acc1 & Hstep & Hrest).
    apply bind_ok in Hstep as (r0 & Hr0 & Hset). injection Hset as <-.
    rewrite (IH _ Hrest a), dict_set_keys. simpl. intuition auto.
Qed.

Lemma select_map {A B : Type} (f : A -> B) (xs : list A) (mask : list bool) :
  Np.select (map f xs) mask = map f (Np.select xs mask).
Proof.
  revert mask. induction xs as [|x xs IH]; intros [|b mask]; simpl;
    try reflexivity.
  destruct b; simpl; rewrite IH; reflexivity.
Qed.

(** Calibration run on the predictions themselves expects, for every group,
    the positive rate that demographic parity reports. *)
Lemma calibration_on_predictions (y_true y_pred : list Z)
    (protected_attr : list string) (d : dp_result) (c : calibration_result) :
  demographic_parity y_pred protected_attr = Ok d ->
  calibration y_true (map inject_Z y_pred) protected_attr = Ok c ->
  map (fun kv => (fst kv, expected_positive_rate (snd kv))) (group_calibration c)
  = positive_rates d.
Proof.
  intros Hd Hc.
  destruct (demographic_parity_groups _ _ _ Hd) as (vs & -> & Hlen & Hall).
  destruct (calibration_groups _ _ _ _ Hc) as (ws & -> & Hlen' & Hall').
  revert vs ws Hlen Hall Hlen' Hall'.
  induction (Np.unique protected_attr) as [|g gs IH]; intros vs ws Hlen Hall Hlen' Hall'.
  - reflexivity.
  - inversion Hall as [|? x ? vs' Hx Hrest]; subst.
    inversion Hall' as [|? e ? ws' He Hrest']; subst.
    simpl in *. f_equal.
    + f_equal. unfold positive_rate_for in Hx. unfold calibration_for in He.
      apply bind_ok in Hx as (sel & Hsel & Hx). injection Hx as <-.
      apply index_ok in Hsel as [_ ->].
      apply bind_ok in He as (gt & _ & He). apply bind_ok in He as (gp & Hgp & He).
      injection He as <-. apply index_ok in Hgp as [_ ->]. simpl.
      rewrite select_map. reflexivity.
    + apply IH; auto.
Qed.

(** X7: [evaluate] hands the predicted labels to the calibration calculator
    as if they were probabilities.  With the default metrics, the expected
    positive rate that calibration reports for a group is therefore the
    positive rate that demographic parity reports for it. *)
Theorem evaluate_calibration_expects_positive_rate
    (y_true y_pred : list Z) (protected_attributes : dict (list string))
    (res : dict attr_results) (a : string) (r : attr_results) :
  evaluate y_true y_pred protected_attributes None = Ok res ->
  In (a, r) res ->
  exists d c,
    res_demographic_parity r = Some d /\ res_calibration r = Some c /\
    map (fun kv => (fst kv, expected_positive_rate (snd kv))) (group_calibration c)
    = positive_rates d.
Proof.
  unfold evaluate. intros H Hin.
  destruct (evaluate_loop_entries _ _ _ _ _ _ H a r Hin) as [[] | (vals & _ & He)].
  rewrite evaluate_attribute_default in He.
  apply bind_ok in He as (d & Hd & He). apply bind_ok in He as (eo & _ & He).
  apply bind_ok in He as (ep & _ & He). apply bind_ok in He as (c & Hc & He).
  injection He as <-. exists d, c. split; [reflexivity|]. split; [reflexivity|].
  apply (calibration_on_predictions _ _ _ _ _ Hd Hc).
Qed.

(** X8: with the default metrics, every entry of the result of [evaluate]
    belongs to an attribute of the input and holds, under the four metric
    names, what the four calculators return on that attribute's values; the
    keys of the result are the names of the input. *)
Theorem evaluate_entries_are_calculator_results
    (y_true y_pred : list Z) (protected_attributes : dict (list string))
    (res : dict attr_results) :
  evaluate y_true y_pred protected_attributes None = Ok res ->
  (forall a, In a (dict_keys res) <-> In a (dict_keys protected_attributes)) /\
  (forall a r, In (a, r) res ->
     exists vals d eo ep c,
       In (a, vals) protected_attributes /\
       r = {| res_demographic_parity := Some d;
              res_equalized_odds := Some eo;
              res_equal_opportunity := Some ep;
              res_calibration := Some c |} /\
       demographic_parity y_pred vals = Ok d /\
       equalized_odds y_true y_pred vals = Ok eo /\
       equal_opportunity y_true y_pred vals = Ok ep /\
       calibration y_true (map inject_Z y_pred) vals = Ok c).
Proof.
  unfold evaluate. intro H. split.
  - intro a. rewrite (evaluate_loop_keys _ _ _ _ _ _ H a). simpl. tauto.
  - intros a r Hin.
    destruct (evaluate_loop_entries _ _ _ _ _ _ H a r Hin) as [[] | (vals & Hv & He)].
    rewrite evaluate_attribute_default in He.
    apply bind_ok in He as (d & Hd & He). apply bind_ok in He as (eo & Heo & He).
    apply bind_ok in He as (ep & Hep & He). apply bind_ok in He as (c & Hc & He).
    injection He as <-. exists vals, d, eo, ep, c. auto 10.
Qed.

(** X9: when none of the four metric names is in [metrics] (an empty list, or
    unknown names only), [evaluate] reads neither labels nor attribute values:
    it returns an empty dictionary for every attribute, also on inputs on
    which every calculator would raise. *)
Theorem evaluate_without_known_metric_reads_nothing
    (y_true y_pred : list Z) (protected_attributes : dict (list string))
    (metrics : list string) :
  (forall name, In name all_metrics -> requested metrics name = false) ->
  exists res,
    evaluate y_true y_pred protected_attributes (Some metrics) = Ok res /\
    (forall a, In a (dict_keys res) <-> In a (dict_keys protected_attributes)) /\
    (forall a r, In (a, r) res -> r = no_results).
Proof.
  intro Hnone. unfold evaluate.
  assert (Hattr : forall vals,
            evaluate_attribute y_true y_pred metrics vals = Ok no_results).
  { intro vals. unfold evaluate_attribute, when_requested.
    rewrite !Hnone by (simpl; auto). reflexivity. }
  destruct (for_in_total (evaluate_step y_true y_pred metrics) (fun _ => True)
              protected_attributes) with (s := @nil (string * attr_results))
    as (res & Hres & _).
  - intros [k vals] s _ _. unfold evaluate_step. rewrite Hattr. simpl. eauto.
  - exact I.
  - exists res. split; [exact Hres|]. split.
    + intro a. rewrite (evaluate_loop_keys _ _ _ _ _ _ Hres a). simpl. tauto.
    + intros a r Hin.
      destruct (evaluate_loop_entries _ _ _ _ _ _ Hres a r Hin)
        as [[] | (vals & _ & He)].
      rewrite Hattr in He. congruence.
Qed.

(** Witness of X9: an empty metric list on vectors of three different
    lengths. *)
Lemma evaluate_without_known_metric_reads_nothing_witness :
  exists res,
    evaluate [1]%Z [] [("group", ["A"; "B"])] (Some []) = Ok res /\
    (forall a, In a (dict_keys res) <-> In a ["group"]) /\
    (forall a r, In (a, r) res -> r = no_results).
Proof.
  apply (evaluate_without_known_metric_reads_nothing
           [1]%Z [] [("group", ["A"; "B"])] []).
  intros name _. reflexivity.
Defined.

(** X10: with the default metrics, [evaluate] returns exactly when equalized
    odds returns for the values of every attribute; the three other
    calculators never fail where equalized odds succeeds. *)
Theorem evaluate_returns_iff_equalized_odds_returns
    (y_true y_pred : list Z) (protected_attributes : dict (list string)) :
  (exists res, evaluate y_true y_pred protected_attributes None = Ok res) <->
  (forall a vals, In (a, vals) protected_attributes ->
                  exists r, equalized_odds y_true y_pred vals = Ok r).
Proof.
  unfold evaluate. split.
  - intros (res & H) a vals Hin.
    destruct (for_in_ok_each _ _ _ _ (a, vals) H Hin) as (s0 & s1 & Hb).
    unfold evaluate_step in Hb. apply bind_ok in Hb as (r & Hr & _).
    rewrite evaluate_attribute_default in Hr.
    apply bind_ok in Hr as (d & _ & Hr). apply bind_ok in Hr as (eo & Heo & _).
    eauto.
  - intro Hall.
    destruct (for_in_total (evaluate_step y_true y_pred all_metrics) (fun _ => True)
                protected_attributes) with (s := @nil (string * attr_results))
      as (res & Hres & _); [| exact I | eauto].
    intros [a vals] s Hin _. unfold evaluate_step.
    rewrite evaluate_attribute_default.
    destruct (Hall a vals Hin) as (eo & Heo).
    destruct (equalized_odds_ok_aligned _ _ _ _ Heo) as (Hne & Ht & Hp).
    destruct (demographic_parity_total y_pred vals Hne Hp) as (d & ->).
    rewrite Heo, equal_opportunity_projection, Heo. simpl.
    destruct (calibration_total y_true (map inject_Z y_pred) vals Hne Ht)
      as (c & ->); [rewrite length_map; exact Hp|].
    simpl. eauto.
Qed.

(** Witness of X7. *)
Lemma evaluate_calibration_expects_positive_rate_witness :
  exists res r d c,
    evaluate [0; 0; 1; 0]%Z [0; 1; 1; 0]%Z [("g", ["A"; "A"; "B"; "B"])] None
    = Ok res /\
    In ("g", r) res /\
    res_demographic_parity r = Some d /\ res_calibration r = Some c /\
    map (fun kv => (fst kv, expected_positive_rate (snd kv))) (group_calibration c)
    = positive_rates d.
Proof.
  destruct (evaluate [0; 0; 1; 0]%Z [0; 1; 1; 0]%Z [("g", ["A"; "A"; "B"; "B"])] None)
    as [res|e] eqn:E; [|vm_compute in E; discriminate].
  pose proof E as E'. vm_compute in E. injection E as <-.
  match type of E' with
  | _ = Ok [(_, ?r0)] =>
      destruct (evaluate_calibration_expects_positive_rate _ _ _ _ "g" r0 E')
        as (d & c & Hd & Hc & Heq); [left; reflexivity|];
      eexists; exists r0, d, c
  end.
  split; [reflexivity|]. split; [left; reflexivity|]. auto.
Defined.

(** Witness of X8. *)
Lemma evaluate_entries_are_calculator_results_witness :
  exists res,
    evaluate [0; 0; 1; 0]%Z [0; 1; 1; 0]%Z [("g", ["A"; "A"; "B"; "B"])] None
    = Ok res /\
    (forall a, In a (dict_keys res) <-> In a ["g"]).
Proof.
  destruct (evaluate [0; 0; 1; 0]%Z [0; 1; 1; 0]%Z [("g", ["A"; "A"; "B"; "B"])] None)
    as [res|e] eqn:E; [|vm_compute in E; discriminate].
  exists res. split; [reflexivity|].
  apply (evaluate_entries_are_calculator_results _ _ _ _ E).
Defined.

(** Witness of X10: equalized odds returns on the one attribute, and so does
    [evaluate]. *)
Lemma evaluate_returns_iff_equalized_odds_returns_witness :
  exists res,
    evaluate [0; 0; 1; 0]%Z [0; 1; 1; 0]%Z [("g", ["A"; "A"; "B"; "B"])] None
    = Ok res.
Proof.
  apply (proj2 (evaluate_returns_iff_equalized_odds_returns
                  [0; 0; 1; 0]%Z [0; 1; 1; 0]%Z [("g", ["A"; "A"; "B"; "B"])])).
  intros a vals [H|[]]. injection H as <- <-.
  eexists. vm_compute. reflexivity.
Defined.

(* ================================================================== *)
(** * Further properties of the detector *)
(* ================================================================== *)

Lemma pd_unique_in (s : list string) (y : string) :
  In y (Pandas.unique s) <-> In y s.
Proof.
  split; [apply pd_unique_incl|].
  induction s as [|x s IH]; simpl; [tauto|].
  intros [->|H]; [left; reflexivity|].
  destruct (String.eqb x y) eqn:E.
  - apply String.eqb_eq in E. left. exact E.
  - right. apply filter_In. split; [apply IH; exact H|]. rewrite E. reflexivity.
Qed.

Lemma pd_unique_nodup (s : list string) : NoDup (Pandas.unique s).
Proof.
  induction s as [|x s IH]; simpl; constructor.
  - intro H. apply filter_In in H as [_ H]. rewrite String.eqb_refl in H. discriminate.
  - apply NoDup_filter. exact IH.
Qed.

Lemma insert_desc_perm (x : string * nat) (l : list (string * nat)) :
  Permutation (insert_desc x l) (x :: l).
Proof.
  induction l as [|y l IH]; simpl; [reflexivity|].
  destruct (Nat.ltb (snd x) (snd y)); [|reflexivity].
  rewrite IH. apply perm_swap.
Qed.

Lemma sort_desc_perm (l : list (string * nat)) : Permutation (sort_desc l) l.
Proof.
  unfold sort_desc. induction l as [|x l IH]; simpl; [reflexivity|].
  rewrite insert_desc_perm. constructor. exact IH.
Qed.

Lemma insert_desc_sorted (x : string * nat) (l : list (string * nat)) :
  decreasing_counts l -> decreasing_counts (insert_desc x l).
Proof.
  unfold decreasing_counts. induction l as [|y l IH]; intro H; simpl.
  - constructor; constructor.
  - inversion H as [|? ? Hl Hy]; subst.
    destruct (Nat.ltb (snd x) (snd y)) eqn:E.
    + apply Nat.ltb_lt in E. constructor; [apply IH; exact Hl|].
      apply Forall_forall. intros z Hz.
      apply (Permutation_in _ (insert_desc_perm x l)) in Hz as [<-|Hz]; [lia|].
      rewrite Forall_forall in Hy. apply Hy. exact Hz.
    + apply Nat.ltb_ge in E. constructor; [exact H|].
      constructor; [exact E|].
      apply Forall_forall. intros z Hz. rewrite Forall_forall in Hy.
      specialize (Hy z Hz). lia.
Qed.

Lemma sort_desc_sorted (l : list (string * nat)) : decreasing_counts (sort_desc l).
Proof.
  unfold sort_desc. induction l as [|x l IH]; simpl.
  - constructor.
  - apply insert_desc_sorted. exact IH.
Qed.

Lemma count_is_group_size (s : list string) (v : string) :
  count s v = group_size s v.
Proof.
  unfold count, group_size, Np.eq_mask.
  induction s as [|x s IH]; simpl; [reflexivity|].
  rewrite (String.eqb_sym v x). destruct (String.eqb x v); simpl; rewrite IH; reflexivity.
Qed.

Lemma list_sum_perm (l l' : list nat) :
  Permutation l l' -> list_sum l = list_sum l'.
Proof.
  induction 1; simpl; lia.
Qed.

(** The value counts of a series: one entry per distinct value, each with
    the number of its occurrences, most frequent first; the counts add up to
    the length of the series. *)
Lemma value_counts_facts (s : list string) :
  NoDup (map fst (value_counts s)) /\
  (forall v, In v (map fst (value_counts s)) <-> In v s) /\
  (forall v n, In (v, n) (value_counts s) -> n = count s v /\ (1 <= n)%nat) /\
  decreasing_counts (value_counts s) /\
  list_sum (map snd (value_counts s)) = List.length s.
Proof.
  unfold value_counts.
  set (raw := map (fun v => (v, count s v)) (Pandas.unique s)).
  pose proof (sort_desc_perm raw) as Hperm.
  assert (Hfst : map fst raw = Pandas.unique s).
  { unfold raw. rewrite map_map. simpl. apply map_id. }
  assert (Hsnd : map snd raw = map (count s) (Pandas.unique s)).
  { unfold raw. rewrite map_map. reflexivity. }
  split; [|split; [|split; [|split]]].
  - apply (Permutation_NoDup (l := map fst raw)).
    + symmetry. apply Permutation_map. exact Hperm.
    + rewrite Hfst. apply pd_unique_nodup.
  - intro v. split; intro H.
    + apply pd_unique_in. rewrite <- Hfst.
      apply (Permutation_in _ (Permutation_map fst Hperm)). exact H.
    + apply (Permutation_in _ (Permutation_sym (Permutation_map fst Hperm))).
      rewrite Hfst. apply pd_unique_in. exact H.
  - intros v n Hin. apply (Permutation_in _ Hperm) in Hin. unfold raw in Hin.
    apply in_map_iff in Hin as (w & Hw & Hwin). injection Hw as -> <-.
    split; [reflexivity|].
    apply (proj1 (pd_unique_in _ _)) in Hwin. unfold count.
    clear - Hwin. induction s as [|x s IH]; [destruct Hwin|]. simpl.
    destruct (String.eqb v x) eqn:E; simpl; [lia|].
    destruct Hwin as [->|H]; [rewrite String.eqb_refl in E; discriminate|].
    apply IH. exact H.
  - apply sort_desc_sorted.
  - rewrite (list_sum_perm _ _ (Permutation_map snd Hperm)), Hsnd.
    rewrite (map_ext _ (group_size s)) by (intro v; apply count_is_group_size).
    apply group_sizes_sum; [apply pd_unique_nodup|].
    intros x Hx. apply pd_unique_in. exact Hx.
Qed.

(** X11: the group counts that the analysis of an attribute reports have one
    entry per distinct value of the column, each with the number of rows that
    hold the value, the most frequent first, and they add up to the number of
    cells of the column. *)
Theorem group_counts_partition
    (data : DataFrame) (attr : string) (target : option string) (c : column)
    (a : attribute_analysis) :
  get_column data attr = Ok c ->
  _analyze_attribute data attr target = Ok a ->
  NoDup (dict_keys (group_counts a)) /\
  (forall v, In v (dict_keys (group_counts a)) <-> In v (group_values c)) /\
  (forall v n, In (v, n) (group_counts a) ->
     n = count (group_values c) v /\ (1 <= n)%nat) /\
  decreasing_counts (group_counts a) /\
  list_sum (dict_values (group_counts a)) = List.length (group_values c) /\
  dict_keys (group_distribution a) = dict_keys (group_counts a).
Proof.
  intros Hc H. unfold _analyze_attribute in H. rewrite Hc in H. simpl in H.
  destruct (value_counts_facts (group_values c)) as (H1 & H2 & H3 & H4 & H5).
  assert (Hk : dict_keys
                 (combine (map fst (value_counts (group_values c)))
                    (div_scalar (map snd (value_counts (group_values c)))
                       (n_rows data)))
               = map fst (value_counts (group_values c))).
  { apply combine_keys. unfold div_scalar. rewrite !length_map. reflexivity. }
  destruct (wants_label_bias data target) as [t|].
  - apply bind_ok in H as (lb & _ & H). injection H as <-. simpl.
    unfold dict_keys, dict_values in *. auto 10.
  - injection H as <-. simpl. unfold dict_keys, dict_values in *. auto 10.
Qed.

(** Witness of X11 on the 90/10 frame. *)
Lemma group_counts_partition_witness :
  list_sum (dict_values [("A", 90%nat); ("B", 10%nat)]) = 100%nat.
Proof.
  refine (proj1 (proj2 (proj2 (proj2 (proj2
    (group_counts_partition skewed_frame "group" None
       (StrCol (repeat "A" 90 ++ repeat "B" 10)%list)
       {| attribute := "group";
          group_distribution := [("A", Fin (9 # 10)); ("B", Fin (1 # 10))];
          group_counts := [("A", 90%nat); ("B", 10%nat)];
          rep_bias := {| max_proportion := Fin (9 # 10);
                         min_proportion := Fin (1 # 10);
                         disparity_ratio := Fin 9;
                         is_balanced := false |};
          label_bias := None |} _ _)))))).
  - reflexivity.
  - vm_compute. reflexivity.
Defined.

(** ** The loop of [analyze] *)

Lemma analyze_loop_facts (data : DataFrame) (target : option string)
    (attrs : list string) (acc bm : dict attribute_analysis) :
  for_in attrs (analyze_step data target) acc = Ok bm ->
  (forall a m, In (a, m) bm ->
     In (a, m) acc \/ (In a attrs /\ _analyze_attribute data a target = Ok m)) /\
  (forall a, In a (dict_keys bm) <-> In a (dict_keys acc) \/ In a attrs) /\
  (NoDup (dict_keys acc) -> NoDup (dict_keys bm)) /\
  (forall a, In a attrs -> has_column data a = true).
Proof.
  revert acc. induction attrs as [|x attrs IH]; intros acc Hrun; simpl in Hrun.
  - injection Hrun as <-. split; [auto|]. split; [intro a; simpl; tauto|].
    split; [auto|]. intros a [].
  - apply bind_ok in Hrun as (acc1 & Hstep & Hrest).
    unfold analyze_step in Hstep.
    destruct (has_column data x) eqn:Ex; simpl in Hstep; [|discriminate].
    apply bind_ok in Hstep as (m0 & Hm0 & Hset). injection Hset as <-.
    destruct (IH _ Hrest) as (H1 & H2 & H3 & H4).
    split; [|split; [|split]].
    + intros a m Hin. destruct (H1 a m Hin) as [Hacc | [Ha Hm]].
      * apply dict_set_in in Hacc as [[-> ->] | Hacc]; [|auto].
        right. split; [left; reflexivity | exact Hm0].
      * right. split; [right; exact Ha | exact Hm].
    + intro a. rewrite (H2 a), dict_set_keys. simpl. intuition auto.
    + intro Hnd. apply H3. apply dict_set_nodup. exact Hnd.
    + intros a [<-|Ha]; [exact Ex | apply H4; exact Ha].
Qed.

Lemma analyze_ok (self : detector) (data : DataFrame) (attrs : list string)
    (target : option string) (r : report) :
  fst (analyze self data attrs target) = Ok r ->
  attrs <> [] /\
  exists bm,
    for_in attrs (analyze_step data target) [] = Ok bm /\
    r = {| dataset_size := n_rows data;
           protected_attributes := attrs;
           bias_metrics := bm;
           recommendations := _generate_recommendations bm |}.
Proof.
  intro H. destruct attrs as [|a attrs]; [discriminate|].
  split; [discriminate|].
  rewrite analyze_nonempty in H by discriminate.
  destruct (for_in (a :: attrs) (analyze_step data target) []) as [bm|e];
    simpl in H; [|discriminate].
  injection H as <-. exists bm. auto.
Qed.

(** X12: a report of [analyze] echoes the number of rows and the list of
    attributes; its bias metrics hold exactly one entry per distinct name of
    the list, each the analysis of that column, and its recommendations are
    never empty. *)
Theorem report_lists_each_attribute_once
    (self : detector) (data : DataFrame) (attrs : list string)
    (target : option string) (r : report) :
  fst (analyze self data attrs target) = Ok r ->
  dataset_size r = n_rows data /\
  protected_attributes r = attrs /\
  NoDup (dict_keys (bias_metrics r)) /\
  (forall a, In a (dict_keys (bias_metrics r)) <-> In a attrs) /\
  (forall a m, In (a, m) (bias_metrics r) ->
     attribute m = a /\ has_column data a = true /\
     _analyze_attribute data a target = Ok m) /\
  recommendations r <> [].
Proof.
  intro H. destruct (analyze_ok _ _ _ _ _ H) as (_ & bm & Hloop & ->). simpl.
  destruct (analyze_loop_facts _ _ _ _ _ Hloop) as (H1 & H2 & H3 & H4).
  split; [reflexivity|]. split; [reflexivity|].
  split; [apply H3; constructor|].
  split; [intro a; rewrite (H2 a); simpl; tauto|].
  split.
  - intros a m Hin. destruct (H1 a m Hin) as [[] | [Ha Hm]].
    split; [|split; [apply H4; exact Ha | exact Hm]].
    unfold _analyze_attribute in Hm.
    apply bind_ok in Hm as (c & _ & Hm). cbv zeta in Hm.
    destruct (wants_label_bias data target).
    + apply bind_ok in Hm as (lb & _ & Hm). injection Hm as <-. reflexivity.
    + injection Hm as <-. reflexivity.
  - rewrite generate_recommendations_matched.
    destruct (matched_messages bm); discriminate.
Qed.

(** Witness of X12: the attribute is listed twice and reported once. *)
Lemma report_lists_each_attribute_once_witness :
  exists r,
    fst (analyze init gender_frame ["gender"; "gender"] None) = Ok r /\
    dict_keys (bias_metrics r) = ["gender"] /\
    NoDup (dict_keys (bias_metrics r)) /\
    protected_attributes r = ["gender"; "gender"].
Proof.
  destruct (fst (analyze init gender_frame ["gender"; "gender"] None))
    as [r|e] eqn:E; [|vm_compute in E; discriminate].
  exists r. split; [reflexivity|].
  destruct (report_lists_each_attribute_once _ _ _ _ _ E) as (_ & Hp & Hnd & _).
  vm_compute in E. injection E as <-.
  split; [reflexivity|]. split; [exact Hnd | exact Hp].
Defined.

(** ** A target that is not a column *)

Lemma analyze_attribute_by_wants (data : DataFrame) (attr : string)
    (target target' : option string) :
  wants_label_bias data target = wants_label_bias data target' ->
  _analyze_attribute data attr target = _analyze_attribute data attr target'.
Proof.
  intro H. unfold _analyze_attribute. rewrite H. reflexivity.
Qed.

(** X13: a [target_column] that is the empty string or that names no column
    of the frame is ignored without a word: the call behaves, in its outcome
    and in the detector it leaves, as a call without target. *)
Theorem absent_target_is_ignored
    (self : detector) (data : DataFrame) (attrs : list string) (t : string) :
  t = "" \/ has_column data t = false ->
  analyze self data attrs (Some t) = analyze self data attrs None.
Proof.
  intro Ht.
  assert (Hw : wants_label_bias data (Some t) = wants_label_bias data None).
  { unfold wants_label_bias. destruct Ht as [-> | Ht]; [reflexivity|].
    rewrite Ht. destruct (String.eqb t ""); reflexivity. }
  destruct attrs as [|a attrs]; [reflexivity|].
  rewrite !analyze_nonempty by discriminate.
  rewrite (for_in_ext (analyze_step data (Some t)) (analyze_step data None));
    [reflexivity|].
  intros x s _. unfold analyze_step.
  rewrite (analyze_attribute_by_wants data x (Some t) None Hw). reflexivity.
Qed.

(** Witness of X13: the target "label" is not a column of the frame. *)
Lemma absent_target_is_ignored_witness :
  analyze init gender_frame ["gender"] (Some "label")
  = analyze init gender_frame ["gender"] None.
Proof.
  apply absent_target_is_ignored. right. reflexivity.
Defined.

(** ** Verdict and recommendation *)

Lemma balanced_below_two (vc : list (string * nat)) (total : nat) :
  is_balanced (_calculate_representation_bias vc total) = true ->
  pf_gt (disparity_ratio (_calculate_representation_bias vc total)) (Fin 2) = false.
Proof.
  unfold _calculate_representation_bias. cbn [is_balanced disparity_ratio].
  destruct (pf_gt (series_min (div_scalar (map snd vc) total)) (Fin 0));
    [|discriminate].
  destruct (pf_div _ _) as [q| | |]; simpl; try discriminate; [|reflexivity].
  intro H. apply Qlt_bool_iff in H. apply Qlt_bool_false. lra.
Qed.

(** X14: in a report of [analyze], an attribute judged balanced never gets
    the message that recommends rebalancing: a ratio below 1.5 is below the
    2.0 of the recommendation rule. *)
Theorem balanced_attribute_gets_no_rebalancing_message
    (self : detector) (data : DataFrame) (attrs : list string)
    (target : option string) (r : report) (a : string) (m : attribute_analysis) :
  fst (analyze self data attrs target) = Ok r ->
  In (a, m) (bias_metrics r) ->
  is_balanced (rep_bias m) = true ->
  ~ In (representation_message a) (recommendations r).
Proof.
  intros H Hin Hbal Hmsg.
  destruct (analyze_ok _ _ _ _ _ H) as (_ & bm & Hloop & ->). simpl in *.
  destruct (analyze_loop_facts _ _ _ _ _ Hloop) as (H1 & _ & H3 & H4).
  rewrite generate_recommendations_matched in Hmsg.
  assert (Hmatched : In (representation_message a) (matched_messages bm)).
  { destruct (matched_messages bm) as [|x l]; [|exact Hmsg].
    destruct Hmsg as [Hd|[]]. symmetry in Hd.
    exfalso. apply (representation_not_default _ Hd). }
  apply in_matched_representation in Hmatched as (m' & Hin' & Hrule).
  assert (m' = m) by (eapply nodup_keys_functional; [apply H3; constructor | eassumption..]).
  subst m'.
  destruct (H1 a m Hin) as [[] | [Ha Hm]].
  destruct (has_column_get _ _ (H4 a Ha)) as (c & Hc).
  unfold representation_rule in Hrule.
  rewrite (analyze_attribute_rep_bias _ _ _ _ _ Hc Hm) in Hbal, Hrule.
  rewrite (balanced_below_two _ _ Hbal) in Hrule. discriminate.
Qed.

(** Witness of X14: a frame of two groups of equal size, which is judged
    balanced. *)
Lemma balanced_attribute_gets_no_rebalancing_message_witness :
  exists r m,
    fst (analyze init zero_rate_frame ["g"] None) = Ok r /\
    In ("g", m) (bias_metrics r) /\ is_balanced (rep_bias m) = true /\
    ~ In (representation_message "g") (recommendations r).
Proof.
  destruct (fst (analyze init zero_rate_frame ["g"] None)) as [r|e] eqn:E;
    [|vm_compute in E; discriminate].
  pose proof E as E'. vm_compute in E. injection E as <-.
  match type of E' with
  | _ = Ok {| bias_metrics := [(_, ?m0)] |} =>
      eexists; exists m0;
      split; [reflexivity|]; split; [left; reflexivity|];
      split; [reflexivity|];
      apply (balanced_attribute_gets_no_rebalancing_message _ _ _ _ _ "g" m0 E');
      [left; reflexivity | reflexivity]
  end.
Defined.

(** ** Proportions *)

Lemma analyze_attribute_distribution (data : DataFrame) (attr : string)
    (target : option string) (c : column) (a : attribute_analysis) :
  get_column data attr = Ok c ->
  _analyze_attribute data attr target = Ok a ->
  dict_values (group_distribution a)
  = div_scalar (map snd (value_counts (group_values c))) (n_rows data).
Proof.
  intros Hc H. unfold _analyze_attribute in H. rewrite Hc in H. simpl in H.
  assert (Hv : dict_values
                 (combine (map fst (value_counts (group_values c)))
                    (div_scalar (map snd (value_counts (group_values c)))
                       (n_rows data)))
               = div_scalar (map snd (value_counts (group_values c))) (n_rows data)).
  { apply combine_values. unfold div_scalar. rewrite !length_map. reflexivity. }
  destruct (wants_label_bias data target) as [t|].
  - apply bind_ok in H as (lb & _ & H). injection H as <-. exact Hv.
  - injection H as <-. exact Hv.
Qed.

Lemma count_le_length (s : list string) (v : string) :
  (count s v <= List.length s)%nat.
Proof. unfold count. apply filter_length_le. Qed.

Lemma proportion_fin (n total : nat) :
  (1 <= n)%nat -> (n <= total)%nat ->
  exists q, pf_div (Fin (inject_Z (Z.of_nat n))) (Fin (inject_Z (Z.of_nat total)))
            = Fin q /\ 0 < q /\ q <= 1.
Proof.
  intros H1 Hle. unfold pf_div.
  assert (Ht : 0 < inject_Z (Z.of_nat total)).
  { change 0 with (inject_Z 0). rewrite <- Zlt_Qlt. lia. }
  assert (E : Qeq_bool (inject_Z (Z.of_nat total)) 0 = false).
  { destruct (Qeq_bool _ 0) eqn:E1; [|reflexivity].
    apply Qeq_bool_iff in E1. lra. }
  rewrite E. unfold float_of_Q. eexists. split; [reflexivity|].
  rewrite Qred_correct. split.
  - apply Qlt_shift_div_l; [exact Ht|]. rewrite Qmult_0_l.
    change 0 with (inject_Z 0). rewrite <- Zlt_Qlt. lia.
  - apply Qle_shift_div_r; [exact Ht|]. rewrite Qmult_1_l.
    rewrite <- Zle_Qle. lia.
Qed.

Lemma proportions_fin (s : list string) :
  Forall (fun x => exists q, x = Fin q /\ 0 < q /\ q <= 1)
         (div_scalar (map snd (value_counts s)) (List.length s)).
Proof.
  unfold div_scalar. apply Forall_forall. intros x Hx.
  apply in_map_iff in Hx as (n & <- & Hn).
  apply in_map_iff in Hn as ([v n'] & Hn' & Hin). simpl in Hn'. subst n'.
  destruct (value_counts_facts s) as (_ & _ & H3 & _).
  destruct (H3 v n Hin) as [-> H1].
  apply proportion_fin; [exact H1 | apply count_le_length].
Qed.

Lemma filter_fin (l : list pyfloat) :
  Forall is_fin l -> filter (fun x => negb (is_nan x)) l = l.
Proof.
  induction 1 as [|x l [q ->] Hl IH]; simpl; [reflexivity | rewrite IH; reflexivity].
Qed.

Lemma series_max_fin (l : list pyfloat) :
  l <> [] -> Forall is_fin l -> exists M, series_max l = Fin M /\ largest l M.
Proof.
  intros Hne Hfin. unfold series_max. rewrite filter_fin by exact Hfin.
  destruct l as [|x l]; [congruence|].
  inversion Hfin as [|? ? [q ->] Hl]; subst.
  destruct (fold_max_fin l q Hl) as (M & HM & Hin & Hub).
  exists M. split; [exact HM | split; assumption].
Qed.

Lemma series_min_fin (l : list pyfloat) :
  l <> [] -> Forall is_fin l -> exists m, series_min l = Fin m /\ smallest l m.
Proof.
  intros Hne Hfin. unfold series_min. rewrite filter_fin by exact Hfin.
  destruct l as [|x l]; [congruence|].
  inversion Hfin as [|? ? [q ->] Hl]; subst.
  destruct (fold_min_fin l q Hl) as (M & HM & Hin & Hub).
  exists M. split; [exact HM | split; assumption].
Qed.

(** X15: for a column that is not empty and as long as the frame, the
    largest and the smallest proportion are those of the group distribution,
    both in (0, 1]; the disparity ratio is a finite number that is at least
    1, and 1 when the two proportions are equal; the column is judged
    balanced exactly when the reported ratio is below 1.5. *)
Theorem representation_bias_of_nonempty_column
    (data : DataFrame) (attr : string) (target : option string) (c : column)
    (a : attribute_analysis) :
  get_column data attr = Ok c ->
  group_values c <> [] ->
  List.length (group_values c) = n_rows data ->
  _analyze_attribute data attr target = Ok a ->
  exists M m q,
    max_proportion (rep_bias a) = Fin M /\ min_proportion (rep_bias a) = Fin m /\
    largest (dict_values (group_distribution a)) M /\
    smallest (dict_values (group_distribution a)) m /\
    0 < m /\ M <= 1 /\
    disparity_ratio (rep_bias a) = Fin q /\ 1 <= q /\ (M == m -> q == 1) /\
    (is_balanced (rep_bias a) = true <-> q < 3 # 2).
Proof.
  intros Hc Hne Hlen H.
  rewrite (analyze_attribute_distribution _ _ _ _ _ Hc H).
  rewrite (analyze_attribute_rep_bias _ _ _ _ _ Hc H).
  unfold _calculate_representation_bias.
  cbn [max_proportion min_proportion disparity_ratio is_balanced].
  rewrite <- Hlen.
  set (props := div_scalar (map snd (value_counts (group_values c)))
                  (List.length (group_values c))).
  pose proof (proportions_fin (group_values c)) as Hprops. fold props in Hprops.
  assert (Hfin : Forall is_fin props).
  { eapply Forall_impl; [|exact Hprops]. intros x (q & -> & _). exists q. reflexivity. }
  assert (Hpne : props <> []).
  { unfold props, div_scalar. intro E. apply map_eq_nil in E. apply map_eq_nil in E.
    destruct (value_counts_facts (group_values c)) as (_ & H2 & _).
    destruct (group_values c) as [|v vs]; [congruence|].
    assert (Hin : In v (map fst (value_counts (v :: vs))))
      by (apply H2; left; reflexivity).
    rewrite E in Hin. destruct Hin. }
  destruct (series_max_fin props Hpne Hfin) as (M & -> & HM).
  destruct (series_min_fin props Hpne Hfin) as (m & -> & Hm).
  rewrite Forall_forall in Hprops.
  destruct (Hprops _ (proj1 HM)) as (qM & EM & _ & HM1). injection EM as <-.
  destruct (Hprops _ (proj1 Hm)) as (qm & Em & Hm0 & _). injection Em as <-.
  assert (Hle : m <= M) by (apply (proj2 HM); apply (proj1 Hm)).
  unfold pf_gt. simpl pf_lt.
  assert (E : Qlt_bool 0 m = true) by (apply Qlt_bool_iff; exact Hm0).
  rewrite E. unfold pf_div.
  assert (E0 : Qeq_bool m 0 = false).
  { destruct (Qeq_bool m 0) eqn:E1; [|reflexivity].
    apply Qeq_bool_iff in E1. lra. }
  rewrite E0. unfold float_of_Q. simpl pf_lt.
  exists M, m, (Qred (M / m)).
  repeat (split; [first [reflexivity | assumption]|]).
  split; [|split].
  - rewrite Qred_correct. apply Qle_shift_div_l; [exact Hm0|].
    rewrite Qmult_1_l. exact Hle.
  - intro Heq. rewrite Qred_correct, Heq. field. lra.
  - apply Qlt_bool_iff.
Qed.

(** Witness of X15 on the frame of three rows against one: the proportions
    are 0.75 and 0.25 and the ratio is 3. *)
Lemma representation_bias_of_nonempty_column_witness :
  exists M m q,
    Fin (3 # 4) = Fin M /\ Fin (1 # 4) = Fin m /\
    largest [Fin (3 # 4); Fin (1 # 4)] M /\
    smallest [Fin (3 # 4); Fin (1 # 4)] m /\
    0 < m /\ M <= 1 /\ Fin 3 = Fin q /\ 1 <= q /\ (M == m -> q == 1) /\
    (false = true <-> q < 3 # 2).
Proof.
  apply (representation_bias_of_nonempty_column three_to_one_frame "g" None
           (StrCol ["a"; "a"; "a"; "b"])
           {| attribute := "g";
              group_distribution := [("a", Fin (3 # 4)); ("b", Fin (1 # 4))];
              group_counts := [("a", 3%nat); ("b", 1%nat)];
              rep_bias := {| max_proportion := Fin (3 # 4);
                             min_proportion := Fin (1 # 4);
                             disparity_ratio := Fin 3;
                             is_balanced := false |};
              label_bias := None |}).
  - reflexivity.
  - discriminate.
  - reflexivity.
  - vm_compute. reflexivity.
Defined.

(** ** A frame without rows *)

Lemma get_column_has (data : DataFrame) (name : string) (c : column) :
  get_column data name = Ok c -> has_column data name = true.
Proof.
  unfold has_column, get_column.
  induction (columns data) as [|[k c'] cols IH]; simpl; [discriminate|].
  rewrite (String.eqb_sym k name).
  destruct (String.eqb name k); simpl; [reflexivity | exact IH].
Qed.

Lemma matched_recommended (bm : dict attribute_analysis) (msg : string) :
  In msg (matched_messages bm) -> In msg (_generate_recommendations bm).
Proof.
  intro H. rewrite generate_recommendations_matched.
  destruct (matched_messages bm); [destruct H | exact H].
Qed.

Lemma analyze_attribute_empty (data : DataFrame) (a : string)
    (target : option string) (c : column) :
  get_column data a = Ok c -> group_values c = [] ->
  exists m, _analyze_attribute data a target = Ok m.
Proof.
  intros Hc Hnil. unfold _analyze_attribute. rewrite Hc. cbn [bind].
  destruct (wants_label_bias data target) as [t|]; [|eauto].
  unfold _calculate_label_bias. rewrite Hc. cbn [bind]. rewrite Hnil.
  cbn [Pandas.unique for_in bind add_disparity]. eexists. reflexivity.
Qed.

(** X16: on a frame without rows [analyze] does not raise, whatever the
    target column: when the list of attributes is not empty and each names a
    column without cells, the call returns a report in which every attribute
    has neither a largest nor a smallest proportion (both NaN), an infinite
    disparity ratio and the verdict unbalanced, and which carries the
    representation message for it. *)
Theorem empty_column_is_flagged
    (self : detector) (data : DataFrame) (attrs : list string)
    (target : option string) :
  attrs <> [] ->
  (forall a, In a attrs ->
     exists c, get_column data a = Ok c /\ group_values c = []) ->
  exists r,
    fst (analyze self data attrs target) = Ok r /\
    forall a, In a attrs ->
      exists m,
        In (a, m) (bias_metrics r) /\
        max_proportion (rep_bias m) = NaN /\ min_proportion (rep_bias m) = NaN /\
        disparity_ratio (rep_bias m) = PInf /\ is_balanced (rep_bias m) = false /\
        In (representation_message a) (recommendations r).
Proof.
  intros Hne Hcols. rewrite analyze_nonempty by exact Hne.
  destruct (for_in_total (analyze_step data target) (fun _ => True) attrs)
    with (s := @nil (string * attribute_analysis)) as (bm & Hloop & _);
    [| exact I |].
  { intros a s Ha _. destruct (Hcols a Ha) as (c & Hc & Hnil).
    unfold analyze_step. rewrite (get_column_has _ _ _ Hc). cbn [negb].
    destruct (analyze_attribute_empty data a target c Hc Hnil) as (m & Hm).
    rewrite Hm. cbn [bind]. eauto. }
  rewrite Hloop. cbn [fst]. eexists. split; [reflexivity|].
  cbn [bias_metrics recommendations].
  destruct (analyze_loop_facts _ _ _ _ _ Hloop) as (Hent & Hkeys & _).
  intros a Ha. destruct (Hcols a Ha) as (c & Hc & Hnil).
  assert (Hk : In a (dict_keys bm)) by (apply Hkeys; right; exact Ha).
  unfold dict_keys in Hk. apply in_map_iff in Hk as ([a' m] & Ha' & Hin).
  simpl in Ha'. subst a'. exists m. split; [exact Hin|].
  destruct (Hent a m Hin) as [[]|[_ Hm]].
  pose proof (analyze_attribute_rep_bias _ _ _ _ _ Hc Hm) as Hrb.
  rewrite Hnil in Hrb. change (value_counts []) with (@nil (string * nat)) in Hrb.
  assert (E : rep_bias m
              = {| max_proportion := NaN; min_proportion := NaN;
                   disparity_ratio := PInf; is_balanced := false |})
    by (rewrite Hrb; reflexivity).
  rewrite E. cbn [max_proportion min_proportion disparity_ratio is_balanced].
  repeat (split; [reflexivity|]).
  apply matched_recommended. apply in_matched_representation.
  exists m. split; [exact Hin|]. unfold representation_rule. rewrite E. reflexivity.
Qed.

(** Witness of X16: a frame with the columns [g] and [h] and no row, both
    columns analysed against the target [h]. *)
Lemma empty_column_is_flagged_witness :
  exists r,
    fst (analyze init
           {| n_rows := 0; columns := [("g", StrCol []); ("h", StrCol [])] |}
           ["g"; "h"] (Some "h")) = Ok r /\
    forall a, In a ["g"; "h"] ->
      exists m,
        In (a, m) (bias_metrics r) /\
        max_proportion (rep_bias m) = NaN /\ min_proportion (rep_bias m) = NaN /\
        disparity_ratio (rep_bias m) = PInf /\ is_balanced (rep_bias m) = false /\
        In (representation_message a) (recommendations r).
Proof.
  apply (empty_column_is_flagged init
           {| n_rows := 0; columns := [("g", StrCol []); ("h", StrCol [])] |}
           ["g"; "h"] (Some "h")).
  - discriminate.
  - intros a [<-|[<-|[]]]; exists (StrCol []); split; reflexivity.
Defined.

(** ** The history over several calls *)

Lemma analyze_history (self : detector) (data : DataFrame) (attrs : list string)
    (target : option string) :
  bias_reports (snd (analyze self data attrs target))
  = (bias_reports self ++ returned [fst (analyze self data attrs target)])%list.
Proof.
  destruct attrs as [|a attrs].
  - simpl. rewrite app_nil_r. reflexivity.
  - rewrite analyze_nonempty by discriminate.
    destruct (for_in _ _ _); simpl.
    + reflexivity.
    + rewrite app_nil_r. reflexivity.
Qed.

(** X17: after any run of calls on one detector, the history is the history
    before the run followed by the reports the calls returned, in the order
    of the calls; a call that raised leaves no trace.  There is one outcome
    per call. *)
Theorem history_is_the_returned_reports
    (self : detector) (calls : list (DataFrame * list string * option string)) :
  bias_reports (snd (run_analyses self calls))
  = (bias_reports self ++ returned (fst (run_analyses self calls)))%list /\
  List.length (fst (run_analyses self calls)) = List.length calls.
Proof.
  revert self. induction calls as [|[[data attrs] target] calls IH]; intro self.
  - simpl. rewrite app_nil_r. split; reflexivity.
  - simpl. pose proof (analyze_history self data attrs target) as Hh.
    destruct (analyze self data attrs target) as [o self'] eqn:E. simpl in Hh.
    destruct (IH self') as [IH1 IH2].
    destruct (run_analyses self' calls) as [os self''] eqn:E'.
    simpl in IH1, IH2 |- *. split; [|congruence].
    rewrite IH1, Hh. rewrite <- app_assoc. f_equal.
    destruct o; reflexivity.
Qed.

(** ** The label analysis on a target that is not [int64] *)

Lemma for_in_dict_pure {V : Type} (F : string -> V) (gs : list string) (acc : dict V) :
  NoDup gs -> (forall g, In g gs -> ~ In g (dict_keys acc)) ->
  for_in gs (fun g d => Ok (dict_set d g (F g))) acc
  = Ok (acc ++ combine gs (map F gs))%list.
Proof.
  revert acc. induction gs as [|g gs IH]; intros acc Hnd Hfresh; simpl.
  - rewrite app_nil_r. reflexivity.
  - inversion Hnd as [|? ? Hnot Hnd']; subst.
    rewrite dict_set_fresh by (apply Hfresh; left; reflexivity).
    rewrite IH; [rewrite <- app_assoc; reflexivity | exact Hnd' |].
    intros g' Hg' Hin. unfold dict_keys in Hin. rewrite map_app in Hin.
    apply in_app_or in Hin as [Hin|[Hin|[]]].
    + apply (Hfresh g'); [right; exact Hg' | exact Hin].
    + simpl in Hin. subst g'. contradiction.
Qed.

Lemma group_size_pos (s : list string) (g : string) :
  In g s -> (1 <= group_size s g)%nat.
Proof.
  intro Hin. destruct (value_counts_facts s) as (_ & H2 & H3 & _).
  apply H2 in Hin. apply in_map_iff in Hin as ([v n] & Hv & Hin).
  simpl in Hv. subst v. destruct (H3 g n Hin) as [-> H1].
  rewrite <- count_is_group_size. exact H1.
Qed.

Lemma label_bias_loop_int32 (data : DataFrame) (values : list string) (t : string)
    (cells : list Z) :
  get_column data t = Ok (IntCol int32 cells) ->
  for_in (Pandas.unique values) (label_bias_step data values t) []
  = Ok (combine (Pandas.unique values)
          (map (fun g =>
                  LBGroup (group_size values g) None
                    (Some (Np.mean_int (Np.select cells (Np.eq_mask values g)))))
               (Pandas.unique values))).
Proof.
  intro Ht.
  rewrite (for_in_ext _
             (fun g d =>
                Ok (dict_set d g
                      (LBGroup (group_size values g) None
                         (Some (Np.mean_int
                                  (Np.select cells (Np.eq_mask values g)))))))).
  - rewrite for_in_dict_pure; [reflexivity | apply pd_unique_nodup |].
    intros g _ [].
  - intros g d Hg. apply (proj1 (pd_unique_in _ _)) in Hg.
    unfold label_bias_step. pose proof (group_size_pos values g Hg) as Hpos.
    unfold group_size in Hpos.
    destruct (Nat.ltb 0 _) eqn:E; [|apply Nat.ltb_ge in E; lia].
    rewrite Ht. reflexivity.
Qed.

Lemma drop_none_means {A : Type} (F : A -> nat) (G : A -> pyfloat) (gs : list A) :
  drop_none (map rate_of (map (fun g => LBGroup (F g) None (Some (G g))) gs))
  = map G gs.
Proof.
  induction gs as [|g gs IH]; simpl; [reflexivity | rewrite IH; reflexivity].
Qed.

(** X18: with an [int32] target column as long as the attribute's column,
    the label analysis returns, and its disparity is taken over the mean
    target of every group, a mean of zero included: it stores the largest
    mean, the smallest, and a ratio that is infinite when the smallest mean
    is not positive, and otherwise a finite number that is at least 1. *)
Theorem mean_target_disparity_keeps_every_group
    (data : DataFrame) (attr t : string) (c : column) (cells : list Z) :
  get_column data attr = Ok c ->
  get_column data t = Ok (IntCol int32 cells) ->
  List.length cells = List.length (group_values c) ->
  group_values c <> [] ->
  let means :=
    map (fun g => Np.mean_int (Np.select cells (Np.eq_mask (group_values c) g)))
        (Pandas.unique (group_values c)) in
  exists lb M m ratio,
    _calculate_label_bias data attr t = Ok lb /\
    dict_get lb "disparity" = Some (LBDisparity (Fin M) (Fin m) ratio) /\
    largest means M /\ smallest means m /\
    (m <= 0 -> ratio = PInf) /\
    (0 < m -> exists q, ratio = Fin q /\ 1 <= q).
Proof.
  intros Hc Ht Hlen Hne means.
  unfold _calculate_label_bias. rewrite Hc. cbn [bind].
  rewrite (label_bias_loop_int32 _ _ _ _ Ht). cbn [bind].
  set (gs := Pandas.unique (group_values c)) in *.
  set (entries := map _ gs).
  assert (Hgs : gs <> []).
  { destruct (group_values c) as [|v vs] eqn:E; [congruence|].
    unfold gs. simpl. discriminate. }
  assert (Hfin : Forall is_fin means).
  { apply Forall_forall. intros x Hx. apply in_map_iff in Hx as (g & <- & Hg).
    apply mean_int_fin. apply select_group_not_nil; [exact Hlen|].
    apply (proj1 (pd_unique_in _ _)). exact Hg. }
  assert (Hmne : means <> []).
  { unfold means. fold gs. destruct gs; [congruence | discriminate]. }
  destruct (py_max_fin means Hmne Hfin) as (M & HM & HMin & HMub).
  destruct (py_min_fin means Hmne Hfin) as (m & Hm & Hmin & Hmlb).
  assert (Hrates : drop_none (map rate_of (dict_values (combine gs entries))) = means).
  { rewrite combine_values by (unfold entries; apply length_map).
    unfold entries, means. fold gs.
    apply (drop_none_means (group_size (group_values c))). }
  unfold add_disparity. rewrite Hrates.
  destruct (combine gs entries) as [|kv d] eqn:Ed.
  { exfalso. destruct gs as [|g gs']; [congruence|]. discriminate Ed. }
  destruct means as [|x means'] eqn:Em; [congruence|].
  rewrite HM, Hm. cbn [bind].
  eexists _, M, m, _. split; [reflexivity|].
  split; [apply dict_get_set_same|].
  split; [split; assumption|]. split; [split; assumption|].
  unfold pf_gt. simpl pf_lt. split.
  - intro Hle. rewrite (proj2 (Qlt_bool_false 0 m) Hle). reflexivity.
  - intro Hpos. rewrite (proj2 (Qlt_bool_iff 0 m) Hpos).
    unfold pf_div.
    assert (E0 : Qeq_bool m 0 = false).
    { destruct (Qeq_bool m 0) eqn:E1; [|reflexivity].
      apply Qeq_bool_iff in E1. lra. }
    rewrite E0. eexists. split; [reflexivity|].
    unfold float_of_Q in *. rewrite Qred_correct.
    apply Qle_shift_div_l; [exact Hpos|]. rewrite Qmult_1_l.
    apply HMub. exact Hmin.
Qed.

(** Witness of X18: the group "b" of [int32_frame] has mean 0 and the ratio
    is infinite. *)
Lemma mean_target_disparity_keeps_every_group_witness :
  exists lb M m ratio,
    _calculate_label_bias int32_frame "g" "y" = Ok lb /\
    dict_get lb "disparity" = Some (LBDisparity (Fin M) (Fin m) ratio) /\
    largest [Fin 1; Fin 0] M /\ smallest [Fin 1; Fin 0] m /\
    (m <= 0 -> ratio = PInf) /\
    (0 < m -> exists q, ratio = Fin q /\ 1 <= q).
Proof.
  apply (mean_target_disparity_keeps_every_group int32_frame "g" "y"
           (StrCol ["a"; "a"; "b"; "b"]) [1; 1; 0; 0]%Z).
  - reflexivity.
  - reflexivity.
  - reflexivity.
  - discriminate.
Defined.

(* ================================================================== *)
(** * [detect_model_bias] *)
(* ================================================================== *)

Lemma Qsum_indicator_count {A : Type} (p : A -> bool) (l : list A) :
  Np.Qsum (map (fun v => if p v then 1 else 0) l)
  == inject_Z (Z.of_nat (List.length (filter p l))).
Proof.
  induction l as [|v l IH]; [reflexivity|].
  cbn [map filter]. unfold Np.Qsum in *. cbn [fold_right].
  destruct (p v).
  - cbn [List.length]. rewrite Nat2Z.inj_succ. unfold Z.succ.
    rewrite inject_Z_plus, IH. change (inject_Z 1) with 1. ring.
  - rewrite IH. ring.
Qed.

Lemma filter_length_lt {A : Type} (p : A -> bool) (l : list A) :
  (exists v, In v l /\ p v = false) ->
  (List.length (filter p l) < List.length l)%nat.
Proof.
  intros (v & Hin & Hv). induction l as [|x l IH]; [destruct Hin|].
  simpl. pose proof (filter_length_le p l) as Hle.
  destruct Hin as [->|Hin].
  - rewrite Hv. lia.
  - specialize (IH Hin). destruct (p x); simpl; lia.
Qed.

(** The mean of an indicator over a sequence that is not empty. *)
Lemma mean_indicator {A : Type} (p : A -> bool) (l : list A) :
  l <> [] ->
  exists q, Np.mean (map (fun v => if p v then 1 else 0) l) = Fin q /\
            0 <= q /\ q <= 1 /\
            ((exists v, In v l /\ p v = false) -> q < 1).
Proof.
  intro Hne. pose proof (Qsum_indicator_count p l) as Hsum.
  pose proof (filter_length_le p l) as Hle.
  unfold Np.mean. destruct l as [|v l]; [congruence|].
  set (xs := map (fun v => if p v then 1 else 0) (v :: l)) in *.
  assert (Hlen : List.length xs = List.length (v :: l)) by apply length_map.
  assert (Hxs : xs <> []) by (unfold xs; discriminate).
  destruct xs as [|x xs']; [congruence|].
  unfold float_of_Q. eexists. split; [reflexivity|].
  rewrite Qred_correct, Hsum, Hlen.
  assert (Hd : 0 < inject_Z (Z.of_nat (List.length (v :: l)))).
  { change 0 with (inject_Z 0). rewrite <- Zlt_Qlt. simpl List.length. lia. }
  split; [|split].
  - apply Qle_shift_div_l; [exact Hd|]. rewrite Qmult_0_l.
    change 0 with (inject_Z 0). rewrite <- Zle_Qle. lia.
  - apply Qle_shift_div_r; [exact Hd|]. rewrite Qmult_1_l.
    rewrite <- Zle_Qle. lia.
  - intro Hex. apply Qlt_shift_div_r; [exact Hd|]. rewrite Qmult_1_l.
    rewrite <- Zlt_Qlt. pose proof (filter_length_lt p (v :: l) Hex). lia.
Qed.

(** [len(np.unique(a)) > 1] fails exactly when all the elements are equal. *)
Lemma unique_int_all_equal (l : list Z) :
  Nat.ltb 1 (List.length (unique_int l)) = false <->
  forall p q, In p l -> In q l -> p = q.
Proof.
  pose proof (unique_int_sorted l) as Hs.
  pose proof (fun x => unique_int_in x l) as Hin.
  destruct (unique_int l) as [|x [|y r]].
  - split; [|reflexivity]. intros _ p q Hp _. apply Hin in Hp. destruct Hp.
  - split; [|reflexivity]. intros _ p q Hp Hq.
    apply Hin in Hp. apply Hin in Hq.
    destruct Hp as [<-|[]]. destruct Hq as [<-|[]]. reflexivity.
  - split; [discriminate|]. intro H. exfalso.
    inversion Hs as [|? ? _ Hall]; subst.
    inversion Hall as [|? ? Hxy _]; subst.
    assert (x = y).
    { apply H; apply Hin; [left | right; left]; reflexivity. }
    lia.
Qed.

(** The loop over the groups of one attribute, when the predictions are as
    long as the column. *)
Lemma group_perf_loop (values : list string) (predictions y : list Z)
    (perf : dict group_perf) :
  for_in (Pandas.unique values) (group_perf_step values predictions y) [] = Ok perf ->
  (values <> [] -> List.length predictions = List.length values) /\
  perf = combine (Pandas.unique values)
           (map (fun g =>
                   group_perf_entry (Np.eq_mask values g)
                     (Np.select predictions (Np.eq_mask values g))
                     (Np.select y (Np.eq_mask values g)))
                (Pandas.unique values)).
Proof.
  intro H. destruct values as [|v0 vs] eqn:Ev.
  { simpl in H. injection H as <-. split; [congruence | reflexivity]. }
  rewrite <- Ev in *.
  assert (Hlen : List.length predictions = List.length values).
  { destruct (for_in_ok_each _ _ _ _ v0 H) as (s0 & s1 & Hb).
    - rewrite Ev. left. reflexivity.
    - unfold group_perf_step in Hb. apply bind_ok in Hb as (gp & Hidx & _).
      apply index_ok in Hidx as [Hl _]. rewrite eq_mask_length in Hl. exact Hl. }
  split; [intros _; exact Hlen|].
  rewrite (for_in_ext _
             (fun g d =>
                Ok (dict_set d g
                      (group_perf_entry (Np.eq_mask values g)
                         (Np.select predictions (Np.eq_mask values g))
                         (Np.select y (Np.eq_mask values g)))))) in H.
  - rewrite for_in_dict_pure in H; [| apply pd_unique_nodup | intros g _ []].
    injection H as <-. reflexivity.
  - intros g d Hg. apply (proj1 (pd_unique_in _ _)) in Hg.
    unfold group_perf_step.
    rewrite index_aligned by (rewrite eq_mask_length; exact Hlen).
    cbn [bind].
    rewrite select_length by (rewrite eq_mask_length; exact Hlen).
    pose proof (group_size_pos values g Hg) as Hpos. unfold group_size in Hpos.
    destruct (Nat.ltb 0 _) eqn:E; [reflexivity | apply Nat.ltb_ge in E; lia].
Qed.

Lemma group_perf_loop_total (values : list string) (predictions y : list Z) :
  List.length predictions = List.length values ->
  exists perf,
    for_in (Pandas.unique values) (group_perf_step values predictions y) [] = Ok perf.
Proof.
  intro Hlen.
  destruct (for_in_total (group_perf_step values predictions y) (fun _ => True)
              (Pandas.unique values)) with (s := @nil (string * group_perf))
    as (perf & Hp & _); [| exact I | eauto].
  intros g s _ _. unfold group_perf_step.
  rewrite index_aligned by (rewrite eq_mask_length; exact Hlen).
  cbn [bind]. destruct (Nat.ltb 0 _); eauto.
Qed.

Lemma model_bias_loop_facts (X : DataFrame) (predictions y : list Z)
    (attrs : list string) (acc performance : dict (dict group_perf)) :
  for_in attrs (model_bias_step X predictions y) acc = Ok performance ->
  (forall a, In a (dict_keys performance) <->
             In a (dict_keys acc) \/ (In a attrs /\ has_column X a = true)) /\
  (NoDup (dict_keys acc) -> NoDup (dict_keys performance)) /\
  (forall a perf, In (a, perf) performance ->
     In (a, perf) acc \/
     exists c, get_column X a = Ok c /\
       for_in (Pandas.unique (group_values c))
         (group_perf_step (group_values c) predictions y) [] = Ok perf).
Proof.
  revert acc. induction attrs as [|a0 attrs IH]; intros acc H; simpl in H.
  - injection H as <-. split; [intro a; simpl; tauto|]. split; [auto|].
    intros a perf Hin. left. exact Hin.
  - apply bind_ok in H as (acc1 & Hstep & Hrest).
    destruct (IH _ Hrest) as (Hk & Hnd & Hent). clear IH.
    unfold model_bias_step in Hstep.
    destruct (has_column X a0) eqn:Ehc; cbn [negb] in Hstep.
    + apply bind_ok in Hstep as (c & Hc & Hstep).
      apply bind_ok in Hstep as (perf0 & Hloop & Hset). injection Hset as <-.
      split; [|split].
      * intro a. rewrite Hk, dict_set_keys. split.
        -- intros [[->|Hin]|[Hin Hh]]; simpl; auto.
        -- intros [Hin|[[<-|Hin] Hh]]; auto.
      * intro Hacc. apply Hnd. apply dict_set_nodup. exact Hacc.
      * intros a perf Hin. destruct (Hent a perf Hin) as [Hin'|Hex]; [|right; exact Hex].
        apply dict_set_in in Hin' as [[-> ->]|Hin']; [|left; exact Hin'].
        right. exists c. split; assumption.
    + injection Hstep as <-. split; [|split].
      * intro a. rewrite Hk. split.
        -- intros [Hin|[Hin Hh]]; simpl; auto.
        -- intros [Hin|[[<-|Hin] Hh]]; auto. congruence.
      * exact Hnd.
      * exact Hent.
Qed.

Lemma in_combine_map {A B : Type} (F : A -> B) (gs : list A) (g : A) (e : B) :
  In (g, e) (combine gs (map F gs)) -> In g gs /\ e = F g.
Proof.
  induction gs as [|x gs IH]; simpl; [tauto|].
  intros [H|H].
  - injection H as <- <-. auto.
  - destruct (IH H). auto.
Qed.

(** X19: when the model predicts one label per row and the labels are as
    many, [detect_model_bias] returns; the report echoes the predictions
    and the requested attributes, and its performance table has one key for
    each requested attribute that is a column of the frame: an attribute
    that is not a column is passed over without an error. *)
Theorem model_bias_skips_missing_attributes
    (predict : DataFrame -> result (list Z)) (X : DataFrame) (y : list Z)
    (attrs : list string) (predictions : list Z) :
  predict X = Ok predictions ->
  List.length y = List.length predictions ->
  (forall a c, In a attrs -> get_column X a = Ok c ->
     List.length (group_values c) = List.length predictions) ->
  exists r,
    detect_model_bias predict X y attrs = Ok r /\
    model_predictions r = predictions /\
    mb_protected_attributes r = attrs /\
    NoDup (dict_keys (group_performance r)) /\
    forall a, In a (dict_keys (group_performance r)) <->
              In a attrs /\ has_column X a = true.
Proof.
  intros Hpred _ Hlen. unfold detect_model_bias. rewrite Hpred. cbn [bind].
  destruct (for_in_total (model_bias_step X predictions y) (fun _ => True) attrs)
    with (s := @nil (string * dict group_perf)) as (performance & Hloop & _);
    [| exact I |].
  - intros a s Ha _. unfold model_bias_step.
    destruct (has_column X a) eqn:Ehc; cbn [negb]; [|eauto].
    destruct (has_column_get _ _ Ehc) as (c & Hc). rewrite Hc. cbn [bind].
    destruct (group_perf_loop_total (group_values c) predictions y) as (perf & Hp).
    { symmetry. apply (Hlen a c Ha Hc). }
    rewrite Hp. cbn [bind]. eauto.
  - rewrite Hloop. cbn [bind]. eexists. split; [reflexivity|].
    cbn [model_predictions mb_protected_attributes group_performance].
    destruct (model_bias_loop_facts _ _ _ _ _ _ Hloop) as (Hk & Hnd & _).
    split; [reflexivity|]. split; [reflexivity|].
    split; [apply Hnd; constructor|].
    intro a. rewrite Hk. simpl. tauto.
Qed.

(** Witness of X19: the attribute [missing] is not a column of
    [int32_frame]. *)
Lemma model_bias_skips_missing_attributes_witness :
  exists r,
    detect_model_bias (fun _ => Ok [1; 0; 1; 1]%Z) int32_frame [1; 1; 0; 0]%Z
      ["g"; "missing"] = Ok r /\
    model_predictions r = [1; 0; 1; 1]%Z /\
    mb_protected_attributes r = ["g"; "missing"] /\
    NoDup (dict_keys (group_performance r)) /\
    forall a, In a (dict_keys (group_performance r)) <->
              In a ["g"; "missing"] /\ has_column int32_frame a = true.
Proof.
  apply (model_bias_skips_missing_attributes (fun _ => Ok [1; 0; 1; 1]%Z)
           int32_frame [1; 1; 0; 0]%Z ["g"; "missing"] [1; 0; 1; 1]%Z).
  - reflexivity.
  - reflexivity.
  - intros a c [<-|[<-|[]]] Hc.
    + injection Hc as <-. reflexivity.
    + discriminate Hc.
Defined.

(** X20: every entry of the performance table belongs to a group of the
    attribute's column; its size is the number of rows of the group, which
    is also the number of predictions compared; the accuracy is a number in
    [0, 1]; the positive prediction rate is absent exactly when all the
    predictions of the group are equal (all equal to 1 included), and is
    otherwise a number in [0, 1). *)
Theorem group_performance_entry_facts
    (predict : DataFrame -> result (list Z)) (X : DataFrame) (y : list Z)
    (attrs : list string) (predictions : list Z) (r : model_bias_report)
    (a : string) (perf : dict group_perf) (g : string) (e : group_perf) :
  predict X = Ok predictions ->
  List.length y = List.length predictions ->
  detect_model_bias predict X y attrs = Ok r ->
  In (a, perf) (group_performance r) ->
  In (g, e) perf ->
  exists c,
    get_column X a = Ok c /\ In g (group_values c) /\
    let group_pred := Np.select predictions (Np.eq_mask (group_values c) g) in
    gp_size e = group_size (group_values c) g /\
    (1 <= gp_size e)%nat /\
    List.length group_pred = gp_size e /\
    unit_interval (gp_accuracy e) /\
    (gp_positive_prediction_rate e = None <->
     forall p q, In p group_pred -> In q group_pred -> p = q) /\
    (forall x, gp_positive_prediction_rate e = Some x ->
       exists q, x = Fin q /\ 0 <= q /\ q < 1).
Proof.
  intros Hpred Hy H Hperf He. unfold detect_model_bias in H.
  rewrite Hpred in H. cbn [bind] in H.
  apply bind_ok in H as (performance & Hloop & H). injection H as <-.
  cbn [group_performance] in Hperf.
  destruct (model_bias_loop_facts _ _ _ _ _ _ Hloop) as (_ & _ & Hent).
  destruct (Hent a perf Hperf) as [[]|(c & Hc & Hgroups)].
  exists c. split; [exact Hc|].
  apply group_perf_loop in Hgroups as [Hlen ->].
  apply in_combine_map in He as [Hg ->].
  apply (proj1 (pd_unique_in _ _)) in Hg. split; [exact Hg|].
  set (values := group_values c) in *.
  assert (Hne : values <> []) by (intro E; rewrite E in Hg; destruct Hg).
  specialize (Hlen Hne).
  assert (Hmask : List.length predictions = List.length (Np.eq_mask values g))
    by (rewrite eq_mask_length; exact Hlen).
  intro group_pred.
  assert (Hgp : group_pred <> [])
    by (apply select_group_not_nil; assumption).
  assert (Hgt : Np.select y (Np.eq_mask values g) <> []).
  { apply select_group_not_nil; [congruence | exact Hg]. }
  unfold group_perf_entry.
  cbn [gp_size gp_accuracy gp_positive_prediction_rate]. fold group_pred.
  split; [reflexivity|].
  split; [apply (group_size_pos values g Hg)|].
  split; [apply select_length; exact Hmask|].
  split; [|split].
  - unfold agreement.
    destruct (mean_indicator (fun ab : Z * Z => Z.eqb (fst ab) (snd ab))
                (combine group_pred (Np.select y (Np.eq_mask values g))))
      as (q & Hq & H0 & H1 & _).
    { destruct group_pred; [congruence|].
      destruct (Np.select y _); [congruence | discriminate]. }
    exists q. split; [exact Hq | split; assumption].
  - destruct (Nat.ltb 1 (List.length (unique_int group_pred))) eqn:E.
    + split; [discriminate|]. intro Hall.
      apply unique_int_all_equal in Hall. congruence.
    + split; [|reflexivity]. intros _. apply unique_int_all_equal. exact E.
  - intros x Hx.
    destruct (Nat.ltb 1 (List.length (unique_int group_pred))) eqn:E;
      [|discriminate Hx].
    injection Hx as <-.
    destruct (mean_indicator (fun v => Z.eqb v 1) group_pred Hgp)
      as (q & Hq & H0 & _ & Hlt).
    exists q. split; [exact Hq|]. split; [exact H0|]. apply Hlt.
    destruct (existsb (fun v => negb (Z.eqb v 1)) group_pred) eqn:Ex.
    + apply existsb_exists in Ex as (v & Hv & Hneg).
      exists v. split; [exact Hv|]. apply negb_true_iff. exact Hneg.
    + exfalso.
      assert (Hone : forall v, In v group_pred -> v = 1%Z).
      { intros v Hv. destruct (Z.eqb v 1) eqn:E1; [apply Z.eqb_eq; exact E1|].
        assert (existsb (fun v => negb (Z.eqb v 1)) group_pred = true).
        { apply existsb_exists. exists v. split; [exact Hv|]. rewrite E1. reflexivity. }
        congruence. }
      assert (Hall : Nat.ltb 1 (List.length (unique_int group_pred)) = false).
      { apply unique_int_all_equal. intros p q0 Hp Hq0.
        rewrite (Hone p Hp), (Hone q0 Hq0). reflexivity. }
      congruence.
Qed.

(** Witness of X20: the predictions of group "b" of [int32_frame] are all 1,
    and its positive prediction rate is absent. *)
Lemma group_performance_entry_facts_witness :
  exists c,
    get_column int32_frame "g" = Ok c /\ In "b" (group_values c) /\
    let group_pred := Np.select [1; 0; 1; 1]%Z (Np.eq_mask (group_values c) "b") in
    2%nat = group_size (group_values c) "b" /\
    (1 <= 2)%nat /\
    List.length group_pred = 2%nat /\
    unit_interval (Fin 0) /\
    (@None pyfloat = None <->
     forall p q, In p group_pred -> In q group_pred -> p = q) /\
    (forall x, @None pyfloat = Some x ->
       exists q, x = Fin q /\ 0 <= q /\ q < 1).
Proof.
  apply (group_performance_entry_facts (fun _ => Ok [1; 0; 1; 1]%Z)
           int32_frame [1; 1; 0; 0]%Z ["g"] [1; 0; 1; 1]%Z
           {| model_predictions := [1; 0; 1; 1]%Z;
              mb_protected_attributes := ["g"];
              group_performance :=
                [("g", [("a", {| gp_size := 2;
                                 gp_accuracy := Fin (1 # 2);
                                 gp_positive_prediction_rate := Some (Fin (1 # 2)) |});
                        ("b", {| gp_size := 2;
                                 gp_accuracy := Fin 0;
                                 gp_positive_prediction_rate := None |})])] |}
           "g"
           [("a", {| gp_size := 2;
                     gp_accuracy := Fin (1 # 2);
                     gp_positive_prediction_rate := Some (Fin (1 # 2)) |});
            ("b", {| gp_size := 2;
                     gp_accuracy := Fin 0;
                     gp_positive_prediction_rate := None |})]
           "b"
           {| gp_size := 2; gp_accuracy := Fin 0;
              gp_positive_prediction_rate := None |}).
  - reflexivity.
  - reflexivity.
  - vm_compute. reflexivity.
  - left. reflexivity.
  - right. left. reflexivity.
Defined.

(* ================================================================== *)
(** * Demographic parity under a renaming of the groups *)
(* ================================================================== *)

Lemma demographic_parity_form (y_pred : list Z) (protected_attr : list string)
    (r : dp_result) :
  demographic_parity y_pred protected_attr = Ok r ->
  exists M m,
    largest (dict_values (positive_rates r)) M /\
    smallest (dict_values (positive_rates r)) m /\
    parity_ratio r = ratio_or_inf (Fin M) (Fin m) /\
    dp_violation r = pf_sub (Fin M) (Fin m) /\
    dp_is_fair r = pf_lt (pf_sub (Fin M) (Fin m)) threshold.
Proof.
  intro H. unfold demographic_parity in H.
  apply bind_ok in H as (d & Hloop & H).
  apply bind_ok in H as (mx & Hmax & H).
  apply bind_ok in H as (mn & Hmin & H). injection H as <-.
  cbn [positive_rates parity_ratio dp_violation dp_is_fair].
  pose proof (dp_rates_fin _ _ _ Hloop) as Hfin.
  assert (Hne : dict_values d <> []).
  { intro E. rewrite E in Hmax. discriminate Hmax. }
  destruct (py_max_fin _ Hne Hfin) as (M & HM & HMin & HMub).
  destruct (py_min_fin _ Hne Hfin) as (m & Hm & Hmin' & Hmlb).
  rewrite HM in Hmax. injection Hmax as <-.
  rewrite Hm in Hmin. injection Hmin as <-.
  exists M, m. repeat split; assumption.
Qed.

Lemma float_of_Q_compat (x y : Q) : x == y -> float_of_Q x = float_of_Q y.
Proof. intro H. unfold float_of_Q. f_equal. apply Qred_complete. exact H. Qed.

Lemma Qlt_bool_compat (x x' y y' : Q) :
  x == x' -> y == y' -> Qlt_bool x y = Qlt_bool x' y'.
Proof.
  intros Hx Hy. destruct (Qlt_bool x' y') eqn:E.
  - apply Qlt_bool_iff. apply Qlt_bool_iff in E. rewrite Hx, Hy. exact E.
  - apply Qlt_bool_false. apply Qlt_bool_false in E. rewrite Hx, Hy. exact E.
Qed.

Lemma Qeq_bool_compat (x x' y y' : Q) :
  x == x' -> y == y' -> Qeq_bool x y = Qeq_bool x' y'.
Proof.
  intros Hx Hy. destruct (Qeq_bool x' y') eqn:E.
  - apply Qeq_bool_iff. apply Qeq_bool_iff in E. rewrite Hx, Hy. exact E.
  - destruct (Qeq_bool x y) eqn:E'; [|reflexivity].
    apply Qeq_bool_iff in E'. rewrite Hx, Hy in E'.
    apply Qeq_bool_iff in E'. congruence.
Qed.

Lemma pf_sub_compat (M M' m m' : Q) :
  M == M' -> m == m' -> pf_sub (Fin M) (Fin m) = pf_sub (Fin M') (Fin m').
Proof.
  intros HM Hm. simpl. apply float_of_Q_compat. rewrite HM, Hm. reflexivity.
Qed.

Lemma ratio_or_inf_compat (M M' m m' : Q) :
  M == M' -> m == m' ->
  ratio_or_inf (Fin M) (Fin m) = ratio_or_inf (Fin M') (Fin m').
Proof.
  intros HM Hm. unfold ratio_or_inf, pf_gt. simpl pf_lt.
  rewrite (Qlt_bool_compat 0 0 m m' (Qeq_refl 0) Hm).
  destruct (Qlt_bool 0 m') eqn:E; [|reflexivity].
  unfold pf_div. rewrite (Qeq_bool_compat m m' 0 0 Hm (Qeq_refl 0)).
  destruct (Qeq_bool m' 0) eqn:E0.
  - apply Qeq_bool_iff in E0. apply Qlt_bool_iff in E. rewrite E0 in E.
    exfalso. apply (Qlt_irrefl 0). exact E.
  - apply float_of_Q_compat. rewrite HM, Hm. reflexivity.
Qed.

Lemma extremes_of_same_rates (l l' : list pyfloat) (M M' m m' : Q) :
  (forall x, In x l <-> In x l') ->
  largest l M -> largest l' M' -> smallest l m -> smallest l' m' ->
  M == M' /\ m == m'.
Proof.
  intros Hsame [HM HMub] [HM' HMub'] [Hm Hmlb] [Hm' Hmlb'].
  split; apply Qle_antisym.
  - apply HMub'. apply Hsame. exact HM.
  - apply HMub. apply Hsame. exact HM'.
  - apply Hmlb. apply Hsame. exact Hm'.
  - apply Hmlb'. apply Hsame. exact Hm.
Qed.

Lemma eq_mask_renamed (f : string -> string) (a : list string) (g : string) :
  injective_on f a -> In g a ->
  Np.eq_mask (map f a) (f g) = Np.eq_mask a g.
Proof.
  intros Hinj Hg. unfold Np.eq_mask. rewrite map_map.
  apply map_ext_in. intros x Hx.
  destruct (String.eqb x g) eqn:E.
  - apply String.eqb_eq in E. subst x. apply String.eqb_refl.
  - apply String.eqb_neq. intro Hf. apply String.eqb_neq in E. apply E.
    apply Hinj; assumption.
Qed.

Lemma forall2_in_left {A B : Type} (P : A -> B -> Prop) (gs : list A) (vs : list B)
    (g : A) :
  Forall2 P gs vs -> In g gs -> exists v, In (g, v) (combine gs vs) /\ P g v.
Proof.
  induction 1 as [|g' v' gs vs Hp Hrest IH]; simpl; [tauto|].
  intros [<-|Hin].
  - exists v'. auto.
  - destruct (IH Hin) as (v & Hv & Hpv). exists v. auto.
Qed.

Lemma dict_values_in {V : Type} (d : dict V) (v : V) :
  In v (dict_values d) <-> exists k, In (k, v) d.
Proof.
  unfold dict_values. rewrite in_map_iff. split.
  - intros ([k w] & <- & Hin). exists k. exact Hin.
  - intros (k & Hin). exists (k, v). auto.
Qed.

(** X21: renaming the groups one to one does not change the outcome of
    demographic parity: the calculator still returns, every group keeps its
    positive rate under its new name, there are as many groups, and the
    parity ratio, the violation and the verdict are the same. *)
Theorem demographic_parity_invariant_under_renaming
    (f : string -> string) (y_pred : list Z) (protected_attr : list string)
    (r : dp_result) :
  injective_on f protected_attr ->
  demographic_parity y_pred protected_attr = Ok r ->
  exists r',
    demographic_parity y_pred (map f protected_attr) = Ok r' /\
    (forall g x, In (g, x) (positive_rates r) -> In (f g, x) (positive_rates r')) /\
    List.length (positive_rates r') = List.length (positive_rates r) /\
    parity_ratio r' = parity_ratio r /\
    dp_violation r' = dp_violation r /\
    dp_is_fair r' = dp_is_fair r.
Proof.
  intros Hinj H.
  destruct (demographic_parity_groups _ _ _ H) as (vs & Hpr & Hlen & Hall).
  destruct (demographic_parity_form _ _ _ H) as (M & m & HM & Hm & Hratio & Hviol & Hfair).
  (* the vectors are aligned and not empty *)
  assert (Hgs : Np.unique protected_attr <> []).
  { intro E. rewrite Hpr, E in HM. destruct HM as [[] _]. }
  assert (Halign : List.length y_pred = List.length protected_attr).
  { destruct (Np.unique protected_attr) as [|g gs] eqn:E; [congruence|].
    inversion Hall as [|? v ? ? Hp _]; subst.
    unfold positive_rate_for in Hp. apply bind_ok in Hp as (sel & Hidx & _).
    apply index_ok in Hidx as [Hl _]. rewrite eq_mask_length in Hl. exact Hl. }
  assert (Hne : protected_attr <> []).
  { intro E. rewrite E in Hgs. apply Hgs. reflexivity. }
  destruct (demographic_parity_total y_pred (map f protected_attr)) as (r' & H').
  { destruct protected_attr; [congruence | discriminate]. }
  { rewrite length_map. exact Halign. }
  destruct (demographic_parity_groups _ _ _ H') as (vs' & Hpr' & Hlen' & Hall').
  destruct (demographic_parity_form _ _ _ H')
    as (M' & m' & HM' & Hm' & Hratio' & Hviol' & Hfair').
  (* a group and its new name have the same rate *)
  assert (Hrate : forall g, In g protected_attr ->
            positive_rate_for y_pred (map f protected_attr) (f g)
            = positive_rate_for y_pred protected_attr g).
  { intros g Hg. unfold positive_rate_for.
    rewrite (eq_mask_renamed f _ _ Hinj Hg). reflexivity. }
  assert (Hfwd : forall g x, In (g, x) (positive_rates r) ->
                             In (f g, x) (positive_rates r')).
  { intros g x Hin. rewrite Hpr in Hin.
    pose proof (forall2_combine _ _ _ _ _ Hall Hin) as Hx.
    assert (Hg : In g protected_attr).
    { apply (proj1 (unique_in _ _)). apply (in_combine_l _ _ _ _ Hin). }
    assert (Hfg : In (f g) (Np.unique (map f protected_attr))).
    { apply unique_in. apply in_map. exact Hg. }
    destruct (forall2_in_left _ _ _ _ Hall' Hfg) as (x' & Hin' & Hx').
    rewrite (Hrate g Hg), Hx in Hx'. injection Hx' as <-.
    rewrite Hpr'. exact Hin'. }
  assert (Hbwd : forall g' x, In (g', x) (positive_rates r') ->
                              exists g, In (g, x) (positive_rates r)).
  { intros g' x Hin. rewrite Hpr' in Hin.
    pose proof (forall2_combine _ _ _ _ _ Hall' Hin) as Hx.
    assert (Hg' : In g' (map f protected_attr)).
    { apply (proj1 (unique_in _ _)). apply (in_combine_l _ _ _ _ Hin). }
    apply in_map_iff in Hg' as (g & <- & Hg).
    assert (Hgu : In g (Np.unique protected_attr)) by (apply unique_in; exact Hg).
    destruct (forall2_in_left _ _ _ _ Hall Hgu) as (x0 & Hin0 & Hx0).
    rewrite (Hrate g Hg), Hx0 in Hx. injection Hx as <-.
    exists g. rewrite Hpr. exact Hin0. }
  assert (Hsame : forall x, In x (dict_values (positive_rates r)) <->
                            In x (dict_values (positive_rates r'))).
  { intro x. rewrite !dict_values_in. split.
    - intros (g & Hin). exists (f g). apply Hfwd. exact Hin.
    - intros (g' & Hin). apply (Hbwd g' x Hin). }
  destruct (extremes_of_same_rates _ _ _ _ _ _ Hsame HM HM' Hm Hm') as [EM Em].
  exists r'. split; [exact H'|]. split; [exact Hfwd|].
  split.
  - rewrite Hpr, Hpr'. rewrite !length_combine, Hlen, Hlen', !Nat.min_id.
    rewrite <- (length_map f (Np.unique protected_attr)).
    apply Permutation_length. apply NoDup_Permutation.
    + apply unique_nodup.
    + apply NoDup_map_NoDup_ForallPairs; [|apply unique_nodup].
      intros a b Ha Hb Hab. apply Hinj; [| |exact Hab];
        apply (proj1 (unique_in _ _)); assumption.
    + intro x. rewrite unique_in, !in_map_iff. split.
      * intros (g & <- & Hg). exists g. split; [reflexivity|].
        apply unique_in. exact Hg.
      * intros (g & <- & Hg). exists g. split; [reflexivity|].
        apply (proj1 (unique_in _ _)). exact Hg.
  - rewrite Hratio, Hratio', Hviol, Hviol', Hfair, Hfair'.
    rewrite (pf_sub_compat _ _ _ _ EM Em), (ratio_or_inf_compat _ _ _ _ EM Em).
    repeat split; reflexivity.
Qed.

(** Witness of X21: the groups "A" and "B" renamed "x" and "y". *)
Lemma demographic_parity_invariant_under_renaming_witness :
  exists r',
    demographic_parity [1; 0; 1; 1]%Z (map rename_AB ["A"; "B"; "A"; "B"]) = Ok r' /\
    (forall g x, In (g, x) [("A", Fin 1); ("B", Fin (1 # 2))] ->
                 In (rename_AB g, x) (positive_rates r')) /\
    List.length (positive_rates r') = 2%nat /\
    parity_ratio r' = Fin 2 /\
    dp_violation r' = Fin (1 # 2) /\
    dp_is_fair r' = false.
Proof.
  apply (demographic_parity_invariant_under_renaming rename_AB [1; 0; 1; 1]%Z
           ["A"; "B"; "A"; "B"]
           {| positive_rates := [("A", Fin 1); ("B", Fin (1 # 2))];
              parity_ratio := Fin 2;
              dp_violation := Fin (1 # 2);
              dp_is_fair := false |}).
  - intros x y Hx Hy.
    assert (Hin : forall z, In z ["A"; "B"; "A"; "B"] -> z = "A" \/ z = "B").
    { intros z [<-|[<-|[<-|[<-|[]]]]]; auto. }
    destruct (Hin x Hx) as [-> | ->]; destruct (Hin y Hy) as [-> | ->];
      intro H; first [reflexivity | discriminate H].
  - vm_compute. reflexivity.
Defined.

(* ================================================================== *)
(** * Group sizes in the label analysis *)
(* ================================================================== *)

Lemma dict_get_set_other {V : Type} (d : dict V) (k g : string) (v : V) :
  k <> g -> dict_get (dict_set d k v) g = dict_get d g.
Proof.
  intro Hne. induction d as [|[k' v'] d IH]; simpl.
  - destruct (String.eqb k g) eqn:E; [|reflexivity].
    apply String.eqb_eq in E. contradiction.
  - destruct (String.eqb k' k) eqn:E; simpl.
    + apply String.eqb_eq in E. subst k'.
      destruct (String.eqb k g) eqn:E'; [|reflexivity].
      apply String.eqb_eq in E'. contradiction.
    + rewrite IH. reflexivity.
Qed.

Lemma dict_get_combine_map {V : Type} (F : string -> V) (gs : list string)
    (g : string) :
  In g gs -> dict_get (combine gs (map F gs)) g = Some (F g).
Proof.
  induction gs as [|k gs IH]; simpl; [tauto|].
  intro Hin. destruct (String.eqb k g) eqn:E.
  - apply String.eqb_eq in E. subst k. reflexivity.
  - apply IH. destruct Hin as [->|Hin]; [|exact Hin].
    rewrite String.eqb_refl in E. discriminate E.
Qed.

Lemma label_bias_loop_numeric (data : DataFrame) (values : list string) (t : string)
    (dt : dtype) (cells : list Z) :
  get_column data t = Ok (IntCol dt cells) ->
  exists F : string -> label_bias_value,
    (forall g, exists pr mt, F g = LBGroup (group_size values g) pr mt) /\
    for_in (Pandas.unique values) (label_bias_step data values t) []
    = Ok (combine (Pandas.unique values) (map F (Pandas.unique values))).
Proof.
  intro Ht.
  exists (fun g =>
            match dt with
            | int64 =>
                LBGroup (group_size values g)
                  (Some (Np.mean (map (fun v => if Z.eqb v 1 then 1 else 0)
                                    (Np.select cells (Np.eq_mask values g)))))
                  None
            | int32 =>
                LBGroup (group_size values g) None
                  (Some (Np.mean_int (Np.select cells (Np.eq_mask values g))))
            end).
  split; [intro g; destruct dt; eauto|].
  set (F := fun g : string => match dt with int64 => _ | int32 => _ end).
  change (combine (Pandas.unique values) (map F (Pandas.unique values)))
    with ([] ++ combine (Pandas.unique values) (map F (Pandas.unique values)))%list.
  rewrite <- (for_in_dict_pure F (Pandas.unique values) []);
    [| apply pd_unique_nodup | intros g _ []].
  apply for_in_ext. intros g d Hg. apply (proj1 (pd_unique_in _ _)) in Hg.
  unfold label_bias_step. pose proof (group_size_pos values g Hg) as Hpos.
  unfold group_size in Hpos.
  destruct (Nat.ltb 0 _) eqn:E; [|apply Nat.ltb_ge in E; lia].
  rewrite Ht. unfold F. destruct dt; reflexivity.
Qed.

(** X22: with a numeric target column, the label analysis has one entry for
    every group of the attribute, and the entry's group size is the count
    that the analysis reports for the group; the only other key is
    ["disparity"], whose entry takes the place of a group of that name. *)
Theorem label_bias_sizes_match_group_counts
    (data : DataFrame) (attr t : string) (dt : dtype) (cells : list Z)
    (a : attribute_analysis) :
  t <> "" ->
  get_column data t = Ok (IntCol dt cells) ->
  _analyze_attribute data attr (Some t) = Ok a ->
  exists lb,
    label_bias a = Some lb /\
    (forall g n, In (g, n) (group_counts a) -> g <> "disparity" ->
       exists pr mt, dict_get lb g = Some (LBGroup n pr mt)) /\
    (forall g, In g (dict_keys lb) ->
       g = "disparity" \/ In g (dict_keys (group_counts a))).
Proof.
  intros Hne Ht H. unfold _analyze_attribute in H.
  apply bind_ok in H as (c & Hc & H).
  assert (Hw : wants_label_bias data (Some t) = Some t).
  { unfold wants_label_bias. apply String.eqb_neq in Hne. rewrite Hne.
    rewrite (get_column_has _ _ _ Ht). reflexivity. }
  rewrite Hw in H. apply bind_ok in H as (lb & Hlb & H). injection H as <-.
  cbn [label_bias group_counts]. exists lb. split; [reflexivity|].
  unfold _calculate_label_bias in Hlb. rewrite Hc in Hlb. cbn [bind] in Hlb.
  destruct (label_bias_loop_numeric data (group_values c) t dt cells Ht)
    as (F & HF & Hloop).
  rewrite Hloop in Hlb. cbn [bind] in Hlb.
  set (gs := Pandas.unique (group_values c)) in *.
  destruct (value_counts_facts (group_values c)) as (_ & H2 & H3 & _).
  split.
  - intros g n Hin Hgd. destruct (H3 g n Hin) as [-> _].
    assert (Hg : In g gs).
    { apply pd_unique_in. apply H2. apply in_map_iff. exists (g, count (group_values c) g).
      auto. }
    destruct (HF g) as (pr & mt & HFg). exists pr, mt.
    rewrite count_is_group_size, <- HFg.
    apply add_disparity_cases in Hlb as [->|(mx & mn & _ & _ & ->)].
    + apply dict_get_combine_map. exact Hg.
    + rewrite dict_get_set_other by (intro E; apply Hgd; symmetry; exact E).
      apply dict_get_combine_map. exact Hg.
  - intros g Hin.
    assert (Hkeys : In g (dict_keys (combine gs (map F gs))) ->
                    In g (dict_keys (value_counts (group_values c)))).
    { rewrite combine_keys by apply length_map. intro Hg.
      apply H2. apply (proj1 (pd_unique_in _ _)). exact Hg. }
    apply add_disparity_cases in Hlb as [->|(mx & mn & _ & _ & ->)].
    + right. apply Hkeys. exact Hin.
    + apply dict_set_keys in Hin as [->|Hin]; [left; reflexivity|].
      right. apply Hkeys. exact Hin.
Qed.

(** Witness of X22 on [int32_frame]. *)
Lemma label_bias_sizes_match_group_counts_witness :
  exists lb,
    Some [("a", LBGroup 2 None (Some (Fin 1)));
          ("b", LBGroup 2 None (Some (Fin 0)));
          ("disparity", LBDisparity (Fin 1) (Fin 0) PInf)] = Some lb /\
    (forall g n, In (g, n) [("a", 2%nat); ("b", 2%nat)] -> g <> "disparity" ->
       exists pr mt, dict_get lb g = Some (LBGroup n pr mt)) /\
    (forall g, In g (dict_keys lb) ->
       g = "disparity" \/ In g (dict_keys [("a", 2%nat); ("b", 2%nat)])).
Proof.
  apply (label_bias_sizes_match_group_counts int32_frame "g" "y" int32
           [1; 1; 0; 0]%Z
           {| attribute := "g";
              group_distribution := [("a", Fin (1 # 2)); ("b", Fin (1 # 2))];
              group_counts := [("a", 2%nat); ("b", 2%nat)];
              rep_bias := {| max_proportion := Fin (1 # 2);
                             min_proportion := Fin (1 # 2);
                             disparity_ratio := Fin 1;
                             is_balanced := true |};
              label_bias :=
                Some [("a", LBGroup 2 None (Some (Fin 1)));
                      ("b", LBGroup 2 None (Some (Fin 0)));
                      ("disparity", LBDisparity (Fin 1) (Fin 0) PInf)] |}).
  - discriminate.
  - reflexivity.
  - vm_compute. reflexivity.
Defined.
